(** * build.py: the blog build pipeline, embedded and verified

    The development follows the layout of [build.py]:

    - [PyStr]   : the [str] methods the script calls ([strip], [lstrip],
                  [split], [startswith], slicing, [replace]);
    - [Re]      : the fragment of Python's [re] module the script uses, as a
                  backtracking matcher over a small pattern syntax, together
                  with the scanner behind [findall]/[sub] and the
                  replacement-template parser of [re.sub];
    - [Fs]      : the part of the file system the script touches, as a tree
                  with explicit state passing and failure;
    - [Build]   : the functions of [build.py] themselves;
    - the theorems about them.

    A Python [str] is a list of characters; a character is a code point
    below 256 (the type [ascii]), and the character classes are Python's on
    that range.  Console output ([print]) is not part of the model. *)

From Stdlib Require Import Ascii String.
From stdpp Require Import base list option strings sorting.

Abbreviation str := (list ascii).

(** String literals stand for their list of characters. *)
Definition lit (s : string) : str := list_ascii_of_string s.
Coercion lit : string >-> list.

Open Scope string_scope.
Open Scope list_scope.
Open Scope nat_scope.

(** ** Python [str] methods *)
Module PyStr.

(** [str.isspace] for one character, i.e. [Py_UNICODE_ISSPACE]: on code
    points below 256 these are TAB, LF, VT, FF, CR, the separators
    0x1C-0x1F, the space, NEL (0x85) and the no-break space (0xA0). *)
Definition isspace (c : ascii) : bool :=
  let n := nat_of_ascii c in
  ((9 <=? n) && (n <=? 13)) || ((28 <=? n) && (n <=? 32))
  || (n =? 133) || (n =? 160).

(** Decimal digits ([Py_UNICODE_ISDECIMAL]); below 256 only 0-9. *)
Definition isdecimal (c : ascii) : bool :=
  let n := nat_of_ascii c in (48 <=? n) && (n <=? 57).

Definition eqc (a b : ascii) : bool := Ascii.eqb a b.

(** [s.lstrip()] *)
Fixpoint lstrip (s : str) : str :=
  match s with
  | c :: s' => if isspace c then lstrip s' else s
  | [] => []
  end.

(** [s.rstrip()] *)
Fixpoint rstrip (s : str) : str :=
  match s with
  | c :: s' =>
      match rstrip s' with
      | [] => if isspace c then [] else [c]
      | r => c :: r
      end
  | [] => []
  end.

(** [s.strip()] *)
Definition strip (s : str) : str := rstrip (lstrip s).

(** [s.lstrip(chars)] for a one-character [chars]. *)
Fixpoint lstrip_char (x : ascii) (s : str) : str :=
  match s with
  | c :: s' => if eqc c x then lstrip_char x s' else s
  | [] => []
  end.

(** [s.split(sep)] for a one-character separator: always at least one
    field, one more than the number of separators. *)
Fixpoint split (sep : ascii) (s : str) : list str :=
  match s with
  | [] => [[]]
  | c :: s' =>
      if eqc c sep then [] :: split sep s'
      else match split sep s' with
           | l :: ls => (c :: l) :: ls
           | [] => [[c]]
           end
  end.

(** [s.startswith(p)] *)
Fixpoint startswith (p s : str) : bool :=
  match p, s with
  | [], _ => true
  | a :: p', b :: s' => eqc a b && startswith p' s'
  | _ :: _, [] => false
  end.

(** [s.endswith(p)] *)
Definition endswith (p s : str) : bool := startswith (reverse p) (reverse s).

(** [s.replace(old, new)] for a one-character [old]. *)
Fixpoint replace_char (old : ascii) (new : str) (s : str) : str :=
  match s with
  | c :: s' => (if eqc c old then new else [c]) ++ replace_char old new s'
  | [] => []
  end.

(** [s.rfind(c)]: the index of the last occurrence of the character. *)
Fixpoint rfind (x : ascii) (s : str) : option nat :=
  match s with
  | [] => None
  | c :: s' =>
      match rfind x s' with
      | Some i => Some (S i)
      | None => if eqc c x then Some 0 else None
      end
  end.

(** Lexicographic [<] on strings, by code point. *)
Fixpoint ltb (a b : str) : bool :=
  match a, b with
  | [], [] => false
  | [], _ :: _ => true
  | _ :: _, [] => false
  | x :: a', y :: b' =>
      if nat_of_ascii x <? nat_of_ascii y then true
      else if nat_of_ascii y <? nat_of_ascii x then false
      else ltb a' b'
  end.

End PyStr.

(** ** The regular expressions of [build.py] *)
Module Re.

(** Character categories [\d], [\s], [\S]. *)
Inductive category := Digit | Space | NotSpace.

Definition category_mem (k : category) (c : ascii) : bool :=
  match k with
  | Digit => PyStr.isdecimal c
  | Space => PyStr.isspace c
  | NotSpace => negb (PyStr.isspace c)
  end.

(** Members of a bracket expression. *)
Inductive item := IChr (c : ascii) | ICat (k : category).

Definition item_mem (i : item) (c : ascii) : bool :=
  match i with
  | IChr x => PyStr.eqc c x
  | ICat k => category_mem k c
  end.

(** What matches one character: a literal, a category escape, [.]
    (without DOTALL: anything but a newline), [[...]] and [[^...]]. *)
Inductive cset :=
| Chr (c : ascii)
| Cat (k : category)
| Dot
| OneOf (items : list item)
| NoneOf (items : list item).

Definition cset_mem (cs : cset) (c : ascii) : bool :=
  match cs with
  | Chr x => PyStr.eqc c x
  | Cat k => category_mem k c
  | Dot => negb (PyStr.eqc c "010"%char)
  | OneOf l => existsb (fun i => item_mem i c) l
  | NoneOf l => negb (existsb (fun i => item_mem i c) l)
  end.

(** The pattern syntax: every repetition in the script's patterns is over
    a single-character set, [Rep greedy lo hi cs] is [cs{lo,hi}] (with
    [hi = None] for no upper bound) or its lazy form; [Opt r] is [(?:r)?];
    [Grp r] is a capturing group. *)
Inductive regex :=
| Eps
| One (cs : cset)
| Rep (greedy : bool) (lo : nat) (hi : option nat) (cs : cset)
| Opt (r : regex)
| Grp (r : regex)
| Seq (r1 r2 : regex).

(** A literal string as a pattern. *)
Fixpoint lits (s : str) : regex :=
  match s with
  | [] => Eps
  | [c] => One (Chr c)
  | c :: s' => Seq (One (Chr c)) (lits s')
  end.

Definition seqs (rs : list regex) : regex := foldr Seq Eps rs.

Definition orelse {A} (a b : option A) : option A :=
  match a with Some x => Some x | None => b end.

Section Exec.
Context {R : Type}.

Definition room (hi : option nat) : bool :=
  match hi with Some 0 => false | _ => true end.

(** The backtracking matcher of a repetition: the greedy form tries one
    more character first and falls back to stopping here, the lazy form
    the other way round. *)
Fixpoint rep (greedy : bool) (cs : cset) (lo : nat) (hi : option nat)
    (s : str) (k : str -> option R) : option R :=
  let stop := match lo with 0 => k s | S _ => None end in
  let more :=
    match s with
    | c :: s' =>
        if cset_mem cs c && room hi
        then rep greedy cs (pred lo) (pred <$> hi) s' k
        else None
    | [] => None
    end in
  if greedy then orelse more stop else orelse stop more.

(** [exec r s caps k]: match [r] at the head of [s], with the groups
    closed so far in [caps], and hand the rest of the input to [k]; when
    [k] fails the matcher backtracks into [r]. *)
Fixpoint exec (r : regex) (s : str) (caps : list str)
    (k : str -> list str -> option R) : option R :=
  match r with
  | Eps => k s caps
  | One cs =>
      match s with
      | c :: s' => if cset_mem cs c then k s' caps else None
      | [] => None
      end
  | Rep g lo hi cs => rep g cs lo hi s (fun s' => k s' caps)
  | Opt r' => orelse (exec r' s caps k) (k s caps)
  | Grp r' =>
      exec r' s caps
        (fun s' caps' => k s' (caps' ++ [take (length s - length s') s]))
  | Seq r1 r2 => exec r1 s caps (fun s' caps' => exec r2 s' caps' k)
  end.
End Exec.

(** A successful match: the text matched, its groups, and the input left. *)
Record hit := Hit { whole : str; groups : list str; rest : str }.

(** The final continuation.  With [must_advance] the scanner refuses an
    empty match at its start position (SRE's [must_advance]). *)
Definition accept (must_advance : bool) (s : str) (s' : str) (caps : list str)
    : option hit :=
  if must_advance && (length s' =? length s) then None
  else Some (Hit (take (length s - length s') s) caps s').

(** Match at the head of [s]. *)
Definition match_here (must_advance : bool) (r : regex) (s : str) : option hit :=
  exec r s [] (accept must_advance s).

(** [re.match(r, s)]: the groups of a match at the start of [s]. *)
Definition re_match (r : regex) (s : str) : option (list str) :=
  groups <$> match_here false r s.

(** The scanner shared by [findall] and [sub]: the input cut into
    characters no match covers and matches, left to right.  After a hit the
    search resumes where it ended; after an empty hit it resumes with
    [must_advance] set.  [limit] is the number of hits still allowed
    ([None]: no limit); once it is used up the rest is copied. *)
Inductive piece := Skip (c : ascii) | Found (h : hit).

Fixpoint scan (fuel : nat) (limit : option nat) (must_advance : bool)
    (r : regex) (s : str) : list piece :=
  match fuel with
  | 0 => []
  | S fuel' =>
      match limit with
      | Some 0 => Skip <$> s
      | _ =>
          match match_here must_advance r s with
          | Some h =>
              Found h ::
                scan fuel' (pred <$> limit)
                  (length (rest h) =? length s) r (rest h)
          | None =>
              match s with
              | c :: s' => Skip c :: scan fuel' limit false r s'
              | [] => []
              end
          end
      end
  end.

Definition pieces (limit : option nat) (r : regex) (s : str) : list piece :=
  scan (2 * length s + 2) limit false r s.

(** [re.findall(r, s)] for a pattern with exactly one group: the list of
    what the group captured, hit by hit. *)
Definition group1 (h : hit) : str := default [] (groups h !! 0).

Definition hits (ps : list piece) : list hit :=
  omap (fun p => match p with Found h => Some h | Skip _ => None end) ps.

Definition findall (r : regex) (s : str) : list str :=
  group1 <$> hits (pieces None r s).

(** *** Replacement templates

    [re.sub] reads a [str] replacement as a template ([parse_template] of
    the standard library): a backslash followed by digits is a group
    reference or an octal escape, [\g<n>] is a group reference, [\n], [\t]
    and the like are control characters, a backslash before any other
    ASCII letter is an error, and every other backslash pair stands for
    itself. *)

(** The tokenizer: a backslash takes the next character with it; a lone
    backslash at the end is an error. *)
Inductive token := Plain (c : ascii) | Esc (c : ascii).

Fixpoint tokenize (s : str) : option (list token) :=
  match s with
  | [] => Some []
  | c :: s' =>
      if PyStr.eqc c "\"%char then
        match s' with
        | [] => None
        | e :: s'' => cons (Esc e) <$> tokenize s''
        end
      else cons (Plain c) <$> tokenize s'
  end.

Definition token_text (t : token) : str :=
  match t with Plain c => [c] | Esc c => ["\"%char; c] end.

Inductive tpart := TLit (s : str) | TRef (n : nat).

Definition digit_val (c : ascii) : nat := nat_of_ascii c - 48.

Definition isoctdigit (c : ascii) : bool :=
  let n := nat_of_ascii c in (48 <=? n) && (n <=? 55).

Definition isasciiletter (c : ascii) : bool :=
  let n := nat_of_ascii c in
  ((65 <=? n) && (n <=? 90)) || ((97 <=? n) && (n <=? 122)).

(** The table [ESCAPES] of the parser. *)
Definition escape_char (c : ascii) : option ascii :=
  if PyStr.eqc c "a" then Some "007"%char
  else if PyStr.eqc c "b" then Some "008"%char
  else if PyStr.eqc c "f" then Some "012"%char
  else if PyStr.eqc c "n" then Some "010"%char
  else if PyStr.eqc c "r" then Some "013"%char
  else if PyStr.eqc c "t" then Some "009"%char
  else if PyStr.eqc c "v" then Some "011"%char
  else if PyStr.eqc c "\" then Some "\"%char
  else None.

(** [getuntil(">")]: the tokens up to the closing [>], as text. *)
Fixpoint getuntil (ts : list token) : option (str * list token) :=
  match ts with
  | [] => None
  | Plain c :: ts' =>
      if PyStr.eqc c ">" then Some ([], ts')
      else prod_map (app [c]) id <$> getuntil ts'
  | Esc c :: ts' => prod_map (app ["\"%char; c]) id <$> getuntil ts'
  end.

Definition decimal_val (s : str) : nat :=
  foldl (fun acc c => 10 * acc + digit_val c) 0 s.

(** [addgroup]: a reference beyond the pattern's groups is an error. *)
Definition addgroup (ngroups index : nat) : option tpart :=
  if index <=? ngroups then Some (TRef index) else None.

(** One step of the parser's loop: the part the next token yields and the
    tokens left.  In [\g<name>] only ASCII decimal names can succeed (the
    script's patterns have no named groups). *)
Definition parse_step (ngroups : nat) (t : token) (ts : list token)
    : option (tpart * list token) :=
  match t with
  | Plain c => Some (TLit [c], ts)
  | Esc c =>
      if PyStr.eqc c "g" then
        match ts with
        | Plain lt :: ts1 =>
            if PyStr.eqc lt "<" then
              '(name, ts2) ← getuntil ts1;
              if bool_decide (name ≠ []) && forallb PyStr.isdecimal name
              then p ← addgroup ngroups (decimal_val name); Some (p, ts2)
              else None
            else None
        | _ => None
        end
      else if PyStr.eqc c "0" then
        match ts with
        | Plain d1 :: ts1 =>
            if isoctdigit d1 then
              match ts1 with
              | Plain d2 :: ts2 =>
                  if isoctdigit d2
                  then Some (TLit [ascii_of_nat (8 * digit_val d1 + digit_val d2)], ts2)
                  else Some (TLit [ascii_of_nat (digit_val d1)], ts1)
              | _ => Some (TLit [ascii_of_nat (digit_val d1)], ts1)
              end
            else Some (TLit ["000"%char], ts)
        | _ => Some (TLit ["000"%char], ts)
        end
      else if PyStr.isdecimal c then
        match ts with
        | Plain d2 :: ts1 =>
            if PyStr.isdecimal d2 then
              let two := 10 * digit_val c + digit_val d2 in
              match ts1 with
              | Plain d3 :: ts2 =>
                  if isoctdigit c && isoctdigit d2 && isoctdigit d3 then
                    let v := 64 * digit_val c + 8 * digit_val d2 + digit_val d3 in
                    if v <=? 255 then Some (TLit [ascii_of_nat v], ts2) else None
                  else p ← addgroup ngroups two; Some (p, ts1)
              | _ => p ← addgroup ngroups two; Some (p, ts1)
              end
            else p ← addgroup ngroups (digit_val c); Some (p, ts)
        | _ => p ← addgroup ngroups (digit_val c); Some (p, ts)
        end
      else
        match escape_char c with
        | Some x => Some (TLit [x], ts)
        | None => if isasciiletter c then None else Some (TLit ["\"%char; c], ts)
        end
  end.

Fixpoint parse_tokens (fuel : nat) (ngroups : nat) (ts : list token)
    : option (list tpart) :=
  match ts with
  | [] => Some []
  | t :: ts' =>
      match fuel with
      | 0 => None
      | S fuel' =>
          '(p, ts'') ← parse_step ngroups t ts';
          cons p <$> parse_tokens fuel' ngroups ts''
      end
  end.

Definition parse_template (ngroups : nat) (repl : str) : option (list tpart) :=
  ts ← tokenize repl; parse_tokens (length ts) ngroups ts.

(** The number of capturing groups of a pattern. *)
Fixpoint ngroups (r : regex) : nat :=
  match r with
  | Eps | One _ | Rep _ _ _ _ => 0
  | Opt r' => ngroups r'
  | Grp r' => S (ngroups r')
  | Seq r1 r2 => ngroups r1 + ngroups r2
  end.

(** [match.expand]: group 0 is the whole match. *)
Definition expand_part (h : hit) (p : tpart) : str :=
  match p with
  | TLit s => s
  | TRef 0 => whole h
  | TRef (S n) => default [] (groups h !! n)
  end.

Definition expand (tpl : list tpart) (h : hit) : str :=
  concat (expand_part h <$> tpl).

Definition render (tpl : list tpart) (p : piece) : str :=
  match p with
  | Skip c => [c]
  | Found h => expand tpl h
  end.

(** [count] as [re.sub] reads it: 0 is no limit. *)
Definition limit_of (count : nat) : option nat :=
  match count with 0 => None | S _ => Some count end.

(** [re.sub(r, repl, s, count)]; [None] is the exception a bad template
    raises. *)
Definition sub (r : regex) (repl : str) (s : str) (count : nat) : option str :=
  tpl ← parse_template (ngroups r) repl;
  Some (concat (render tpl <$> pieces (limit_of count) r s)).

End Re.

(** ** The file system *)
Module Fs.

(** The files and directories below the working directory, as a tree.  A
    directory lists its entries in the order a scan of it yields them; a
    file holds its text, every line ending as it is stored (the encoding of
    the text, UTF-8 throughout the script, and file metadata are below the
    model).  [None] stands for the exception a failed operation raises. *)
Inductive node := File (data : str) | Dir (entries : list (str * node)).

Abbreviation listing := (list (str * node)).
Abbreviation path := (list str).

(** The entry of a name in a listing. *)
Fixpoint find (name : str) (es : listing) : option node :=
  match es with
  | [] => None
  | (n, x) :: es' => if bool_decide (n = name) then Some x else find name es'
  end.

(** Set the entry of a name: in place when the name is listed, at the end
    when it is new. *)
Fixpoint put (name : str) (x : node) (es : listing) : listing :=
  match es with
  | [] => [(name, x)]
  | (n, y) :: es' =>
      if bool_decide (n = name) then (n, x) :: es' else (n, y) :: put name x es'
  end.

(** Drop the entry of a name. *)
Fixpoint remove (name : str) (es : listing) : listing :=
  match es with
  | [] => []
  | (n, y) :: es' =>
      if bool_decide (n = name) then remove name es' else (n, y) :: remove name es'
  end.

Fixpoint lookup (p : path) (t : node) : option node :=
  match p with
  | [] => Some t
  | name :: p' =>
      match t with
      | Dir es => find name es ≫= lookup p'
      | File _ => None
      end
  end.

(** [Path.exists()] *)
Definition exists_ (p : path) (t : node) : bool :=
  bool_decide (is_Some (lookup p t)).

(** Change the listing of the directory at [p]; fails when [p] is not a
    directory or the change fails. *)
Fixpoint in_dir (p : path) (f : listing → option listing) (t : node)
    : option node :=
  match t with
  | File _ => None
  | Dir es =>
      match p with
      | [] => Dir <$> f es
      | name :: p' =>
          sub ← find name es;
          sub' ← in_dir p' f sub;
          Some (Dir (put name sub' es))
      end
  end.

(** [Path.mkdir(parents=True, exist_ok=True)]: every missing directory on
    the way is created; a file on the way is an error. *)
Fixpoint mkdir_parents (p : path) (t : node) : option node :=
  match t with
  | File _ => None
  | Dir es =>
      match p with
      | [] => Some t
      | name :: p' =>
          sub ← mkdir_parents p' (default (Dir []) (find name es));
          Some (Dir (put name sub es))
      end
  end.

(** [(dir / name).mkdir(exist_ok=True)] *)
Definition mkdir_exist_ok (dir : path) (name : str) (t : node) : option node :=
  in_dir dir (λ es,
    match find name es with
    | None => Some (put name (Dir []) es)
    | Some (Dir _) => Some es
    | Some (File _) => None
    end) t.

(** [shutil.rmtree(dir / name)]: the path must be a directory. *)
Definition rmtree (dir : path) (name : str) (t : node) : option node :=
  in_dir dir (λ es,
    match find name es with
    | Some (Dir _) => Some (remove name es)
    | _ => None
    end) t.

(** The text the file at [p] holds. *)
Definition file_data (p : path) (t : node) : option str :=
  match lookup p t with
  | Some (File data) => Some data
  | _ => None
  end.

(** Universal newlines, the translation [open] applies to a file read in
    text mode: CR LF and a CR alone are both read as LF. *)
Fixpoint universal_newlines (s : str) : str :=
  match s with
  | [] => []
  | c :: s' =>
      if PyStr.eqc c "013"
      then match s' with
           | d :: s'' =>
               if PyStr.eqc d "010"
               then "010"%char :: universal_newlines s''
               else "010"%char :: universal_newlines s'
           | [] => ["010"%char]
           end
      else c :: universal_newlines s'
  end.

(** [open(p, 'r', encoding='utf-8').read()] *)
Definition read_file (p : path) (t : node) : option str :=
  universal_newlines <$> file_data p t.

(** [open(dir / name, 'w', encoding='utf-8').write(data)]: the file is
    created or replaced; the directory must exist and the path must not be
    a directory.  The text is stored as it is written: [os.linesep] is LF,
    as on a POSIX system, so that writing translates no line ending. *)
Definition write_file (dir : path) (name : str) (data : str) (t : node)
    : option node :=
  in_dir dir (λ es,
    match find name es with
    | Some (Dir _) => None
    | _ => Some (put name (File data) es)
    end) t.

Definition is_dir (x : node) : bool :=
  match x with Dir _ => true | File _ => false end.

(** [dir.glob('*' + suffix)]: the names in the directory that end with the
    suffix, in directory order; nothing when there is no such directory. *)
Definition glob_suffix (dir : path) (suffix : str) (t : node) : list str :=
  match lookup dir t with
  | Some (Dir es) => filter (λ n, PyStr.endswith suffix n = true) es.*1
  | _ => []
  end.

(** [os.walk(top)], top down: each directory with the names of its
    subdirectories and of its other entries, a directory before the
    directories below it.  Walking what is no directory yields nothing. *)
Fixpoint walk (root : path) (t : node) : list (path * list str * list str) :=
  match t with
  | File _ => []
  | Dir es =>
      (root, (filter (λ e, is_dir e.2 = true) es).*1,
             (filter (λ e, is_dir e.2 = false) es).*1)
      :: (fix below (es : listing) : list (path * list str * list str) :=
            match es with
            | [] => []
            | (n, x) :: es' => walk (root ++ [n]) x ++ below es'
            end) es
  end.

(** [shutil.copy2(src, dst_dir / name)]: into the directory [dst_dir / name]
    when that is one, under the source's own name; onto the path
    otherwise.  The file is copied as it is stored. *)
Definition copy2 (src : path) (dst_dir : path) (name : str) (t : node)
    : option node :=
  data ← file_data src t;
  match lookup (dst_dir ++ [name]) t with
  | Some (Dir _) => write_file (dst_dir ++ [name]) (default [] (last src)) data t
  | _ => write_file dst_dir name data t
  end.

End Fs.

(** A loop over a list whose body may raise. *)
Fixpoint foldM {A B} (f : A → B → option A) (a : A) (l : list B) : option A :=
  match l with
  | [] => Some a
  | x :: l' => a' ← f a x; foldM f a' l'
  end.

(** ** The functions of [build.py] *)
Module Build.
Import PyStr Re Fs.

(** The loop of [extract_title_from_markdown]: the first line that, once
    stripped, is not empty and does not start with [![[] or [![]. *)
Fixpoint first_title_line (lines : list str) : option str :=
  match lines with
  | [] => None
  | line :: lines' =>
      let line := strip line in
      if bool_decide (line ≠ []) && negb (startswith "![[" line)
         && negb (startswith "![" line)
      then Some (take 50 line)
      else first_title_line lines'
  end.

Definition extract_title_from_markdown (content : str) : option str :=
  let lines := split "010"%char (strip content) in
  match lines with
  | [] => None
  | l0 :: _ =>
      let first_line := strip l0 in
      if startswith "#" first_line
      then Some (strip (lstrip_char "#" first_line))
      else first_title_line lines
  end.

(** [(\d{2})(\d{2})(\d{2})] *)
Definition date_pattern : regex :=
  seqs [Grp (Rep true 2 (Some 2) (Cat Digit));
        Grp (Rep true 2 (Some 2) (Cat Digit));
        Grp (Rep true 2 (Some 2) (Cat Digit))].

Definition parse_date_from_filename (filename : str) : option str :=
  match re_match date_pattern filename with
  | Some [yy; mm; dd] => Some ("20" ++ yy ++ "-" ++ mm ++ "-" ++ dd)
  | _ => None
  end.

(** [!\[\[([^\]]+)\]\]] *)
Definition obsidian_pattern : regex :=
  seqs [lits "![["; Grp (Rep true 1 None (NoneOf [IChr "]"])); lits "]]"].

(** [!\[.*?\]\((?:assets/)?([^\)]+)\)] *)
Definition standard_pattern : regex :=
  seqs [lits "!["; Rep false 0 None Dot; lits "]("; Opt (lits "assets/");
        Grp (Rep true 1 None (NoneOf [IChr ")"])); lits ")"].

Definition extract_images_from_markdown (content : str) : list str :=
  let images := [] in
  let images := images ++ findall obsidian_pattern content in
  let images := images ++ findall standard_pattern content in
  images.

Definition convert_obsidian_images (markdown post_id : str) : option str :=
  sub obsidian_pattern ("![](assets/" ++ post_id ++ "/\1)") markdown 0.

(** *** Documents *)

Definition BLOGS_DIR : path := ["blogs" : str].
Definition DOCS_DIR : path := ["docs" : str].
Definition DOCS_BLOGS_DIR : path := DOCS_DIR ++ ["blogs" : str].
Definition DOCS_ASSETS_DIR : path := DOCS_BLOGS_DIR ++ ["assets" : str].
Definition DOCS_JS_DIR : path := DOCS_DIR ++ ["js" : str].

(** One entry of [posts_metadata]. *)
Record post := Post {
  post_id : str;
  post_date : str;
  post_title : str;
  post_images : list str;
}.

(** [Path.stem]: the name up to its last dot, unless that dot is the first
    or the last character. *)
Definition stem (name : str) : str :=
  match rfind "." name with
  | Some i => if (0 <? i) && (i <? length name - 1) then take i name else name
  | None => name
  end.

(** Insertion of [x] into a list sorted downwards, after what is greater:
    equal names keep their order, as in Python's stable sort. *)
Fixpoint insert_desc (x : str) (l : list str) : list str :=
  match l with
  | [] => [x]
  | y :: l' => if ltb x y then y :: insert_desc x l' else x :: l
  end.

(** [sorted(names, reverse=True)] *)
Definition sorted_desc (l : list str) : list str := foldr insert_desc [] l.

(** Python's truth value of [date] and of [title]: [None] and the empty
    string are false. *)
Definition truthy (o : option str) : bool :=
  match o with Some (_ :: _) => true | _ => false end.

(** The body of the loop of [process_markdown_files], for one file name. *)
Definition process_file (st : list post * node) (name : str)
    : option (list post * node) :=
  let '(posts_metadata, fs) := st in
  content ← read_file (BLOGS_DIR ++ [name]) fs;
  let id := stem name in
  let title := extract_title_from_markdown content in
  let date := parse_date_from_filename (stem name) in
  let images := extract_images_from_markdown content in
  converted_content ← convert_obsidian_images content id;
  fs' ← write_file DOCS_BLOGS_DIR name converted_content fs;
  Some (if truthy date && truthy title
        then posts_metadata ++ [Post id (default [] date) (default [] title) images]
        else posts_metadata,
        fs').

Definition process_markdown_files (fs : node) : option (list post * node) :=
  fs ← mkdir_parents DOCS_BLOGS_DIR fs;
  foldM process_file ([], fs) (sorted_desc (glob_suffix BLOGS_DIR ".md" fs)).

(** *** Assets *)

Definition source_assets : path := BLOGS_DIR ++ ["assets" : str].

(** The search of one image: the first directory of the walk that lists it
    among its files. *)
Definition find_image (image : str) (fs : node) : option path :=
  match lookup source_assets fs with
  | Some top =>
      (λ e, e.1.1) <$>
        List.find (λ e, bool_decide (image ∈ e.2)) (walk source_assets top)
  | None => None
  end.

(** The copy of one image into the folder of a record.  The folder is the
    entry [id] of the destination root: the id is taken as one path
    component, which is what [DOCS_ASSETS_DIR / post_id] makes of it
    unless it is empty, [.] or [..] or holds a separator.  The properties
    of the organizer are stated for such ids.  The image, found among the
    files of a directory, is the name of an entry. *)
Definition copy_image (id : str) (fs : node) (image : str) : option node :=
  match find_image image fs with
  | Some root => copy2 (root ++ [image]) (DOCS_ASSETS_DIR ++ [id]) image fs
  | None => Some fs
  end.

(** One round of the loop over the records: nothing for a record without
    images, else the folder of the record, made as the entry [post_id p]
    of the destination root (an id of one path component, as above), and
    the copies of its images. *)
Definition organize_post (fs : node) (p : post) : option node :=
  match post_images p with
  | [] => Some fs
  | images =>
      fs ← mkdir_exist_ok DOCS_ASSETS_DIR (post_id p) fs;
      foldM (copy_image (post_id p)) fs images
  end.

Definition organize_assets (posts_metadata : list post) (fs : node)
    : option node :=
  if negb (exists_ source_assets fs) then Some fs
  else
    fs ← (if exists_ DOCS_ASSETS_DIR fs
          then rmtree DOCS_BLOGS_DIR "assets" fs else Some fs);
    fs ← mkdir_parents DOCS_ASSETS_DIR fs;
    foldM organize_post fs posts_metadata.

(** *** The metadata block *)

Definition hex_digit (n : nat) : ascii :=
  ascii_of_nat (if n <? 10 then 48 + n else 87 + n).

(** [json.dumps] of one character of a string ([ensure_ascii]). *)
Definition json_char (c : ascii) : str :=
  let n := nat_of_ascii c in
  if eqc c "034" then ["\"%char; "034"%char]
  else if eqc c "\" then "\\"
  else if n =? 10 then "\n"
  else if n =? 13 then "\r"
  else if n =? 9 then "\t"
  else if n =? 8 then "\b"
  else if n =? 12 then "\f"
  else if (32 <=? n) && (n <=? 126) then [c]
  else "\u00" ++ [hex_digit (n / 16); hex_digit (n mod 16)].

Definition json_string (s : str) : str :=
  ["034"%char] ++ concat (json_char <$> s) ++ ["034"%char].

Fixpoint join (sep : str) (l : list str) : str :=
  match l with
  | [] => []
  | [x] => x
  | x :: l' => x ++ sep ++ join sep l'
  end.

(** [json.dumps] of a list of strings. *)
Definition json_dumps (l : list str) : str :=
  "[" ++ join ", " (json_string <$> l) ++ "]".

Definition metadata_line (p : post) : str :=
  let title := replace_char "'" "\'" (post_title p) in
  "    { id: '" ++ post_id p ++ "', date: '" ++ post_date p
  ++ "', title: '" ++ title ++ "', images: " ++ json_dumps (post_images p)
  ++ " }," ++ ["010"%char].

Definition metadata_js (posts_metadata : list post) : str :=
  "postsMetadata: [" ++ ["010"%char]
  ++ concat (metadata_line <$> posts_metadata) ++ "  ]".

(** [postsMetadata:\s*\[[\s\S]*?\]] *)
Definition marker_pattern : regex :=
  seqs [lits "postsMetadata:"; Rep true 0 None (Cat Space); One (Chr "[");
        Rep false 0 None (OneOf [ICat Space; ICat NotSpace]); One (Chr "]")].

Definition blog_js_path : path := DOCS_JS_DIR ++ ["blog.js" : str].

(** The text [update_blog_js] writes back for the text it read. *)
Definition new_blog_js (posts_metadata : list post) (content : str)
    : option str :=
  sub marker_pattern (metadata_js posts_metadata) content 1.

Definition update_blog_js (posts_metadata : list post) (fs : node)
    : option node :=
  if negb (exists_ blog_js_path fs) then Some fs
  else
    content ← read_file blog_js_path fs;
    new_content ← new_blog_js posts_metadata content;
    write_file DOCS_JS_DIR "blog.js" new_content fs.

(** [main] *)
Definition main (fs : node) : option node :=
  '(posts_metadata, fs) ← process_markdown_files fs;
  fs ← organize_assets posts_metadata fs;
  update_blog_js posts_metadata fs.

End Build.

Import PyStr Re Build.

(** ** Specification-level definitions *)

(** The line separator of [str.split] in the script. *)
Abbreviation nl := "010"%char.

(** A pattern whose hits always consume input; all patterns of the script
    are of this kind, so the scanner never sets [must_advance]. *)
Definition consuming (r : regex) : Prop :=
  ∀ ma s h, match_here ma r s = Some h → length (rest h) < length s.

(** The scanner, as a relation: what [pieces] computes, without fuel. *)
Inductive Scanned (r : regex) : option nat → str → list piece → Prop :=
| scanned_limit s :
    Scanned r (Some 0) s (Skip <$> s)
| scanned_end lim :
    lim ≠ Some 0 → Scanned r lim [] []
| scanned_skip lim c s ps :
    lim ≠ Some 0 →
    match_here false r (c :: s) = None →
    Scanned r lim s ps →
    Scanned r lim (c :: s) (Skip c :: ps)
| scanned_hit lim s h ps :
    lim ≠ Some 0 →
    match_here false r s = Some h →
    Scanned r (pred <$> lim) (rest h) ps →
    Scanned r lim s (Found h :: ps).

(** The text a piece stands for. *)
Definition piece_text (p : piece) : str :=
  match p with Skip c => [c] | Found h => whole h end.

(** The two image syntaxes, as text. *)
Definition embed_text (name : str) : str := "![[" ++ name ++ "]]".

Definition embed_name (name : str) : Prop :=
  name ≠ [] ∧ ("]"%char ∉ name).

Definition link_text (alt target : str) : str :=
  "![" ++ alt ++ "](" ++ target ++ ")".

Definition link_parts (alt target : str) : Prop :=
  ("010"%char ∉ alt) ∧ target ≠ [] ∧ (")"%char ∉ target).

(** [alt] is the shortest alternative text with which a standard link
    starts the text [u]: no link at the head of [u] closes its brackets
    earlier. *)
Definition shortest_alt (u alt : str) : Prop :=
  ∀ alt' target' r', link_parts alt' target' →
    u = link_text alt' target' ++ r' → length alt ≤ length alt'.

(** The name a standard link yields: its target, without a leading
    [assets/] when something follows it. *)
Definition strip_assets (target : str) : str :=
  if startswith "assets/" target && (7 <? length target)
  then drop 7 target else target.

(** [parse_date], in the words of the specification: the first six
    characters, when all are digits, read as YYMMDD. *)
Definition date_of_stem (stem : str) : option str :=
  match stem with
  | d1 :: d2 :: d3 :: d4 :: d5 :: d6 :: _ =>
      if forallb isdecimal [d1; d2; d3; d4; d5; d6]
      then Some ("20" ++ [d1; d2] ++ "-" ++ [d3; d4] ++ "-" ++ [d5; d6])
      else None
  | _ => None
  end.

(** An occurrence of a pattern in a text: where it starts, the text it
    covers and the name it captures. *)
Record occurrence := Occ { pos : nat; text : str; name : str }.

(** The occurrences a scan reports, with their positions; [from] is the
    position of the first piece. *)
Fixpoint occurrences (from : nat) (ps : list piece) : list occurrence :=
  match ps with
  | [] => []
  | Skip _ :: ps' => occurrences (S from) ps'
  | Found h :: ps' =>
      Occ from (whole h) (group1 h)
        :: occurrences (from + length (whole h)) ps'
  end.

(** Occurrences that lie in [s] from left to right, each starting at or
    after the end of the one before: in order of appearance, without
    overlap. *)
Fixpoint laid_out (s : str) (from : nat) (os : list occurrence) : Prop :=
  match os with
  | [] => True
  | o :: os' =>
      from ≤ pos o ∧ text o ≠ [] ∧
      take (length (text o)) (drop (pos o) s) = text o ∧
      laid_out s (pos o + length (text o)) os'
  end.

(** Position [i] lies inside one of the occurrences. *)
Definition covered (os : list occurrence) (i : nat) : Prop :=
  ∃ o, o ∈ os ∧ pos o ≤ i < pos o + length (text o).

(** A text cut into the characters normalization copies and the embeds it
    rewrites. *)
Inductive segment := Text (c : ascii) | Embed (name : str).

Definition source (g : segment) : str :=
  match g with Text c => [c] | Embed n => embed_text n end.

(** What the specification asks of [normalize] for one embed. *)
Definition asset_link (post_id name : str) : str :=
  "![](assets/" ++ post_id ++ "/" ++ name ++ ")".

Definition rewritten (post_id : str) (g : segment) : str :=
  match g with Text c => [c] | Embed n => asset_link post_id n end.

(** An embed occurs at the head of [u]. *)
Definition embed_at_head (u : str) : Prop :=
  ∃ n r, embed_name n ∧ u = embed_text n ++ r.

(** No copied character starts an embed: every embed of the text is among
    the rewritten segments. *)
Fixpoint no_embed_skipped (segs : list segment) : Prop :=
  match segs with
  | [] => True
  | Text c :: segs' =>
      ¬ embed_at_head (c :: concat (source <$> segs')) ∧ no_embed_skipped segs'
  | Embed _ :: segs' => no_embed_skipped segs'
  end.

Definition segment_of (p : piece) : segment :=
  match p with Skip c => Text c | Found h => Embed (group1 h) end.

(** Some position of [s] starts an embed opening [![[]. *)
Fixpoint has_open (s : str) : bool :=
  match s with
  | [] => false
  | _ :: s' => startswith "![[" s || has_open s'
  end.

(** After [![[]: a run without a closing bracket, non-empty unless [seen],
    then []]]. *)
Fixpoint closes (seen : bool) (u : str) : bool :=
  match u with
  | [] => false
  | c :: u' =>
      if eqc c "]" then seen && startswith "]" u' else closes true u'
  end.

(** What [convert_obsidian_images] makes of the pieces of a text. *)
Definition converted (post_id : str) (ps : list piece) : str :=
  concat (rewritten post_id ∘ segment_of <$> ps).

(** [extract_title], in the words of the specification.  Lines are read
    without their surrounding whitespace: a line is blank when nothing is
    left of it, and what a line starts with is what it starts with once
    stripped. *)
Definition is_blank (line : str) : bool := bool_decide (line = []).

Definition is_image (line : str) : bool :=
  startswith "![[" line || startswith "![" line.

Definition title_of (content : str) : option str :=
  let lines := strip <$> split "010"%char content in
  match List.find (λ l, negb (is_blank l)) lines with
  | None => None
  | Some first =>
      if startswith "#" first
      then Some (strip (lstrip_char "#" first))
      else take 50 <$>
             List.find (λ l, negb (is_blank l) && negb (is_image l)) lines
  end.

Definition all_space (s : str) : Prop := Forall (λ c, isspace c = true) s.

(** [title_of] on the stripped lines. *)
Definition title_of_lines (lines : list str) : option str :=
  match List.find (λ l, negb (is_blank l)) lines with
  | None => None
  | Some first =>
      if startswith "#" first
      then Some (strip (lstrip_char "#" first))
      else take 50 <$>
             List.find (λ l, negb (is_blank l) && negb (is_image l)) lines
  end.

(** The documents of a run, in the order the loop takes them. *)
Definition documents (fs : Fs.node) : list str :=
  sorted_desc (Fs.glob_suffix BLOGS_DIR ".md" fs).

(** The text of an input document. *)
Definition content_of (fs : Fs.node) (name : str) : str :=
  default [] (Fs.read_file (BLOGS_DIR ++ [name]) fs).

(** The metadata record of a document: there is one exactly when the date
    resolves and the title resolves to a non-empty string. *)
Definition record_of (name content : str) : option post :=
  match parse_date_from_filename (stem name),
        extract_title_from_markdown content with
  | Some date, Some (c :: title) =>
      Some (Post (stem name) date (c :: title)
                 (extract_images_from_markdown content))
  | _, _ => None
  end.

(** Python's order on strings: [a < b] when [b] extends [a], or when at
    the first place where the two differ [a] has the smaller code point. *)
Definition str_lt (a b : str) : Prop :=
  (∃ c r, b = a ++ c :: r)
  ∨ (∃ p x y a' b', a = p ++ x :: a' ∧ b = p ++ y :: b'
                    ∧ nat_of_ascii x < nat_of_ascii y).

(** The order of the loop: no name is followed by a greater one. *)
Definition descending (names : list str) : Prop :=
  StronglySorted (λ a b, ¬ str_lt a b) names.

(** What a run of [process_markdown_files] needs in order to complete: the
    output directory can be made, and every document is a file that can
    be read, has an id without a backslash (the id goes into a replacement
    template) and is not in the way of a directory of its name in the
    output. *)
Definition processable (fs : Fs.node) : Prop :=
  is_Some (Fs.mkdir_parents DOCS_BLOGS_DIR fs) ∧
  ∀ name, name ∈ documents fs →
    is_Some (Fs.read_file (BLOGS_DIR ++ [name]) fs)
    ∧ ("\"%char ∉ stem name)
    ∧ ¬ (∃ es, Fs.lookup (DOCS_BLOGS_DIR ++ [name]) fs = Some (Fs.Dir es)).

(** The marker region of the target script: the token, blanks, and a
    bracketed list up to its first closing bracket. *)
Definition marker_text (ws body : str) : str :=
  "postsMetadata:" ++ ws ++ "[" ++ body ++ "]".

Definition marker_parts (ws body : str) : Prop :=
  all_space ws ∧ ("]"%char ∉ body).

(** A marker region starts at the head of [u]. *)
Definition marker_at_head (u : str) : Prop :=
  ∃ ws body r, marker_parts ws body ∧ u = marker_text ws body ++ r.

(** The reset step of [organize_assets]: the destination root removed when
    it exists, and made anew. *)
Definition reset_assets (fs : Fs.node) : option Fs.node :=
  fs ← (if Fs.exists_ DOCS_ASSETS_DIR fs
        then Fs.rmtree DOCS_BLOGS_DIR "assets" fs else Some fs);
  Fs.mkdir_parents DOCS_ASSETS_DIR fs.

(** A name that is one path component. *)
Definition plain_name (n : str) : Prop :=
  n ≠ [] ∧ n ≠ "." ∧ n ≠ ".." ∧ ("/"%char ∉ n).

(** The file system with the listing [L] as its destination asset root. *)
Definition with_assets (L : Fs.listing) (fs : Fs.node) : option Fs.node :=
  Fs.in_dir DOCS_BLOGS_DIR (λ es, Some (Fs.put "assets" (Fs.Dir L) es)) fs.

(** Every name [L1] lists is listed by [L0] or is an [extra] one. *)
Definition names_from (L1 L0 : Fs.listing) (extra : str → Prop) : Prop :=
  ∀ name, is_Some (Fs.find name L1) → is_Some (Fs.find name L0) ∨ extra name.

(** The number of digits a string begins with. *)
Fixpoint leading_digits (s : str) : nat :=
  match s with
  | c :: s' => if isdecimal c then S (leading_digits s') else 0
  | [] => 0
  end.

(** A document whose first non-blank line is a heading marker and nothing
    else. *)
Definition heading_only (content : str) : Prop :=
  ∃ first,
    List.find (λ l, negb (is_blank l)) (strip <$> split "010"%char content)
    = Some first
    ∧ ∀ c, c ∈ first → c = "#"%char.

(** [processable], decided. *)
Definition processableb (fs : Fs.node) : bool :=
  bool_decide (is_Some (Fs.mkdir_parents DOCS_BLOGS_DIR fs))
  && forallb (λ name,
       bool_decide (is_Some (Fs.read_file (BLOGS_DIR ++ [name]) fs))
       && bool_decide ("\"%char ∉ stem name)
       && match Fs.lookup (DOCS_BLOGS_DIR ++ [name]) fs with
          | Some (Fs.Dir _) => false
          | _ => true
          end) (documents fs).

(** *** A small site, for the examples *)

Definition demo_fs : Fs.node :=
  Fs.Dir
    [("blogs" : str, Fs.Dir
        [("230101-a.md" : str, Fs.File ("# A" ++ ["010"%char] ++ "![[x.png]] text"));
         ("230102-b.md" : str, Fs.File "#");
         ("notes.txt" : str, Fs.File "not a post");
         ("assets" : str, Fs.Dir
            [("sub" : str, Fs.Dir [("x.png" : str, Fs.File "PNG")]);
             ("y.png" : str, Fs.File "Y")])]);
     ("docs" : str, Fs.Dir
        [("js" : str, Fs.Dir
            [("blog.js" : str,
              Fs.File ("const blog = { postsMetadata: [ old ], tags: [1] };"
                       ++ " // postsMetadata: [ kept ]"))]);
         ("blogs" : str, Fs.Dir
            [("assets" : str, Fs.Dir
                [("stale" : str, Fs.Dir [("old.png" : str, Fs.File "OLD")])])])])].

Definition demo_posts : list post :=
  [Post "230101-a" "2023-01-01" "A" ["x.png" : str]].

(** A corpus that its directory lists in no particular order. *)
Definition demo_order_fs : Fs.node :=
  Fs.Dir
    [("blogs" : str, Fs.Dir
        [("230102-b.md" : str, Fs.File "# B");
         ("230103-c.md" : str, Fs.File "# C");
         ("notes.txt" : str, Fs.File "not a post");
         ("230101-a.md" : str, Fs.File "# A");
         ("about.md" : str, Fs.File "# About");
         ("230102.md" : str, Fs.File "# Bare")])].

(** A corpus with a document whose id holds a backslash, in an escape
    that a replacement template accepts. *)
Definition demo_escape_fs : Fs.node :=
  Fs.Dir
    [("blogs" : str, Fs.Dir
        [("230101\n.md" : str,
          Fs.File ("# T" ++ ["010"%char] ++ "![[p.png]]"))])].

(** A target script whose first line ends in CR LF. *)
Definition demo_crlf_fs : Fs.node :=
  Fs.Dir
    [("docs" : str, Fs.Dir
        [("js" : str, Fs.Dir
            [("blog.js" : str,
              Fs.File ("a" ++ ["013"%char; "010"%char]
                       ++ "postsMetadata: [ old ]" ++ " b"))])])].

(** ** Further specification-level definitions *)

(** An escape the template parser rejects: a backslash before an ASCII
    letter that is neither an escape of its table nor the [g] of a group
    reference. *)
Definition bad_escape (c : ascii) : bool :=
  isasciiletter c && negb (eqc c "g")
  && match escape_char c with None => true | Some _ => false end.

(** A token list holds the escape of [x]. *)
Definition has_esc (x : ascii) (ts : list token) : bool :=
  existsb (λ t, match t with Esc c => eqc c x | Plain _ => false end) ts.

(** A character [json.dumps] writes as [\u00XX]: a control character
    without a short escape, or a character above the ASCII range. *)
Definition needs_u (c : ascii) : bool :=
  let n := nat_of_ascii c in
  negb ((32 <=? n) && (n <=? 126))
  && negb ((n =? 8) || (n =? 9) || (n =? 10) || (n =? 12) || (n =? 13)).

(** A character [json.dumps] writes as itself. *)
Definition json_plain (c : ascii) : bool :=
  let n := nat_of_ascii c in
  (32 <=? n) && (n <=? 126) && negb (eqc c "034") && negb (eqc c "\").

(** A character that, after a backslash, leaves the pair as it is in a
    replacement template. *)
Definition kept_escaped (e : ascii) : bool :=
  negb (isdecimal e) && negb (isasciiletter e) && negb (eqc e "\").

Definition kept_token (t : token) : Prop :=
  match t with Plain _ => True | Esc e => kept_escaped e = true end.

(** A replacement template that stands for itself: every backslash is
    followed by a character that keeps the pair. *)
Fixpoint literal_template (s : str) : bool :=
  match s with
  | [] => true
  | c :: s' =>
      if eqc c "\"
      then match s' with
           | e :: s'' => kept_escaped e && literal_template s''
           | [] => false
           end
      else literal_template s'
  end.

(** A record whose metadata line is a template that stands for itself:
    no backslash in id, date and title, and image names that
    [json.dumps] writes as they are. *)
Definition safe_record (p : post) : Prop :=
  ("\"%char ∉ post_id p) ∧ ("\"%char ∉ post_date p)
  ∧ ("\"%char ∉ post_title p)
  ∧ Forall (λ image, forallb json_plain image = true) (post_images p).

(** The text up to the first [c], and the text after it. *)
Fixpoint upto (c : ascii) (s : str) : str :=
  match s with
  | [] => []
  | d :: s' => if eqc d c then [] else d :: upto c s'
  end.

Fixpoint after (c : ascii) (s : str) : str :=
  match s with
  | [] => []
  | d :: s' => if eqc d c then s' else after c s'
  end.

(** What a run of [process_markdown_files] needs, and all it needs, to
    complete: the output directory can be made, and every document can be
    read, has a normalization and is not in the way of a directory of its
    name in the output. *)
Definition runnable (fs : Fs.node) : Prop :=
  is_Some (Fs.mkdir_parents DOCS_BLOGS_DIR fs) ∧
  ∀ name, name ∈ documents fs →
    is_Some (Fs.read_file (BLOGS_DIR ++ [name]) fs)
    ∧ is_Some (convert_obsidian_images (content_of fs name) (stem name))
    ∧ ¬ (∃ es, Fs.lookup (DOCS_BLOGS_DIR ++ [name]) fs = Some (Fs.Dir es)).

(** Two paths that part: after a common beginning, they go on with
    different names. *)
Definition parts_from (p r : Fs.path) : Prop :=
  ∃ q a p1 b r1, p = q ++ a :: p1 ∧ r = q ++ b :: r1 ∧ a ≠ b.

(** The content of the first match of an image in the source asset tree. *)
Definition source_data (fs : Fs.node) (image : str) : option str :=
  root ← find_image image fs; Fs.file_data (root ++ [image]) fs.

(** The place of an image in the folder of a record. *)
Definition slot (id image : str) : Fs.path := DOCS_ASSETS_DIR ++ [id; image].

(** The state of the destination root while it is populated from the
    source tree of [fs0]: the corpus is as in [fs0], and the folders hold
    files only, one for each pair of [S] whose image the source tree has,
    with the content the source tree has for it. *)
Definition populated (fs0 : Fs.node) (S : str → str → Prop) (t : Fs.node)
    : Prop :=
  (∀ q, Fs.lookup (BLOGS_DIR ++ q) t = Fs.lookup (BLOGS_DIR ++ q) fs0)
  ∧ (∀ id image x, Fs.lookup (slot id image) t = Some x →
       ∃ data, x = Fs.File data ∧ S id image
               ∧ source_data fs0 image = Some data)
  ∧ (∀ id image, S id image → is_Some (find_image image fs0) →
       ∃ data, source_data fs0 image = Some data
               ∧ Fs.file_data (slot id image) t = Some data).



(** The small site after its metadata has been published once. *)
Definition demo_published_fs : Fs.node :=
  default demo_fs (update_blog_js demo_posts demo_fs).

(** A record with a quote in its title and one with an image name beyond
    ASCII. *)
Definition demo_quoted_posts : list post :=
  [Post "230101-a" "2023-01-01" "It's a title" ["x.png" : str]].

Definition demo_accent_posts : list post :=
  [Post "230101-a" "2023-01-01" "A" ["caf" ++ ["233"%char] ++ ".png"]].

(** A target script without a marker region. *)
Definition demo_plain_fs : Fs.node :=
  Fs.Dir
    [("docs" : str, Fs.Dir
        [("js" : str, Fs.Dir
            [("blog.js" : str, Fs.File "var x = 1;")])])].


(** A site whose one document embeds an image with a name beyond ASCII. *)
Definition demo_accent_fs : Fs.node :=
  Fs.Dir
    [("blogs" : str, Fs.Dir
        [("230101-a.md" : str,
          Fs.File ("# A" ++ ["010"%char] ++ "![[caf" ++ ["233"%char]
                   ++ ".png]]"))]);
     ("docs" : str, Fs.Dir
        [("js" : str, Fs.Dir
            [("blog.js" : str, Fs.File "postsMetadata: []")])])].

(** * Characters and strings *)

Global Arguments eqc : simpl never.

Lemma eqc_true a b : eqc a b = true ↔ a = b.
Proof. unfold eqc. apply Ascii.eqb_eq. Qed.

Lemma eqc_false a b : eqc a b = false ↔ a ≠ b.
Proof. unfold eqc. apply Ascii.eqb_neq. Qed.

Lemma eqc_refl a : eqc a a = true.
Proof. by apply eqc_true. Qed.

Lemma eqc_decide a b : eqc a b = bool_decide (a = b).
Proof.
  case_bool_decide as H.
  - by apply eqc_true.
  - by apply eqc_false.
Qed.

(** A character that does not occur in a literal. *)
Ltac not_in_lit :=
  let H := fresh in
  intros H; cbn [lit list_ascii_of_string] in H;
  repeat (apply elem_of_cons in H as [H|H]; [discriminate H|]);
  by apply elem_of_nil in H.

(** Spell out the literals of the goal. *)
Ltac unlit := cbn [lit list_ascii_of_string app].

Lemma startswith_prefix p s : startswith p s = true ↔ ∃ t, s = p ++ t.
Proof.
  revert s. induction p as [|a p IH]; intros s; simpl.
  - split; eauto.
  - destruct s as [|b s]; simpl.
    + split; [done | intros [t Ht]; discriminate].
    + rewrite andb_true_iff, eqc_true, IH. split.
      * intros [-> [t ->]]. eauto.
      * intros [t Ht]. simplify_eq. eauto.
Qed.

Lemma startswith_app p t : startswith p (p ++ t) = true.
Proof. apply startswith_prefix. eauto. Qed.

(** * The matcher *)

Section ExecLemmas.
Context {R : Type}.
Implicit Types (k : str → list str → option R) (x : R).

Lemma orelse_Some {A} (a b : option A) y :
  orelse a b = Some y ↔ a = Some y ∨ (a = None ∧ b = Some y).
Proof. destruct a; simpl; intuition congruence. Qed.

Lemma orelse_None {A} (a b : option A) :
  orelse a b = None ↔ a = None ∧ b = None.
Proof. destruct a; simpl; intuition congruence. Qed.

Lemma orelse_None_r {A} (a : option A) : orelse a None = a.
Proof. by destruct a. Qed.

(** One unfolding of a repetition. *)
Lemma rep_unfold g cs lo hi s (k : str → option R) :
  rep g cs lo hi s k =
    let stop := match lo with 0 => k s | S _ => None end in
    let more :=
      match s with
      | c :: s' =>
          if cset_mem cs c && room hi
          then rep g cs (pred lo) (pred <$> hi) s' k
          else None
      | [] => None
      end in
    if g then orelse more stop else orelse stop more.
Proof. by destruct s. Qed.

(** Whatever a repetition hands to its continuation is a suffix of the
    input, and what it consumed lies in the set. *)
Lemma rep_inv g cs lo hi s (k : str → option R) x :
  rep g cs lo hi s k = Some x →
  ∃ w s', s = w ++ s' ∧ k s' = Some x ∧
          Forall (λ c, cset_mem cs c = true) w ∧ lo ≤ length w.
Proof.
  revert lo hi. induction s as [|c s IH]; intros lo hi; rewrite rep_unfold; simpl.
  - rewrite orelse_None_r. destruct g; simpl; intros H.
    all: destruct lo; [|done]; exists [], []; split_and!; auto with lia.
  - intros H.
    assert (Hstop :
      match lo with 0 => k (c :: s) | S _ => None end = Some x →
      ∃ w s', c :: s = w ++ s' ∧ k s' = Some x ∧
              Forall (λ c, cset_mem cs c = true) w ∧ lo ≤ length w).
    { destruct lo; [|done]. intros Hk. exists [], (c :: s).
      split_and!; auto with lia. }
    assert (Hmore :
      (if cset_mem cs c && room hi
       then rep g cs (pred lo) (pred <$> hi) s k else None) = Some x →
      ∃ w s', c :: s = w ++ s' ∧ k s' = Some x ∧
              Forall (λ c, cset_mem cs c = true) w ∧ lo ≤ length w).
    { destruct (cset_mem cs c) eqn:Hc; simpl; [|done].
      destruct (room hi); [|done]. intros Hr.
      apply IH in Hr as (w & s' & -> & Hk & Hw & Hlo).
      exists (c :: w), s'. split_and!; auto. simpl. lia. }
    destruct g; apply orelse_Some in H as [H|[_ H]]; auto.
Qed.

Lemma exec_inv r s caps k x :
  exec r s caps k = Some x →
  ∃ w s' caps', s = w ++ s' ∧ k s' caps' = Some x.
Proof.
  revert s caps k. induction r as [|cs|g lo hi cs|r IH|r IH|r1 IH1 r2 IH2];
    intros s caps k; simpl.
  - intros H. by exists [], s, caps.
  - destruct s as [|c s]; [done|]. destruct (cset_mem cs c); [|done].
    intros H. by exists [c], s, caps.
  - intros H. apply rep_inv in H as (w & s' & -> & Hk & _). eauto.
  - intros H. apply orelse_Some in H as [H|[_ H]]; [eauto|].
    by exists [], s, caps.
  - intros H. apply IH in H as (w & s' & caps' & -> & Hk). eauto.
  - intros H. apply IH1 in H as (w1 & s1 & caps1 & -> & H).
    apply IH2 in H as (w2 & s2 & caps2 & -> & H).
    exists (w1 ++ w2), s2, caps2. by rewrite <-app_assoc.
Qed.
End ExecLemmas.

Lemma take_app_length_diff (w s' : str) :
  take (length (w ++ s') - length s') (w ++ s') = w.
Proof.
  rewrite length_app. replace (length w + length s' - length s') with (length w) by lia.
  by rewrite take_app_length.
Qed.

(** A hit splits the input into the text matched and the rest. *)
Lemma match_here_split ma r s h :
  match_here ma r s = Some h → s = whole h ++ rest h.
Proof.
  unfold match_here. intros H.
  apply exec_inv in H as (w & s' & caps & -> & H).
  unfold accept in H. destruct (_ && _); [done|]. simplify_eq. simpl.
  by rewrite take_app_length_diff.
Qed.

Lemma match_here_advance r s h :
  match_here true r s = Some h → whole h ≠ [].
Proof.
  unfold match_here. intros H.
  apply exec_inv in H as (w & s' & caps & -> & H).
  unfold accept in H. simpl in H.
  destruct (length s' =? length (w ++ s')) eqn:E; [done|]. simplify_eq. simpl.
  rewrite take_app_length_diff. intros ->. simpl in E.
  by rewrite Nat.eqb_refl in E.
Qed.

Lemma consuming_whole r ma s h :
  consuming r → match_here ma r s = Some h → whole h ≠ [].
Proof.
  intros Hr H. pose proof (Hr _ _ _ H) as Hlt.
  apply match_here_split in H. intros Hw. rewrite Hw in H. simpl in H.
  subst s. lia.
Qed.

(** * The scanner *)

Lemma scan_fuel r lim s f1 f2 :
  consuming r → length s < f1 → length s < f2 →
  scan f1 lim false r s = scan f2 lim false r s.
Proof.
  intros Hr. revert f2 lim s. induction f1 as [|f1 IH]; intros f2 lim s H1 H2; [lia|].
  destruct f2 as [|f2]; [lia|]. simpl.
  destruct lim as [[|n]|]; [done|..].
  all: destruct (match_here false r s) as [h|] eqn:Hm.
  all: try (pose proof (Hr _ _ _ Hm) as Hlt;
            replace (length (rest h) =? length s) with false
              by (symmetry; apply Nat.eqb_neq; lia);
            f_equal; apply IH; lia).
  all: destruct s as [|c s]; [done|]; f_equal; apply IH; simpl in *; lia.
Qed.

Lemma pieces_limit r s : pieces (Some 0) r s = Skip <$> s.
Proof. unfold pieces. by replace (2 * length s + 2) with (S (2 * length s + 1)) by lia. Qed.

Lemma pieces_nil r lim :
  lim ≠ Some 0 → match_here false r [] = None → pieces lim r [] = [].
Proof.
  intros Hl Hm. unfold pieces. simpl. rewrite Hm. by destruct lim as [[|]|].
Qed.

Lemma pieces_skip r lim c s :
  consuming r → lim ≠ Some 0 → match_here false r (c :: s) = None →
  pieces lim r (c :: s) = Skip c :: pieces lim r s.
Proof.
  intros Hr Hl Hm. unfold pieces.
  replace (2 * length (c :: s) + 2) with (S (2 * length s + 3)) by (simpl; lia).
  simpl scan. rewrite Hm.
  destruct lim as [[|n]|]; [done|..]; f_equal; apply scan_fuel; auto; lia.
Qed.

Lemma pieces_hit r lim s h :
  consuming r → lim ≠ Some 0 → match_here false r s = Some h →
  pieces lim r s = Found h :: pieces (pred <$> lim) r (rest h).
Proof.
  intros Hr Hl Hm. unfold pieces. pose proof (Hr _ _ _ Hm) as Hlt.
  replace (2 * length s + 2) with (S (2 * length s + 1)) by lia.
  simpl scan. rewrite Hm.
  replace (length (rest h) =? length s) with false
    by (symmetry; apply Nat.eqb_neq; lia).
  destruct lim as [[|n]|]; [done|..]; f_equal; apply scan_fuel; auto; lia.
Qed.

(** [pieces] computes the scan relation. *)
Lemma pieces_Scanned r lim s :
  consuming r → Scanned r lim s (pieces lim r s).
Proof.
  intros Hr. remember (length s) as n eqn:Hn. revert lim s Hn.
  induction (lt_wf n) as [n _ IH]. intros lim s ->.
  destruct (decide (lim = Some 0)) as [->|Hl].
  { rewrite pieces_limit. constructor. }
  destruct (match_here false r s) as [h|] eqn:Hm.
  - rewrite (pieces_hit _ _ _ _ Hr Hl Hm). apply scanned_hit; auto.
    eapply IH; [|done]. by eapply Hr.
  - destruct s as [|c s].
    + rewrite pieces_nil by done. by constructor.
    + rewrite pieces_skip by done. apply scanned_skip; auto.
      eapply IH; [|done]. simpl. lia.
Qed.

(** The pieces spell the input. *)
Lemma Scanned_text r lim s ps :
  Scanned r lim s ps → concat (piece_text <$> ps) = s.
Proof.
  induction 1 as [s|lim Hl|lim c s ps Hl Hm _ IH|lim s h ps Hl Hm _ IH]; simpl.
  - induction s as [|c s IH]; simpl; by f_equal.
  - done.
  - f_equal. apply IH.
  - etrans; [|symmetry; by eapply match_here_split]. f_equal. apply IH.
Qed.

(** * Inversion and completeness of the matcher, node by node *)

Section Nodes.
Context {R : Type}.
Implicit Types (k : str → list str → option R) (x : R).

Lemma exec_Seq r1 r2 s caps k :
  exec (Seq r1 r2) s caps k = exec r1 s caps (λ s' caps', exec r2 s' caps' k).
Proof. done. Qed.

Lemma exec_Opt r s caps k :
  exec (Opt r) s caps k = orelse (exec r s caps k) (k s caps).
Proof. done. Qed.

Lemma exec_lits p s caps k :
  exec (lits p) s caps k =
    if startswith p s then k (drop (length p) s) caps else None.
Proof.
  revert s. induction p as [|a p IH]; intros s; [done|].
  destruct p as [|b p].
  - simpl. destruct s as [|c s]; [done|]. simpl.
    rewrite (eqc_decide c a), (eqc_decide a c).
    repeat case_bool_decide; naive_solver.
  - change (lits (a :: b :: p)) with (Seq (One (Chr a)) (lits (b :: p))).
    cbn [exec]. destruct s as [|c s]; [done|]. cbn [startswith cset_mem].
    rewrite (eqc_decide c a), (eqc_decide a c).
    repeat case_bool_decide; naive_solver.
Qed.

Lemma exec_lits_app p s caps k : exec (lits p) (p ++ s) caps k = k s caps.
Proof. by rewrite exec_lits, startswith_app, drop_app_length. Qed.

Lemma exec_lits_Some p s caps k x :
  exec (lits p) s caps k = Some x → ∃ s', s = p ++ s' ∧ k s' caps = Some x.
Proof.
  rewrite exec_lits. destruct (startswith p s) eqn:E; [|done].
  apply startswith_prefix in E as [t ->]. rewrite drop_app_length. eauto.
Qed.

Lemma exec_grp_rep_Some g lo hi cs s caps k x :
  exec (Grp (Rep g lo hi cs)) s caps k = Some x →
  ∃ w s', s = w ++ s' ∧ Forall (λ c, cset_mem cs c = true) w ∧
          lo ≤ length w ∧ k s' (caps ++ [w]) = Some x.
Proof.
  simpl. intros H. apply rep_inv in H as (w & s' & -> & H & Hw & Hlo).
  rewrite take_app_length_diff in H. eauto 10.
Qed.

Lemma exec_rep_Some g lo hi cs s caps k x :
  exec (Rep g lo hi cs) s caps k = Some x →
  ∃ w s', s = w ++ s' ∧ Forall (λ c, cset_mem cs c = true) w ∧
          lo ≤ length w ∧ k s' caps = Some x.
Proof.
  simpl. intros H. apply rep_inv in H as (w & s' & -> & H & Hw & Hlo). eauto 10.
Qed.

(** A lazy repetition hands over at the first place where what follows
    succeeds: no shorter run would have done. *)
Lemma rep_lazy_Some cs s (k : str → option R) x :
  rep false cs 0 None s k = Some x →
  ∃ w s', s = w ++ s' ∧ Forall (λ c, cset_mem cs c = true) w ∧
          k s' = Some x ∧ ∀ j, j < length w → k (drop j s) = None.
Proof.
  induction s as [|c s IH]; rewrite rep_unfold; cbv zeta.
  - rewrite orelse_None_r. intros H. exists [], [].
    split_and!; [done|done|done|]. simpl. lia.
  - intros H. apply orelse_Some in H as [H|[Hno H]].
    + exists [], (c :: s). split_and!; [done|done|done|]. simpl. lia.
    + destruct (cset_mem cs c) eqn:Hc; [|done].
      cbn [andb room pred fmap option_fmap option_map] in H.
      apply IH in H as (w & s' & -> & Hw & Hk & Hmin).
      exists (c :: w), s'. split_and!; [done|by constructor|done|].
      intros [|j] Hj; [done|]. cbn [drop]. apply Hmin. simpl in Hj. lia.
Qed.

Lemma exec_rep_lazy_Some cs s caps k x :
  exec (Rep false 0 None cs) s caps k = Some x →
  ∃ w s', s = w ++ s' ∧ Forall (λ c, cset_mem cs c = true) w ∧
          k s' caps = Some x ∧ ∀ j, j < length w → k (drop j s) caps = None.
Proof. simpl. intros H. by apply rep_lazy_Some in H. Qed.

(** An unbounded repetition finds a split whenever one exists. *)
Lemma rep_complete g cs lo w s (k : str → option R) :
  Forall (λ c, cset_mem cs c = true) w → lo ≤ length w →
  is_Some (k s) → is_Some (rep g cs lo None (w ++ s) k).
Proof.
  intros Hw. revert lo. induction Hw as [|c w Hc Hw IH]; intros lo Hlo Hk.
  - simpl in *. assert (lo = 0) as -> by lia.
    rewrite rep_unfold. simpl.
    destruct g; [|by destruct Hk as [y ->]].
    destruct Hk as [y Hy].
    destruct (match s with [] => None | _ => _ end); [by eexists|].
    rewrite Hy. by eexists.
  - rewrite rep_unfold. cbn [app]. cbv zeta. rewrite Hc. cbn [andb room fmap option_fmap option_map].
    specialize (IH (pred lo)). destruct IH as [y Hy]; [simpl in *; lia|done|].
    rewrite Hy. destruct g; simpl; [by eexists|].
    destruct lo; [|by eexists]. destruct (k (c :: w ++ s)); by eexists.
Qed.

Lemma exec_grp_rep_complete g lo cs w s caps k :
  Forall (λ c, cset_mem cs c = true) w → lo ≤ length w →
  (∀ caps', is_Some (k s caps')) →
  is_Some (exec (Grp (Rep g lo None cs)) (w ++ s) caps k).
Proof. intros Hw Hlo Hk. simpl. apply rep_complete; auto. Qed.

Lemma exec_rep_complete g lo cs w s caps k :
  Forall (λ c, cset_mem cs c = true) w → lo ≤ length w →
  is_Some (k s caps) →
  is_Some (exec (Rep g lo None cs) (w ++ s) caps k).
Proof. intros Hw Hlo Hk. simpl. apply rep_complete; auto. Qed.

(** A greedy unbounded repetition followed by something that cannot
    start inside the set stops at the end of the run. *)
Lemma rep_greedy_run cs lo w s (k : str → option R) :
  Forall (λ c, cset_mem cs c = true) w → lo ≤ length w →
  (∀ c s', cset_mem cs c = true → k (c :: s') = None) →
  match s with c :: _ => cset_mem cs c = false | [] => True end →
  rep true cs lo None (w ++ s) k = k s.
Proof.
  intros Hw. revert lo. induction Hw as [|c w Hc Hw IH]; intros lo Hlo Hk Hs.
  - simpl in *. assert (lo = 0) as -> by lia. rewrite rep_unfold. simpl.
    destruct s as [|c s]; [done|]. by rewrite Hs.
  - rewrite rep_unfold. cbn [app]. cbv zeta. rewrite Hc.
    cbn [andb room fmap option_fmap option_map].
    rewrite IH by (simpl in *; auto with lia).
    destruct (k s) eqn:E; [done|]. simpl. destruct lo; [|done]. by apply Hk.
Qed.
End Nodes.

(** * The final continuation *)

Lemma accept_Some ma w s' caps h :
  accept ma (w ++ s') s' caps = Some h → h = Hit w caps s'.
Proof.
  unfold accept. destruct (_ && _); [done|].
  rewrite take_app_length_diff. congruence.
Qed.

Lemma accept_nonempty ma w s' caps :
  w ≠ [] → accept ma (w ++ s') s' caps = Some (Hit w caps s').
Proof.
  intros Hw. unfold accept.
  replace (length s' =? length (w ++ s')) with false.
  - by rewrite andb_false_r, take_app_length_diff.
  - symmetry. apply Nat.eqb_neq. rewrite length_app.
    destruct w; [done|]. simpl. lia.
Qed.

(** * The embed pattern *)

Lemma not_bracket_mem c :
  cset_mem (NoneOf [IChr "]"]) c = true ↔ c ≠ "]"%char.
Proof.
  simpl. rewrite orb_false_r, negb_true_iff. apply eqc_false.
Qed.

Lemma not_bracket_Forall (w : str) :
  Forall (λ c, cset_mem (NoneOf [IChr "]"]) c = true) w ↔ "]"%char ∉ w.
Proof.
  rewrite Forall_forall. setoid_rewrite not_bracket_mem. split.
  - intros H Hin. by apply (H _ Hin).
  - intros H c Hin ->. done.
Qed.

Lemma obsidian_sound ma s h :
  match_here ma obsidian_pattern s = Some h →
  ∃ name, embed_name name ∧ s = embed_text name ++ rest h ∧
          whole h = embed_text name ∧ groups h = [name].
Proof.
  unfold match_here, obsidian_pattern, seqs. cbn [foldr]. intros H.
  rewrite exec_Seq in H. apply exec_lits_Some in H as (s1 & -> & H).
  rewrite exec_Seq in H. apply exec_grp_rep_Some in H as (w & s2 & -> & Hw & Hlen & H).
  rewrite exec_Seq in H. apply exec_lits_Some in H as (s3 & -> & H).
  cbn [exec app] in H.
  replace ("![[" ++ w ++ "]]" ++ s3) with (embed_text w ++ s3) in H
    by (unfold embed_text; by rewrite <-!app_assoc).
  apply accept_Some in H as ->. cbn [whole groups rest].
  exists w. split_and!; try done.
  - split; [|by apply not_bracket_Forall]. intros ->. simpl in Hlen. lia.
  - unfold embed_text. by rewrite <-!app_assoc.
Qed.

Lemma obsidian_complete ma name r :
  embed_name name →
  match_here ma obsidian_pattern (embed_text name ++ r)
  = Some (Hit (embed_text name) [name] r).
Proof.
  intros [Hne Hnb].
  assert (Hk : accept ma (embed_text name ++ r) r [name]
               = Some (Hit (embed_text name) [name] r)).
  { apply accept_nonempty. by destruct name. }
  unfold match_here. revert Hk.
  generalize (accept ma (embed_text name ++ r)). intros k Hk.
  unfold obsidian_pattern, seqs, embed_text. cbn [foldr].
  rewrite <-!app_assoc, exec_Seq, exec_lits_app, exec_Seq. cbn [exec].
  rewrite rep_greedy_run.
  - by rewrite take_app_length_diff, exec_lits_app.
  - by apply not_bracket_Forall.
  - destruct name; [done|]. simpl. lia.
  - intros c s' Hc. rewrite exec_lits. simpl.
    apply not_bracket_mem in Hc.
    rewrite eqc_decide. by case_bool_decide; simplify_eq.
  - done.
Qed.

Lemma embed_text_inj n1 r1 n2 r2 :
  embed_name n1 → embed_name n2 →
  embed_text n1 ++ r1 = embed_text n2 ++ r2 → n1 = n2 ∧ r1 = r2.
Proof.
  intros H1 H2 E.
  pose proof (obsidian_complete false n1 r1 H1) as E1.
  pose proof (obsidian_complete false n2 r2 H2) as E2.
  rewrite E in E1. rewrite E1 in E2. by simplify_eq.
Qed.

Lemma obsidian_consuming : consuming obsidian_pattern.
Proof.
  intros ma s h H. apply obsidian_sound in H as (name & _ & -> & _).
  rewrite length_app. unfold embed_text. rewrite !length_app. simpl. lia.
Qed.

(** A position where no embed occurs is one the pattern rejects. *)
Lemma obsidian_None ma s :
  match_here ma obsidian_pattern s = None ↔
  ¬ ∃ name r, embed_name name ∧ s = embed_text name ++ r.
Proof.
  split.
  - intros H (name & r & Hn & ->). by rewrite obsidian_complete in H.
  - intros H. destruct (match_here _ _ _) as [h|] eqn:E; [|done].
    apply obsidian_sound in E as (name & ? & ? & _). destruct H; eauto.
Qed.

(** * Dates *)

Global Arguments isdecimal : simpl never.
Global Arguments isspace : simpl never.

Lemma rep_exhausted {R} g cs s (k : str → option R) :
  rep g cs 0 (Some 0) s k = k s.
Proof.
  rewrite rep_unfold. cbv zeta. cbn [room].
  destruct s as [|c s]; rewrite ?andb_false_r; destruct g; simpl;
    by rewrite ?orelse_None_r.
Qed.

Lemma rep_must_take {R} g cs lo hi s (k : str → option R) :
  rep g cs (S lo) hi s k =
    match s with
    | c :: s' =>
        if cset_mem cs c && room hi then rep g cs lo (pred <$> hi) s' k else None
    | [] => None
    end.
Proof.
  rewrite rep_unfold. cbv zeta. cbn [pred].
  destruct g; simpl; by rewrite ?orelse_None_r.
Qed.

(** [(cs{2})] takes exactly two characters of the set. *)
Lemma exec_grp_two {R} g cs s caps (k : str → list str → option R) :
  exec (Grp (Rep g 2 (Some 2) cs)) s caps k =
    match s with
    | a :: b :: s' =>
        if cset_mem cs a && cset_mem cs b then k s' (caps ++ [[a; b]]) else None
    | _ => None
    end.
Proof.
  cbn [exec]. rewrite rep_must_take.
  destruct s as [|a s]; [done|].
  cbn [room pred fmap option_fmap option_map]. rewrite andb_true_r.
  destruct (cset_mem cs a); cbn [andb]; [|by destruct s as [|? ?]].
  rewrite rep_must_take.
  destruct s as [|b s]; [done|].
  cbn [room pred fmap option_fmap option_map]. rewrite andb_true_r.
  destruct (cset_mem cs b); [|done].
  rewrite rep_exhausted.
  replace (length (a :: b :: s) - length s) with 2 by (simpl; lia).
  done.
Qed.

Lemma parse_date_date_of_stem stem :
  parse_date_from_filename stem = date_of_stem stem.
Proof.
  unfold parse_date_from_filename, re_match, match_here, date_pattern, seqs.
  cbn [foldr]. rewrite exec_Seq, exec_grp_two.
  destruct stem as [|d1 [|d2 stem]]; [done..|].
  change (cset_mem (Cat Digit)) with isdecimal.
  rewrite exec_Seq, exec_grp_two.
  destruct stem as [|d3 [|d4 stem]]; [simpl; by repeat case_match..|].
  rewrite exec_Seq, exec_grp_two.
  destruct stem as [|d5 [|d6 rest]]; [simpl; by repeat case_match..|].
  cbn [exec date_of_stem forallb app].
  change (cset_mem (Cat Digit)) with isdecimal.
  destruct (isdecimal d1), (isdecimal d2), (isdecimal d3), (isdecimal d4),
    (isdecimal d5), (isdecimal d6); done.
Qed.

(** * The standard-link pattern *)

Lemma dot_Forall (w : str) :
  Forall (λ c, cset_mem Dot c = true) w ↔ "010"%char ∉ w.
Proof.
  rewrite Forall_forall. split.
  - intros H Hin. specialize (H _ Hin). by vm_compute in H.
  - intros H c Hin. simpl. rewrite negb_true_iff. apply eqc_false.
    by intros ->.
Qed.

Lemma not_paren_mem c :
  cset_mem (NoneOf [IChr ")"]) c = true ↔ c ≠ ")"%char.
Proof. simpl. rewrite orb_false_r, negb_true_iff. apply eqc_false. Qed.

Lemma not_paren_Forall (w : str) :
  Forall (λ c, cset_mem (NoneOf [IChr ")"]) c = true) w ↔ ")"%char ∉ w.
Proof.
  rewrite Forall_forall. setoid_rewrite not_paren_mem. split.
  - intros H Hin. by apply (H _ Hin).
  - intros H c Hin ->. done.
Qed.

(** The tail of the pattern after the optional [assets/]: the target up to
    the closing parenthesis. *)
Lemma target_tail {R} name r caps (k : str → list str → option R) :
  name ≠ [] → (")"%char ∉ name) →
  exec (Seq (Grp (Rep true 1 None (NoneOf [IChr ")"]))) (Seq (lits ")") Eps))
       (name ++ ")" ++ r) caps k
  = k r (caps ++ [name]).
Proof.
  intros Hne Hnp. rewrite exec_Seq. cbn [exec]. rewrite rep_greedy_run.
  - by rewrite take_app_length_diff, exec_lits_app.
  - by apply not_paren_Forall.
  - destruct name; [done|]. simpl. lia.
  - intros c s' Hc. rewrite exec_lits. cbn [lit list_ascii_of_string startswith].
    apply not_paren_mem in Hc. rewrite eqc_decide.
    by case_bool_decide; simplify_eq.
  - cbn. by rewrite eqc_refl.
Qed.

Lemma target_tail_Some {R} s caps (k : str → list str → option R) x :
  exec (Seq (Grp (Rep true 1 None (NoneOf [IChr ")"]))) (Seq (lits ")") Eps))
       s caps k = Some x →
  ∃ name r, s = name ++ ")" ++ r ∧ name ≠ [] ∧ (")"%char ∉ name) ∧
            k r (caps ++ [name]) = Some x.
Proof.
  rewrite exec_Seq. intros H.
  apply exec_grp_rep_Some in H as (w & s2 & -> & Hw & Hlen & H).
  rewrite exec_Seq in H. apply exec_lits_Some in H as (s3 & -> & H).
  exists w, s3. split_and!; auto.
  - intros ->. simpl in Hlen. lia.
  - by apply not_paren_Forall.
Qed.

Lemma strip_assets_with name :
  name ≠ [] → strip_assets ("assets/" ++ name) = name.
Proof.
  intros Hne. unfold strip_assets.
  rewrite startswith_app. rewrite length_app.
  replace (7 <? length ("assets/" : str) + length name) with true.
  - done.
  - symmetry. apply Nat.ltb_lt. destruct name; [done|]. simpl. lia.
Qed.

Lemma strip_assets_without target :
  (∀ n, n ≠ [] → target ≠ "assets/" ++ n) → strip_assets target = target.
Proof.
  intros H. unfold strip_assets.
  destruct (startswith "assets/" target) eqn:E; [|done].
  apply startswith_prefix in E as [n ->].
  destruct n as [|c n]; [done|]. by destruct (H (c :: n)).
Qed.

Lemma is_Some_orelse_r {A} (a b : option A) : is_Some b → is_Some (orelse a b).
Proof. intros [y ->]. destruct a; by eexists. Qed.

(** A hit of the standard pattern is a link, and the lazy [.*?] gave it
    the shortest alternative text a link at that place can have. *)
Lemma standard_sound_shortest ma s h :
  match_here ma standard_pattern s = Some h →
  ∃ alt target, link_parts alt target ∧ s = link_text alt target ++ rest h ∧
                whole h = link_text alt target ∧
                groups h = [strip_assets target] ∧
                shortest_alt s alt.
Proof.
  unfold match_here, standard_pattern, seqs. cbn [foldr]. intros H.
  rewrite exec_Seq in H. apply exec_lits_Some in H as (s1 & -> & H).
  rewrite exec_Seq in H.
  apply exec_rep_lazy_Some in H as (alt & s2 & -> & Halt & H & Hmin).
  assert (Hshort : shortest_alt ("![" ++ alt ++ s2) alt).
  { intros alt' target' r' (Ha' & Hne' & Hnp') Heq.
    destruct (decide (length alt ≤ length alt')) as [|Hlt]; [done|]. exfalso.
    specialize (Hmin (length alt')). rewrite Heq in Hmin.
    assert (Hs : alt ++ s2 = alt' ++ "](" ++ target' ++ ")" ++ r').
    { unfold link_text in Heq. rewrite <-!app_assoc in Heq.
      by apply (app_inv_head "![") in Heq. }
    rewrite Hs, drop_app_length in Hmin.
    rewrite exec_Seq, exec_lits_app, exec_Seq, exec_Opt in Hmin.
    cbv beta in Hmin. specialize (Hmin ltac:(lia)).
    apply orelse_None in Hmin as [_ Hmin].
    rewrite target_tail in Hmin by done.
    by rewrite accept_nonempty in Hmin. }
  clear Hmin.
  rewrite exec_Seq in H. apply exec_lits_Some in H as (s3 & -> & H).
  rewrite exec_Seq, exec_Opt in H. cbv beta in H.
  apply dot_Forall in Halt.
  assert (∀ target r, target ≠ [] → (")"%char ∉ target) →
            "![" ++ alt ++ "](" ++ target ++ ")" ++ r
            = link_text alt target ++ r) as Hshape.
  { intros. unfold link_text. by rewrite <-!app_assoc. }
  apply orelse_Some in H as [H|[Hno H]].
  - apply exec_lits_Some in H as (s4 & -> & H).
    apply target_tail_Some in H as (name & r & -> & Hne & Hnp & H).
    assert (Ht : "assets/" ++ name ≠ []) by done.
    assert (Hp : ")"%char ∉ ("assets/" ++ name : str)).
    { rewrite elem_of_app. intros [Hin|Hin]; [|done].
      revert Hin. not_in_lit. }
    replace ("![" ++ alt ++ "](" ++ "assets/" ++ name ++ ")" ++ r)
      with (link_text alt ("assets/" ++ name) ++ r) in H
      by (unfold link_text; by rewrite <-!app_assoc).
    apply accept_Some in H as ->. cbn [whole groups rest].
    exists alt, ("assets/" ++ name). rewrite strip_assets_with by done.
    split_and!; [done| |done..]. unfold link_text. by rewrite <-!app_assoc.
  - apply target_tail_Some in H as (name & r & -> & Hne & Hnp & H).
    rewrite Hshape in H by done.
    apply accept_Some in H as ->. cbn [whole groups rest].
    exists alt, name. rewrite strip_assets_without.
    + by split_and!; [|rewrite Hshape|..].
    + intros n Hn ->. rewrite <-app_assoc, exec_lits_app in Hno.
      rewrite target_tail in Hno; [|done|].
      * cbn [app] in Hno. unfold accept in Hno.
        destruct (_ && _) eqn:E; [|done].
        apply andb_true_iff in E as [_ E]. apply Nat.eqb_eq in E.
        rewrite !length_app in E. simpl in E. lia.
      * rewrite elem_of_app in Hnp. tauto.
Qed.

Lemma standard_sound ma s h :
  match_here ma standard_pattern s = Some h →
  ∃ alt target, link_parts alt target ∧ s = link_text alt target ++ rest h ∧
                whole h = link_text alt target ∧
                groups h = [strip_assets target].
Proof.
  intros H. apply standard_sound_shortest in H
    as (alt & target & H1 & H2 & H3 & H4 & _). eauto 10.
Qed.

Lemma standard_complete ma alt target r :
  link_parts alt target →
  is_Some (match_here ma standard_pattern (link_text alt target ++ r)).
Proof.
  intros (Halt & Hne & Hnp).
  assert (Hk : ∀ caps, is_Some (accept ma (link_text alt target ++ r) r caps)).
  { intros caps. rewrite accept_nonempty; [by eexists|]. done. }
  unfold match_here. revert Hk.
  generalize (accept ma (link_text alt target ++ r)). intros k Hk.
  unfold standard_pattern, seqs, link_text. cbn [foldr].
  rewrite <-!app_assoc, exec_Seq, exec_lits_app, exec_Seq.
  apply exec_rep_complete; [by apply dot_Forall|lia|].
  rewrite exec_Seq, exec_lits_app, exec_Seq, exec_Opt.
  apply is_Some_orelse_r. by rewrite target_tail.
Qed.

Lemma standard_consuming : consuming standard_pattern.
Proof.
  intros ma s h H. apply standard_sound in H as (alt & target & _ & -> & _).
  rewrite length_app. unfold link_text. rewrite !length_app. simpl. lia.
Qed.

Lemma standard_None ma s :
  match_here ma standard_pattern s = None →
  ¬ ∃ alt target r, link_parts alt target ∧ s = link_text alt target ++ r.
Proof.
  intros H (alt & target & r & Hl & ->).
  destruct (standard_complete ma alt target r Hl) as [h Hh]. congruence.
Qed.

(** * Occurrences reported by a scan *)

Section Occurrences.
Variable r : regex.
Hypothesis Hr : consuming r.

Lemma consuming_nil ma : match_here ma r [] = None.
Proof.
  destruct (match_here ma r []) as [h|] eqn:E; [|done].
  apply Hr in E. simpl in E. lia.
Qed.

Lemma occurrences_names from ps :
  name <$> occurrences from ps = group1 <$> hits ps.
Proof.
  revert from. induction ps as [|[c|h] ps IH]; intros from; simpl; [done|..].
  - apply IH.
  - f_equal. apply IH.
Qed.

Lemma laid_out_mono s from from' os :
  from' ≤ from → laid_out s from os → laid_out s from' os.
Proof. destruct os as [|o os]; simpl; [done|]. intuition lia. Qed.

Lemma occurrences_laid_out pre s ps :
  Scanned r None s ps →
  laid_out (pre ++ s) (length pre) (occurrences (length pre) ps).
Proof.
  intros H. revert pre. remember None as lim eqn:Hlim.
  induction H as [s|lim Hl|lim c s ps Hl Hm _ IH|lim s h ps Hl Hm _ IH];
    intros pre; try discriminate; subst lim; try done.
  - simpl. specialize (IH eq_refl (pre ++ [c])).
    rewrite <-app_assoc, length_app in IH. simpl in IH.
    rewrite Nat.add_1_r in IH. eapply laid_out_mono; [|done]. lia.
  - simpl. split_and!; [done|by eapply consuming_whole|..].
    + rewrite drop_app_length. rewrite (match_here_split _ _ _ _ Hm).
      by rewrite take_app_length.
    + specialize (IH eq_refl (pre ++ whole h)).
      rewrite <-app_assoc, length_app in IH.
      by rewrite <-(match_here_split _ _ _ _ Hm) in IH.
Qed.

(** Every reported occurrence is a hit of the pattern at its position. *)
Lemma occurrences_hits pre s ps :
  Scanned r None s ps →
  Forall (λ o, ∃ h, match_here false r (drop (pos o) (pre ++ s)) = Some h ∧
                    text o = whole h ∧ name o = group1 h)
         (occurrences (length pre) ps).
Proof.
  intros H. revert pre. remember None as lim eqn:Hlim.
  induction H as [s|lim Hl|lim c s ps Hl Hm _ IH|lim s h ps Hl Hm _ IH];
    intros pre; try discriminate; subst lim; try done.
  - simpl. specialize (IH eq_refl (pre ++ [c])).
    rewrite <-app_assoc, length_app in IH. simpl in IH.
    by rewrite Nat.add_1_r in IH.
  - simpl. constructor.
    + simpl. rewrite drop_app_length. eauto.
    + specialize (IH eq_refl (pre ++ whole h)).
      rewrite <-app_assoc, length_app in IH.
      by rewrite <-(match_here_split _ _ _ _ Hm) in IH.
Qed.

(** Every position at which the pattern matches lies inside a reported
    occurrence: the scan misses nothing. *)
Lemma occurrences_cover pre s ps i :
  Scanned r None s ps → length pre ≤ i →
  is_Some (match_here false r (drop i (pre ++ s))) →
  covered (occurrences (length pre) ps) i.
Proof.
  intros H. revert pre. remember None as lim eqn:Hlim.
  induction H as [s|lim Hl|lim c s ps Hl Hm _ IH|lim s h ps Hl Hm _ IH];
    intros pre Hi Hs; try discriminate; subst lim; try done.
  - rewrite drop_ge in Hs by (rewrite length_app; simpl; lia).
    rewrite consuming_nil in Hs. by destruct Hs.
  - destruct (decide (i = length pre)) as [->|Hne].
    + rewrite drop_app_length, Hm in Hs. by destruct Hs.
    + simpl. specialize (IH eq_refl (pre ++ [c])).
      rewrite <-app_assoc, length_app in IH. simpl in IH.
      rewrite Nat.add_1_r in IH. apply IH; [lia|done].
  - destruct (decide (i < length pre + length (whole h))) as [Hlt|Hge].
    + exists (Occ (length pre) (whole h) (group1 h)). simpl.
      split; [left|lia].
    + specialize (IH eq_refl (pre ++ whole h)).
      rewrite <-app_assoc, length_app in IH.
      rewrite <-(match_here_split _ _ _ _ Hm) in IH.
      destruct IH as (o & Ho & Hpos); [lia|done|].
      exists o. split; [by right|done].
Qed.
End Occurrences.

(** * Replacement templates *)

Lemma tokenize_plain (s t : str) :
  "\"%char ∉ s →
  tokenize (s ++ t) = (λ ts, (Plain <$> s) ++ ts) <$> tokenize t.
Proof.
  induction s as [|c s IH]; intros Hs.
  - simpl. by destruct (tokenize t).
  - apply not_elem_of_cons in Hs as [Hc Hs]. cbn [app tokenize].
    rewrite eqc_decide, bool_decide_false by done.
    rewrite IH by done. by destruct (tokenize t).
Qed.

Lemma parse_tokens_plain n fuel (s : str) ts :
  parse_tokens (length s + fuel) n ((Plain <$> s) ++ ts)
  = (λ ps, ((λ c, TLit [c]) <$> s) ++ ps) <$> parse_tokens fuel n ts.
Proof.
  induction s as [|c s IH].
  - simpl. by destruct (parse_tokens fuel n ts).
  - cbn [length Nat.add fmap list_fmap app parse_tokens parse_step].
    cbn [mbind option_bind]. rewrite IH.
    by destruct (parse_tokens fuel n ts).
Qed.

Lemma concat_singletons (s : str) : concat ((λ c, [c]) <$> s) = s.
Proof. induction s as [|c s IH]; simpl; by f_equal. Qed.

(** The template of [convert_obsidian_images] for an id without a
    backslash: the id is copied. *)
Lemma convert_template post_id :
  "\"%char ∉ post_id →
  parse_template 1 ("![](assets/" ++ post_id ++ "/\1)")
  = Some (((λ c, TLit [c]) <$> ("![](assets/" ++ post_id ++ "/"))
          ++ [TRef 1; TLit ")"]).
Proof.
  intros Hid. unfold parse_template.
  replace ("![](assets/" ++ post_id ++ "/\1)")
    with (("![](assets/" ++ post_id ++ "/") ++ "\1)")
    by (by rewrite <-!app_assoc).
  rewrite tokenize_plain.
  - assert (tokenize "\1)" = Some [Esc "1"; Plain ")"]) as -> by (by vm_compute).
    cbn [fmap option_fmap option_map mbind option_bind].
    rewrite length_app, length_fmap, parse_tokens_plain.
    by assert (parse_tokens (length [Esc "1"; Plain ")"]) 1 [Esc "1"; Plain ")"]
               = Some [TRef 1; TLit ")"]) as -> by (by vm_compute).
  - rewrite !elem_of_app. intros [H|[H|H]]; [|done|].
    + revert H. not_in_lit.
    + revert H. not_in_lit.
Qed.

Lemma expand_convert_template post_id h :
  expand (((λ c, TLit [c]) <$> ("![](assets/" ++ post_id ++ "/"))
          ++ [TRef 1; TLit ")"]) h
  = asset_link post_id (group1 h).
Proof.
  unfold expand, asset_link. rewrite fmap_app, concat_app, <-list_fmap_compose.
  change (expand_part h ∘ (λ c, TLit [c])) with (λ c : ascii, [c]).
  rewrite concat_singletons. simpl. by rewrite <-!app_assoc.
Qed.

(** * Normalization *)

Lemma convert_pieces markdown post_id :
  "\"%char ∉ post_id →
  convert_obsidian_images markdown post_id
  = Some (concat (rewritten post_id ∘ segment_of
                    <$> pieces None obsidian_pattern markdown)).
Proof.
  intros Hid. unfold convert_obsidian_images, sub.
  change (ngroups obsidian_pattern) with 1.
  rewrite convert_template by done. cbn [mbind option_bind limit_of].
  do 2 f_equal. apply list_fmap_ext. intros _ [c|h] _; [done|].
  apply expand_convert_template.
Qed.

Lemma pieces_segments markdown :
  let segs := segment_of <$> pieces None obsidian_pattern markdown in
  markdown = concat (source <$> segs)
  ∧ Forall (λ g, match g with Embed n => embed_name n | Text _ => True end) segs
  ∧ no_embed_skipped segs.
Proof.
  pose proof (pieces_Scanned obsidian_pattern None markdown obsidian_consuming) as Hs.
  cbv zeta. revert Hs. generalize (pieces None obsidian_pattern markdown).
  intros ps Hs. remember None as lim eqn:Hlim.
  induction Hs as [s|lim Hl|lim c s ps Hl Hm _ IH|lim s h ps Hl Hm _ IH];
    try discriminate; subst lim.
  - done.
  - destruct (IH eq_refl) as (IH1 & IH2 & IH3). cbn. split_and!; auto.
    + by f_equal.
    + rewrite <-IH1. intros (n & r & Hn & E). by rewrite E, obsidian_complete in Hm.
  - destruct (IH eq_refl) as (IH1 & IH2 & IH3).
    pose proof (obsidian_sound _ _ _ Hm) as (n & Hn & Hsplit & Hw & Hg).
    assert (group1 h = n) as Hg1 by (unfold group1; by rewrite Hg).
    cbn. rewrite Hg1. split_and!; auto. by rewrite <-IH1.
Qed.

Lemma pieces_all_skip r s :
  consuming r → (∀ j, match_here false r (drop j s) = None) →
  pieces None r s = Skip <$> s.
Proof.
  intros Hr. induction s as [|c s IH]; intros H.
  - apply pieces_nil; [done|]. apply (H 0).
  - rewrite pieces_skip; [|done..|apply (H 0)].
    simpl. f_equal. apply IH. intros j. apply (H (S j)).
Qed.

(** On a text in which no embed occurs normalization changes nothing. *)
Lemma convert_no_embed markdown post_id :
  "\"%char ∉ post_id →
  (∀ j, ¬ embed_at_head (drop j markdown)) →
  convert_obsidian_images markdown post_id = Some markdown.
Proof.
  intros Hid H. rewrite convert_pieces by done.
  rewrite pieces_all_skip; [|apply obsidian_consuming|].
  - f_equal. rewrite <-list_fmap_compose.
    induction markdown as [|c s IH]; [done|]. simpl. f_equal. apply IH.
    intros j. apply (H (S j)).
  - intros j. apply obsidian_None. intros (n & r & Hn & E). apply (H j).
    by exists n, r.
Qed.

(** * Embeds in the output of normalization *)

Lemma embed_at_head_closes u :
  embed_at_head u ↔ ∃ u', u = "![[" ++ u' ∧ closes false u' = true.
Proof.
  assert (Hc : ∀ seen n r, "]"%char ∉ n → (seen = true ∨ n ≠ []) →
                closes seen (n ++ "]]" ++ r) = true).
  { intros seen n. revert seen. induction n as [|c n IH]; intros seen r Hn Hs.
    - unlit. cbn [closes startswith]. rewrite !eqc_refl.
      by destruct Hs as [->|?].
    - apply not_elem_of_cons in Hn as [Hc Hn]. cbn [app closes].
      rewrite eqc_decide, bool_decide_false by done. apply IH; auto. }
  assert (Hd : ∀ seen u', closes seen u' = true →
                ∃ n r, u' = n ++ "]]" ++ r ∧ ("]"%char ∉ n) ∧ (seen = true ∨ n ≠ [])).
  { intros seen u'. revert seen. induction u' as [|c u' IH]; intros seen; [done|].
    cbn [closes]. rewrite eqc_decide. case_bool_decide as Hb.
    - subst c. intros [-> Hs]%andb_true_iff.
      apply startswith_prefix in Hs as [r ->].
      exists [], r. split_and!; auto. apply not_elem_of_nil.
    - intros (n & r & -> & Hn & _)%IH. exists (c :: n), r.
      split_and!; auto. by apply not_elem_of_cons. }
  split.
  - intros (n & r & [Hne Hn] & ->). exists (n ++ "]]" ++ r). split.
    + unfold embed_text. by rewrite <-!app_assoc.
    + apply Hc; auto.
  - intros (u' & -> & (n & r & -> & Hn & [?|Hne])%Hd); [done|].
    exists n, r. split; [done|]. unfold embed_text. by rewrite <-!app_assoc.
Qed.

(** An embed that starts before a rewritten link ends before it: the
    link's [![](] cannot continue or close it. *)
Lemma closes_before_link seen x u :
  closes seen (x ++ "![](" ++ u) = true →
  ∃ x1 x2, x = x1 ++ "]]" ++ x2 ∧ closes seen (x1 ++ "]]") = true.
Proof.
  revert seen. induction x as [|c x IH]; intros seen.
  - cbn. by rewrite andb_false_r.
  - cbn [app closes]. rewrite eqc_decide. case_bool_decide as Hc.
    + subst c. intros [-> Hs]%andb_true_iff.
      destruct x as [|d x]; [done|]. cbn in Hs.
      apply andb_true_iff in Hs as [Hd _]. apply eqc_true in Hd as <-.
      exists [], x. split; [done|]. by cbn.
    + intros (x1 & x2 & -> & Hx)%IH. exists (c :: x1), x2. split; [done|].
      cbn [app closes]. by rewrite eqc_decide, bool_decide_false.
Qed.

Lemma closes_app seen x1 v :
  closes seen (x1 ++ "]]") = true → closes seen (x1 ++ "]]" ++ v) = true.
Proof.
  revert seen. induction x1 as [|c x1 IH]; intros seen.
  - cbn. by rewrite !andb_true_r.
  - cbn [app closes]. destruct (eqc c "]").
    + intros [-> Hs]%andb_true_iff. cbn [andb].
      apply startswith_prefix in Hs as [t Ht]. apply startswith_prefix.
      exists (t ++ v). rewrite (app_assoc x1), Ht. by rewrite <-!app_assoc.
    + apply IH.
Qed.

Lemma embed_before_link x u v :
  x ≠ [] → embed_at_head (x ++ "![](" ++ u) → embed_at_head (x ++ v).
Proof.
  intros Hx (u' & E & Hc)%embed_at_head_closes.
  apply embed_at_head_closes.
  destruct x as [|a [|b [|c x]]]; [done|..]; simplify_eq/=.
  apply closes_before_link in Hc as (x1 & x2 & -> & Hc).
  exists (x1 ++ "]]" ++ x2 ++ v). split.
  - by rewrite <-!app_assoc.
  - by apply closes_app.
Qed.

Lemma asset_link_shape post_id n :
  asset_link post_id n = "![](" ++ ("assets/" ++ post_id ++ "/" ++ n ++ ")").
Proof. done. Qed.

(** A copied character that starts no embed in the source starts none in
    the output. *)
Lemma skip_preserved post_id x s ps :
  Scanned obsidian_pattern None s ps → x ≠ [] →
  ¬ embed_at_head (x ++ s) → ¬ embed_at_head (x ++ converted post_id ps).
Proof.
  intros Hs. revert x. remember None as lim eqn:Hlim.
  induction Hs as [s|lim Hl|lim c s ps Hl Hm _ IH|lim s h ps Hl Hm _ IH];
    intros x Hx Hno; try discriminate; subst lim.
  - done.
  - unfold converted. cbn [fmap list_fmap concat compose segment_of rewritten].
    cbn [app]. rewrite (cons_middle c x), app_assoc.
    apply (IH eq_refl); [by destruct x|]. by rewrite <-app_assoc.
  - unfold converted. cbn [fmap list_fmap concat compose segment_of rewritten].
    rewrite asset_link_shape, <-app_assoc. intros He. apply Hno.
    by eapply embed_before_link.
Qed.

Lemma startswith3 (a b c : ascii) (p s t : str) :
  startswith p (a :: b :: c :: s) = true → length p ≤ 3 →
  startswith p (a :: b :: c :: t) = true.
Proof.
  destruct p as [|p1 [|p2 [|p3 [|p4 p]]]]; simpl; try done; try lia.
Qed.

Lemma has_open_app_l a c b :
  c ≠ "["%char → has_open (a ++ c :: b) = has_open a || has_open (c :: b).
Proof.
  intros Hc. induction a as [|x a IH]; [done|].
  cbn [app has_open]. rewrite IH, orb_assoc. f_equal. f_equal.
  destruct a as [|y [|z a]]; unlit; cbn [startswith]; rewrite ?andb_true_r, ?andb_false_r; try done.
  - rewrite (eqc_decide _ c), bool_decide_false by done.
    by rewrite !andb_false_r.
  - rewrite (eqc_decide _ c), bool_decide_false by done.
    by rewrite !andb_false_r.
Qed.

Lemma has_open_app_r a c b :
  c ≠ "!"%char → c ≠ "["%char →
  has_open ((a ++ [c]) ++ b) = has_open (a ++ [c]) || has_open b.
Proof.
  intros Hc1 Hc2. induction a as [|x a IH].
  - cbn [app has_open]. unlit. cbn [startswith].
    rewrite (eqc_decide _ c), bool_decide_false by done.
    by destruct b.
  - cbn [app has_open]. rewrite IH, orb_assoc. f_equal. f_equal.
    destruct a as [|y [|z a]]; unlit; cbn [startswith];
      rewrite ?andb_true_r, ?andb_false_r; try done.
    all: rewrite (eqc_decide _ c), bool_decide_false by done.
    all: rewrite !andb_false_r; by destruct b.
Qed.

Lemma has_open_asset_link post_id n :
  has_open post_id = false → has_open n = false →
  has_open ("![](assets/" ++ post_id ++ "/" ++ n) = false.
Proof.
  intros Hid Hn.
  assert (H1 : has_open ("![](assets/" ++ post_id ++ "/" ++ n)
               = has_open ("![](assets/" : str) || has_open (post_id ++ "/" ++ n)).
  { exact (has_open_app_r "![](assets" "/"%char (post_id ++ "/" ++ n)
             ltac:(done) ltac:(done)). }
  assert (H2 : has_open (post_id ++ "/" ++ n)
               = has_open post_id || has_open ("/" ++ n)).
  { exact (has_open_app_l post_id "/"%char n ltac:(done)). }
  assert (H3 : has_open ("/" ++ n) = has_open ("/" : str) || has_open n).
  { exact (has_open_app_r [] "/"%char n ltac:(done) ltac:(done)). }
  rewrite H1, H2, H3, Hid, Hn. done.
Qed.

Lemma has_open_infix a v w :
  startswith "![[" v = true → has_open (a ++ v ++ w) = true.
Proof.
  intros Hv. induction a as [|x a IH].
  - apply startswith_prefix in Hv as [t ->]. by unlit.
  - cbn [app has_open]. by rewrite IH, orb_true_r.
Qed.

(** No embed starts inside a rewritten link, unless the id or the name
    brings an opening [![[] with it. *)
Lemma asset_link_no_embed post_id n a v u :
  has_open post_id = false → has_open n = false →
  asset_link post_id n = a ++ v → v ≠ [] → ¬ embed_at_head (v ++ u).
Proof.
  intros Hid Hn E Hv (u' & Hu & _)%embed_at_head_closes.
  destruct (exists_last Hv) as (v' & c & ->).
  assert (c = ")"%char ∧ a ++ v' = "![](assets/" ++ post_id ++ "/" ++ n) as [-> Hav].
  { unfold asset_link in E.
    assert (E' : ("![](assets/" ++ post_id ++ "/" ++ n) ++ [")"%char]
                 = (a ++ v') ++ [c]) by (by rewrite <-!app_assoc).
    by apply app_inj_tail in E' as [-> ->]. }
  assert (Hs : startswith "![[" v' = true).
  { rewrite <-app_assoc in Hu.
    destruct v' as [|x [|y [|z v']]]; by simplify_eq/=. }
  pose proof (has_open_infix a v' [] Hs) as Ho.
  rewrite app_nil_r, Hav, has_open_asset_link in Ho by done. done.
Qed.

(** The output of normalization contains no embed, when neither the id nor
    any rewritten name contains [![[]. *)
Lemma converted_no_embed post_id s ps :
  Scanned obsidian_pattern None s ps →
  has_open post_id = false →
  Forall (λ n, has_open n = false) (group1 <$> hits ps) →
  ∀ j, ¬ embed_at_head (drop j (converted post_id ps)).
Proof.
  intros Hs Hid. remember None as lim eqn:Hlim.
  induction Hs as [s|lim Hl|lim c s ps Hl Hm Hs IH|lim s h ps Hl Hm _ IH];
    intros Hn j; try discriminate; subst lim.
  - unfold converted. cbn [fmap list_fmap concat].
    rewrite drop_nil. by intros (n & r & _ & ?).
  - unfold converted. cbn [fmap list_fmap concat compose segment_of rewritten].
    destruct j as [|j]; [|by apply (IH eq_refl)].
    cbn [drop app]. change (c :: ?t) with ([c] ++ t).
    eapply skip_preserved; [done..|].
    intros (n & r & Hname & E). cbn [app] in E.
    by rewrite E, obsidian_complete in Hm.
  - unfold converted. cbn [fmap list_fmap concat compose segment_of rewritten].
    cbn in Hn. apply Forall_cons in Hn as [Hn1 Hn].
    destruct (decide (j < length (asset_link post_id (group1 h)))) as [Hlt|Hge].
    + rewrite drop_app_le by lia.
      eapply (asset_link_no_embed post_id (group1 h));
        [done..|symmetry; apply take_drop|].
      intros Hd. apply (f_equal length) in Hd. rewrite length_drop in Hd.
      cbn [length] in Hd. lia.
    + rewrite drop_app_ge by lia. by apply (IH eq_refl).
Qed.

(** Normalizing the output again changes nothing, under the same
    condition. *)
Lemma convert_twice markdown post_id :
  "\"%char ∉ post_id → has_open post_id = false →
  Forall (λ n, has_open n = false) (findall obsidian_pattern markdown) →
  convert_obsidian_images markdown post_id
    ≫= (λ once, convert_obsidian_images once post_id)
  = convert_obsidian_images markdown post_id.
Proof.
  intros Hb Hid Hn. rewrite convert_pieces by done. cbn [mbind option_bind].
  apply convert_no_embed; [done|].
  apply (converted_no_embed _ markdown); [|done..].
  apply pieces_Scanned, obsidian_consuming.
Qed.

(** * Whitespace *)

Lemma all_space_nil : all_space [].
Proof. constructor. Qed.

#[local] Hint Resolve all_space_nil : core.

Lemma lstrip_space s : all_space s → lstrip s = [].
Proof. induction 1 as [|c s Hc _ IH]; simpl; [done|]. by rewrite Hc. Qed.

Lemma rstrip_space s : all_space s → rstrip s = [].
Proof. induction 1 as [|c s Hc _ IH]; simpl; [done|]. by rewrite IH, Hc. Qed.

Lemma strip_space s : all_space s → strip s = [].
Proof. intros H. unfold strip. by rewrite lstrip_space. Qed.

Lemma lstrip_app_space w s : all_space w → lstrip (w ++ s) = lstrip s.
Proof. induction 1 as [|c w Hc _ IH]; simpl; [done|]. by rewrite Hc. Qed.

Lemma rstrip_app_space s w : all_space w → rstrip (s ++ w) = rstrip s.
Proof.
  intros Hw. induction s as [|c s IH]; simpl.
  - by apply rstrip_space.
  - by rewrite IH.
Qed.

Lemma lstrip_split s :
  ∃ w, s = w ++ lstrip s ∧ all_space w.
Proof.
  induction s as [|c s (w & E & Hw)]; simpl.
  - exists []. auto.
  - destruct (isspace c) eqn:Hc.
    + exists (c :: w). split; [simpl; by f_equal|by constructor].
    + exists []. auto.
Qed.

Lemma rstrip_split s :
  ∃ w, s = rstrip s ++ w ∧ all_space w.
Proof.
  induction s as [|c s (w & E & Hw)]; simpl.
  - exists []. auto.
  - destruct (rstrip s) as [|d r] eqn:Hr.
    + destruct (isspace c) eqn:Hc.
      * exists (c :: w). simpl in E. subst s. split; [done|by constructor].
      * exists w. simpl in *. by subst s.
    + exists w. split; [|done]. simpl. by f_equal.
Qed.

Lemma lstrip_head s c t : lstrip s = c :: t → isspace c = false.
Proof.
  induction s as [|d s IH]; simpl; [done|].
  destruct (isspace d) eqn:Hd; [done|]. by intros [= <- _].
Qed.

Lemma lstrip_fixed c t : isspace c = false → lstrip (c :: t) = c :: t.
Proof. intros Hc. simpl. by rewrite Hc. Qed.

Lemma rstrip_nil_space s : rstrip s = [] → all_space s.
Proof.
  induction s as [|c s IH]; simpl; [constructor|].
  destruct (rstrip s) eqn:Hr; [|done].
  destruct (isspace c) eqn:Hc; [|done]. intros _.
  constructor; [done|by apply IH].
Qed.

(** Stripping on the right keeps a first character that is no space. *)
Lemma rstrip_head c t : isspace c = false → ∃ t', rstrip (c :: t) = c :: t'.
Proof.
  intros Hc. simpl. destruct (rstrip t); rewrite ?Hc; eauto.
Qed.

Lemma strip_nonempty c t : isspace c = false → strip (c :: t) ≠ [].
Proof.
  intros Hc. unfold strip. rewrite lstrip_fixed by done.
  destruct (rstrip_head c t Hc) as [t' ->]. done.
Qed.

Lemma strip_app_space_l w s : all_space w → strip (w ++ s) = strip s.
Proof. intros Hw. unfold strip. by rewrite lstrip_app_space. Qed.

Lemma strip_app_space_r s w : all_space w → strip (s ++ w) = strip s.
Proof.
  intros Hw. unfold strip.
  destruct (lstrip_split s) as (v & E & Hv).
  rewrite E at 1. rewrite <-app_assoc, lstrip_app_space by done.
  destruct (lstrip s) as [|c t] eqn:Hl.
  - simpl. rewrite lstrip_space by done. done.
  - cbn [app]. rewrite lstrip_fixed by (by eapply lstrip_head).
    by apply (rstrip_app_space (c :: t)).
Qed.

Lemma rstrip_rstrip s : rstrip (rstrip s) = rstrip s.
Proof.
  induction s as [|c s IH]; [done|]. cbn [rstrip].
  destruct (rstrip s) as [|e r] eqn:Hr.
  - destruct (isspace c) eqn:Hc; [done|]. simpl. by rewrite Hc.
  - cbn [rstrip]. cbn [rstrip] in IH. by rewrite IH.
Qed.

Lemma strip_strip s : strip (strip s) = strip s.
Proof.
  unfold strip. destruct (lstrip s) as [|c t] eqn:Hl; [done|].
  pose proof (lstrip_head _ _ _ Hl) as Hc.
  destruct (rstrip_head c t Hc) as [t' Ht].
  rewrite Ht, lstrip_fixed, <-Ht by done. apply rstrip_rstrip.
Qed.

(** * Lines *)

Lemma split_nonempty sep s : ∃ l ls, split sep s = l :: ls.
Proof.
  induction s as [|c s (l & ls & IH)]; simpl; [by eauto|].
  destruct (eqc c sep); [by eauto|]. rewrite IH. eauto.
Qed.

Lemma split_cons_other sep c s l ls :
  eqc c sep = false → split sep s = l :: ls →
  split sep (c :: s) = (c :: l) :: ls.
Proof. intros Hc Hs. simpl. by rewrite Hc, Hs. Qed.

(** The lines of a concatenation: the last line of the first part and the
    first line of the second are one line. *)
Lemma split_app sep a b :
  ∃ A x y B, split sep a = A ++ [x] ∧ split sep b = y :: B ∧
             split sep (a ++ b) = A ++ [x ++ y] ++ B.
Proof.
  destruct (split_nonempty sep b) as (y & B & Hb).
  induction a as [|c a (A & x & y' & B' & Ha & Hb' & Hab)].
  - exists [], [], y, B. by rewrite Hb.
  - rewrite Hb in Hb'. simplify_eq. cbn [app split].
    destruct (eqc c sep) eqn:Hc.
    + exists ([] :: A), x, y', B'. by rewrite Ha, Hab.
    + rewrite Ha, Hab. destruct A as [|l A].
      * by exists [], (c :: x), y', B'.
      * by exists ((c :: l) :: A), x, y', B'.
Qed.

Lemma split_space s : all_space s → Forall all_space (split nl s).
Proof.
  induction 1 as [|c s Hc Hs IH]; simpl.
  - by repeat constructor.
  - destruct (eqc c nl); [by constructor|].
    destruct (split nl s) as [|l ls]; [by repeat constructor|].
    apply Forall_cons in IH as [Hl Hls]. constructor; [|done]. by constructor.
Qed.

Lemma strip_all_space (ls : list str) :
  Forall all_space ls → strip <$> ls = replicate (length ls) [].
Proof.
  induction 1 as [|l ls Hl _ IH]; [done|].
  cbn [fmap list_fmap length replicate]. f_equal; [by apply strip_space|apply IH].
Qed.

Lemma lines_strip_left w s :
  all_space w →
  ∃ k, strip <$> split nl (w ++ s) = replicate k [] ++ (strip <$> split nl s).
Proof.
  intros Hw. destruct (split_app nl w s) as (A & x & y & B & Ha & Hb & Hab).
  pose proof (split_space w Hw) as Hl. rewrite Ha in Hl.
  apply Forall_app in Hl as [HA Hx]. apply Forall_cons in Hx as [Hx _].
  exists (length A). rewrite Hab, Hb, !fmap_app, strip_all_space by done.
  cbn. by rewrite strip_app_space_l.
Qed.

Lemma lines_strip_right s w :
  all_space w →
  ∃ k, strip <$> split nl (s ++ w) = (strip <$> split nl s) ++ replicate k [].
Proof.
  intros Hw. destruct (split_app nl s w) as (A & x & y & B & Ha & Hb & Hab).
  pose proof (split_space w Hw) as Hl. rewrite Hb in Hl.
  apply Forall_cons in Hl as [Hy HB].
  exists (length B). rewrite Hab, Ha, !fmap_app, (strip_all_space B) by done.
  cbn. by rewrite strip_app_space_r, <-app_assoc.
Qed.

(** The stripped lines of a text are those of the stripped text, between
    blank lines. *)
Lemma lines_strip content :
  ∃ k1 k2, strip <$> split nl content
           = replicate k1 [] ++ (strip <$> split nl (strip content))
             ++ replicate k2 [].
Proof.
  destruct (lstrip_split content) as (w1 & E1 & Hw1).
  destruct (rstrip_split (lstrip content)) as (w2 & E2 & Hw2).
  destruct (lines_strip_left w1 (lstrip content) Hw1) as [k1 H1].
  destruct (lines_strip_right (strip content) w2 Hw2) as [k2 H2].
  exists k1, k2. rewrite E1 at 1. rewrite H1. f_equal.
  rewrite E2 at 1. apply H2.
Qed.

(** * Titles *)

Lemma find_app {A} (P : A → bool) (a b : list A) :
  List.find P (a ++ b)
  = match List.find P a with Some x => Some x | None => List.find P b end.
Proof. induction a as [|x a IH]; simpl; [done|]. by destruct (P x). Qed.

Lemma find_replicate_false {A} (P : A → bool) x k :
  P x = false → List.find P (replicate k x) = None.
Proof. intros Hx. induction k as [|k IH]; simpl; [done|]. by rewrite Hx. Qed.

Lemma find_pad (P : str → bool) k1 k2 M :
  P [] = false →
  List.find P (replicate k1 [] ++ M ++ replicate k2 []) = List.find P M.
Proof.
  intros HP. rewrite !find_app, !find_replicate_false by done.
  by destruct (List.find P M).
Qed.

Lemma title_of_lines_pad k1 k2 M :
  title_of_lines (replicate k1 [] ++ M ++ replicate k2 []) = title_of_lines M.
Proof. unfold title_of_lines. by rewrite !find_pad. Qed.

Lemma first_title_line_find lines :
  first_title_line lines
  = take 50 <$> List.find (λ l, negb (is_blank l) && negb (is_image l))
                          (strip <$> lines).
Proof.
  induction lines as [|l lines IH]; [done|]. cbn [first_title_line fmap list_fmap List.find].
  unfold is_blank, is_image. rewrite negb_orb, andb_assoc.
  replace (bool_decide (strip l ≠ [])) with (negb (bool_decide (strip l = [])))
    by (by repeat case_bool_decide).
  destruct (_ && _ && _); [done|]. apply IH.
Qed.

(** The script's [extract_title] computes the title of the
    specification. *)
Lemma extract_title_title_of content :
  extract_title_from_markdown content = title_of content.
Proof.
  change (title_of content) with (title_of_lines (strip <$> split nl content)).
  destruct (lines_strip content) as (k1 & k2 & ->).
  rewrite title_of_lines_pad. unfold extract_title_from_markdown.
  rewrite first_title_line_find.
  destruct (strip content) as [|c t] eqn:Hs.
  - done.
  - assert (Hc : isspace c = false).
    { unfold strip in Hs. destruct (lstrip content) as [|d u] eqn:Hl; [done|].
      pose proof (lstrip_head _ _ _ Hl) as Hd.
      destruct (rstrip_head d u Hd) as [t' Ht]. rewrite Ht in Hs. by simplify_eq. }
    destruct (split_nonempty nl t) as (l & ls & Hl).
    assert (Hn : eqc c nl = false).
    { rewrite eqc_decide. case_bool_decide; [|done]. by subst c. }
    rewrite (split_cons_other _ _ _ _ _ Hn Hl).
    cbn [fmap list_fmap]. unfold title_of_lines. cbn [List.find].
    assert (Hb : is_blank (strip (c :: l)) = false).
    { unfold is_blank. rewrite bool_decide_false; [done|]. by apply strip_nonempty. }
    by rewrite !Hb.
Qed.

(** * Image references *)

Lemma group1_singleton w n r : group1 (Hit w [n] r) = n.
Proof. done. Qed.

(** The embed occurrences of a text, as the scanner reports them. *)
Lemma embeds_spec content :
  let es := occurrences 0 (pieces None obsidian_pattern content) in
  findall obsidian_pattern content = name <$> es
  ∧ laid_out content 0 es
  ∧ Forall (λ o, embed_name (name o) ∧ text o = embed_text (name o)) es
  ∧ (∀ i n r, embed_name n → drop i content = embed_text n ++ r → covered es i).
Proof.
  pose proof (pieces_Scanned obsidian_pattern None content obsidian_consuming) as Hs.
  cbv zeta. split_and!.
  - unfold findall. by rewrite occurrences_names.
  - apply (occurrences_laid_out _ obsidian_consuming [] _ _ Hs).
  - eapply Forall_impl; [apply (occurrences_hits _ [] _ _ Hs)|].
    intros o (h & Hm & Ht & Hn).
    apply obsidian_sound in Hm as (n & Hname & _ & Hw & Hg).
    destruct h as [w g r]. simpl in *. subst.
    rewrite group1_singleton in Hn. by rewrite Hn, Ht.
  - intros i n r Hn Hd.
    apply (occurrences_cover _ obsidian_consuming [] _ _ i Hs); [simpl; lia|].
    simpl. rewrite Hd, obsidian_complete by done. by eexists.
Qed.

(** The standard-link occurrences of a text. *)
Lemma links_spec content :
  let ls := occurrences 0 (pieces None standard_pattern content) in
  findall standard_pattern content = name <$> ls
  ∧ laid_out content 0 ls
  ∧ Forall (λ o, ∃ alt target, link_parts alt target ∧
                   text o = link_text alt target ∧
                   name o = strip_assets target ∧
                   shortest_alt (drop (pos o) content) alt) ls
  ∧ (∀ i alt target r, link_parts alt target →
       drop i content = link_text alt target ++ r → covered ls i).
Proof.
  pose proof (pieces_Scanned standard_pattern None content standard_consuming) as Hs.
  cbv zeta. split_and!.
  - unfold findall. by rewrite occurrences_names.
  - apply (occurrences_laid_out _ standard_consuming [] _ _ Hs).
  - eapply Forall_impl; [apply (occurrences_hits _ [] _ _ Hs)|].
    intros o (h & Hm & Ht & Hn).
    apply standard_sound_shortest in Hm as (alt & target & Hl & _ & Hw & Hg & Hsh).
    destruct h as [w g r]. simpl in *. subst.
    rewrite group1_singleton in Hn. eauto 10.
  - intros i alt target r Hl Hd.
    apply (occurrences_cover _ standard_consuming [] _ _ i Hs); [simpl; lia|].
    simpl. rewrite Hd. by apply standard_complete.
Qed.

Import Fs.

(** * Directory listings *)

Lemma find_put_eq n x es : find n (put n x es) = Some x.
Proof.
  induction es as [|[m y] es IH]; simpl.
  - by rewrite bool_decide_true.
  - case_bool_decide as E; simpl.
    + subst m. by rewrite bool_decide_true.
    + by rewrite bool_decide_false.
Qed.

Lemma find_put_ne m n x es : m ≠ n → find m (put n x es) = find m es.
Proof.
  intros Hne. induction es as [|[k y] es IH]; simpl.
  - by rewrite bool_decide_false.
  - case_bool_decide as E; simpl.
    + subst k. by rewrite !bool_decide_false.
    + by rewrite IH.
Qed.

Lemma put_put n x y es : put n y (put n x es) = put n y es.
Proof.
  induction es as [|[m z] es IH]; simpl.
  - by rewrite bool_decide_true.
  - case_bool_decide as E; simpl.
    + subst m. by rewrite bool_decide_true.
    + by rewrite bool_decide_false, IH.
Qed.

Lemma find_remove_eq n es : find n (remove n es) = None.
Proof.
  induction es as [|[m y] es IH]; simpl; [done|].
  case_bool_decide as E; simpl; [done|]. by rewrite bool_decide_false.
Qed.

Lemma find_remove_ne m n es : m ≠ n → find m (remove n es) = find m es.
Proof.
  intros Hne. induction es as [|[k y] es IH]; simpl; [done|].
  case_bool_decide as E; simpl.
  - subst k. by rewrite bool_decide_false.
  - by rewrite IH.
Qed.

Lemma remove_put n x es : remove n (put n x es) = remove n es.
Proof.
  induction es as [|[m y] es IH]; simpl.
  - by rewrite bool_decide_true.
  - case_bool_decide as E; simpl.
    + subst m. by rewrite bool_decide_true.
    + by rewrite bool_decide_false, IH.
Qed.

Lemma put_names_other n x es :
  is_Some (find n es) → (put n x es).*1 = es.*1.
Proof.
  induction es as [|[m y] es IH]; simpl.
  - by intros [? ?].
  - case_bool_decide as E; simpl; [done|]. intros H. f_equal. by apply IH.
Qed.

(** * Paths *)

Lemma lookup_app p q t : lookup (p ++ q) t = lookup p t ≫= lookup q.
Proof.
  revert t. induction p as [|n p IH]; intros t; [done|].
  cbn [app lookup]. destruct t as [d|es]; [done|].
  destruct (find n es) as [sub|]; [|done]. apply IH.
Qed.

(** A change inside the directory [dir] replaces its listing. *)
Lemma in_dir_lookup dir f t t' :
  in_dir dir f t = Some t' →
  ∃ es es', lookup dir t = Some (Dir es) ∧ f es = Some es' ∧
            lookup dir t' = Some (Dir es').
Proof.
  revert t t'. induction dir as [|n dir IH]; intros [d|es0] t' H; try done.
  - simpl in H. destruct (f es0) as [es'|] eqn:Hf; [|done]. simplify_eq/=. eauto.
  - cbn [in_dir] in H.
    destruct (find n es0) as [sub|] eqn:Hn; [|done]. cbn [mbind option_bind] in H.
    destruct (in_dir dir f sub) as [sub'|] eqn:Hs; [|done]. simplify_eq/=.
    apply IH in Hs as (es & es' & H1 & H2 & H3).
    exists es, es'. rewrite Hn, find_put_eq. by cbn.
Qed.

(** It leaves alone what lies off the way to [dir]. *)
Lemma in_dir_lookup_other q a p1 b p2 f t t' :
  in_dir (q ++ a :: p1) f t = Some t' → a ≠ b →
  lookup (q ++ b :: p2) t' = lookup (q ++ b :: p2) t.
Proof.
  revert t t'. induction q as [|c q IH]; intros [d|es0] t' H Hab; try done.
  - cbn [app in_dir] in H.
    destruct (find a es0) as [sub|] eqn:Hn; [|done]. cbn [mbind option_bind] in H.
    destruct (in_dir p1 f sub) as [sub'|] eqn:Hs; [|done]. simplify_eq/=.
    by rewrite find_put_ne.
  - cbn [app in_dir] in H.
    destruct (find c es0) as [sub|] eqn:Hn; [|done]. cbn [mbind option_bind] in H.
    destruct (in_dir (q ++ a :: p1) f sub) as [sub'|] eqn:Hs; [|done].
    simplify_eq/=. rewrite Hn, find_put_eq. cbn. by eapply IH.
Qed.

(** Inside [dir], the entries whose names the change does not touch stay
    as they are. *)
Lemma in_dir_lookup_entry dir f t t' n q :
  in_dir dir f t = Some t' →
  (∀ es es', f es = Some es' → find n es' = find n es) →
  lookup (dir ++ n :: q) t' = lookup (dir ++ n :: q) t.
Proof.
  intros H Hf. apply in_dir_lookup in H as (es & es' & H1 & H2 & H3).
  rewrite !lookup_app, H1, H3. cbn. by rewrite (Hf _ _ H2).
Qed.

Lemma mkdir_parents_other a p b q t t' :
  mkdir_parents (a :: p) t = Some t' → a ≠ b →
  lookup (b :: q) t' = lookup (b :: q) t.
Proof.
  destruct t as [d|es]; [done|]. cbn [mkdir_parents]. intros H Hab.
  destruct (mkdir_parents p _) as [sub|]; [|done]. simplify_eq/=.
  by rewrite find_put_ne.
Qed.

Lemma mkdir_parents_dir p t t' :
  mkdir_parents p t = Some t' → ∃ es, lookup p t' = Some (Dir es).
Proof.
  revert t t'. induction p as [|n p IH]; intros [d|es0] t' H; try done.
  - simplify_eq/=. eauto.
  - cbn [mkdir_parents] in H.
    destruct (mkdir_parents p _) as [sub|] eqn:Hs; [|done]. simplify_eq/=.
    rewrite find_put_eq. cbn. by eapply IH.
Qed.

(** * Reading and writing *)

Lemma write_file_data dir name data t t' :
  write_file dir name data t = Some t' →
  file_data (dir ++ [name]) t' = Some data.
Proof.
  intros H. apply in_dir_lookup in H as (es & es' & H1 & H2 & H3).
  unfold file_data. rewrite lookup_app, H3. cbn. cbv beta in H2.
  destruct (find name es) as [[d|?]|]; simplify_eq; by rewrite find_put_eq.
Qed.

Lemma write_file_other_name dir name data t t' n q :
  write_file dir name data t = Some t' → n ≠ name →
  lookup (dir ++ n :: q) t' = lookup (dir ++ n :: q) t.
Proof.
  intros H Hn. eapply in_dir_lookup_entry; [done|].
  intros es es' Hf. cbv beta in Hf.
  destruct (find name es) as [[d|?]|]; simplify_eq; by rewrite find_put_ne.
Qed.

Lemma write_file_other_dir q a p1 name data b p2 t t' :
  write_file (q ++ a :: p1) name data t = Some t' → a ≠ b →
  lookup (q ++ b :: p2) t' = lookup (q ++ b :: p2) t.
Proof. apply in_dir_lookup_other. Qed.

(** * The order of the documents *)

Lemma ltb_asym a b : ltb a b = true → ltb b a = false.
Proof.
  revert b. induction a as [|x a IH]; intros [|y b]; simpl; try done.
  destruct (nat_of_ascii x <? nat_of_ascii y) eqn:E1;
    destruct (nat_of_ascii y <? nat_of_ascii x) eqn:E2; try done.
  - apply Nat.ltb_lt in E1, E2. lia.
  - apply IH.
Qed.

Lemma ltb_ge_trans a b c : ltb a b = false → ltb b c = false → ltb a c = false.
Proof.
  revert b c. induction a as [|x a IH]; intros [|y b] [|z c]; simpl; try done.
  destruct (nat_of_ascii x <? nat_of_ascii y) eqn:E1; [done|].
  destruct (nat_of_ascii y <? nat_of_ascii x) eqn:E2.
  - intros _. destruct (nat_of_ascii y <? nat_of_ascii z) eqn:E3; [done|].
    intros _. apply Nat.ltb_lt in E2. apply Nat.ltb_ge in E1, E3.
    replace (nat_of_ascii x <? nat_of_ascii z) with false
      by (symmetry; apply Nat.ltb_ge; lia).
    replace (nat_of_ascii z <? nat_of_ascii x) with true
      by (symmetry; apply Nat.ltb_lt; lia).
    done.
  - apply Nat.ltb_ge in E1, E2. assert (nat_of_ascii x = nat_of_ascii y) as -> by lia.
    destruct (nat_of_ascii y <? nat_of_ascii z); [done|].
    destruct (nat_of_ascii z <? nat_of_ascii y); [done|]. apply IH.
Qed.

Lemma insert_desc_Permutation x l : insert_desc x l ≡ₚ x :: l.
Proof.
  induction l as [|y l IH]; simpl; [done|].
  destruct (ltb x y); [|done]. rewrite IH. apply Permutation_swap.
Qed.

Lemma insert_desc_sorted x l :
  StronglySorted (λ a b, ltb a b = false) l →
  StronglySorted (λ a b, ltb a b = false) (insert_desc x l).
Proof.
  induction 1 as [|y l Hl IH Hy]; simpl.
  - by repeat constructor.
  - destruct (ltb x y) eqn:E.
    + constructor; [done|]. rewrite insert_desc_Permutation.
      constructor; [by apply ltb_asym|done].
    + constructor; [by constructor|]. constructor; [done|].
      eapply Forall_impl; [done|]. intros z Hz. by eapply ltb_ge_trans.
Qed.

Lemma sorted_desc_Permutation l : sorted_desc l ≡ₚ l.
Proof.
  induction l as [|x l IH]; simpl; [done|].
  by rewrite insert_desc_Permutation, IH.
Qed.

Lemma sorted_desc_sorted l :
  StronglySorted (λ a b, ltb a b = false) (sorted_desc l).
Proof.
  induction l as [|x l IH]; simpl; [constructor|].
  by apply insert_desc_sorted.
Qed.

(** The comparison of the code is Python's order on strings. *)
Lemma ltb_str_lt a b : ltb a b = true ↔ str_lt a b.
Proof.
  revert b. induction a as [|x a IH]; intros [|y b]; cbn [ltb].
  - split; [done|].
    intros [(c & r & H)|(p & x & y & a' & b' & H & _)]; [done|by destruct p].
  - split; [|done]. intros _. left. by exists y, b.
  - split; [done|].
    intros [(c & r & H)|(p & x' & y & a' & b' & _ & H & _)];
      [done|by destruct p].
  - destruct (nat_of_ascii x <? nat_of_ascii y) eqn:E1.
    { split; [|done]. intros _. right. exists [], x, y, a, b.
      apply Nat.ltb_lt in E1. done. }
    apply Nat.ltb_ge in E1.
    destruct (nat_of_ascii y <? nat_of_ascii x) eqn:E2.
    { apply Nat.ltb_lt in E2. split; [done|].
      intros [(c & r & H)|(p & x' & y' & a' & b' & Ha & Hb & Hlt)].
      - injection H as -> _. lia.
      - destruct p as [|z p]; simplify_eq/=; lia. }
    apply Nat.ltb_ge in E2.
    assert (x = y) as <-.
    { rewrite <-(ascii_nat_embedding x), <-(ascii_nat_embedding y).
      f_equal. lia. }
    rewrite IH. split.
    + intros [(c & r & ->)|(p & x' & y' & a' & b' & -> & -> & Hlt)].
      * left. by exists c, r.
      * right. by exists (x :: p), x', y', a', b'.
    + intros [(c & r & H)|(p & x' & y' & a' & b' & Ha & Hb & Hlt)].
      * injection H as ->. left. by exists c, r.
      * destruct p as [|z p]; simplify_eq/=; [lia|].
        right. by exists p, x', y', a', b'.
Qed.

Lemma sorted_desc_descending l : descending (sorted_desc l).
Proof.
  unfold descending. generalize (sorted_desc_sorted l).
  induction 1 as [|a names _ IH Ha]; constructor; [done|].
  eapply Forall_impl; [done|]. intros b Hab Hlt.
  apply ltb_str_lt in Hlt. congruence.
Qed.

(** * One document *)

Lemma parse_date_nonempty s d : parse_date_from_filename s = Some d → d ≠ [].
Proof.
  rewrite parse_date_date_of_stem. unfold date_of_stem.
  repeat case_match; try done. by intros [= <-].
Qed.

Lemma truthy_record name content :
  (if truthy (parse_date_from_filename (stem name))
      && truthy (extract_title_from_markdown content)
   then Some (Post (stem name)
                (default [] (parse_date_from_filename (stem name)))
                (default [] (extract_title_from_markdown content))
                (extract_images_from_markdown content))
   else None)
  = record_of name content.
Proof.
  unfold record_of.
  destruct (parse_date_from_filename (stem name)) as [d|] eqn:Hd; [|done].
  apply parse_date_nonempty in Hd. destruct d as [|c d]; [done|].
  by destruct (extract_title_from_markdown content) as [[|? ?]|].
Qed.

Lemma process_file_inv posts fs name posts' fs' :
  process_file (posts, fs) name = Some (posts', fs') →
  ∃ content out,
    read_file (BLOGS_DIR ++ [name]) fs = Some content ∧
    convert_obsidian_images content (stem name) = Some out ∧
    write_file DOCS_BLOGS_DIR name out fs = Some fs' ∧
    posts' = posts ++ option_list (record_of name content).
Proof.
  unfold process_file. intros H.
  destruct (read_file (BLOGS_DIR ++ [name]) fs) as [content|] eqn:Hr; [|done].
  cbn [mbind option_bind] in H.
  destruct (convert_obsidian_images content (stem name)) as [out|] eqn:Hc;
    [|done].
  cbn [mbind option_bind] in H.
  destruct (write_file DOCS_BLOGS_DIR name out fs) as [fs1|] eqn:Hw; [|done].
  cbn [mbind option_bind] in H. simplify_eq.
  exists content, out. split_and!; try done.
  rewrite <-truthy_record. destruct (_ && _); [done|].
  cbn [option_list]. by rewrite app_nil_r.
Qed.

Lemma blogs_docs : ("docs" : str) ≠ ("blogs" : str).
Proof. done. Qed.

Lemma process_file_blogs posts fs name posts' fs' q :
  process_file (posts, fs) name = Some (posts', fs') →
  lookup (BLOGS_DIR ++ q) fs' = lookup (BLOGS_DIR ++ q) fs.
Proof.
  intros (content & out & _ & _ & Hw & _)%process_file_inv.
  apply (write_file_other_dir [] "docs" ["blogs" : str] name out "blogs" q _ _ Hw).
  apply blogs_docs.
Qed.

Lemma content_of_blogs fs fs' name :
  (∀ q, lookup (BLOGS_DIR ++ q) fs' = lookup (BLOGS_DIR ++ q) fs) →
  content_of fs' name = content_of fs name.
Proof. intros H. unfold content_of, read_file, file_data. by rewrite H. Qed.

(** * The loop *)

Lemma omap_ext {A B} (f g : A → option B) (l : list A) :
  (∀ x, f x = g x) → omap f l = omap g l.
Proof.
  intros H. induction l as [|x l IH]; [done|].
  cbn [omap list_omap]. by rewrite H, IH.
Qed.

Lemma process_loop names posts fs posts' fs' :
  foldM process_file (posts, fs) names = Some (posts', fs') →
  (∀ q, lookup (BLOGS_DIR ++ q) fs' = lookup (BLOGS_DIR ++ q) fs)
  ∧ posts' = posts ++ omap (λ name, record_of name (content_of fs name)) names
  ∧ (∀ name, name ∈ names →
       ∃ out, convert_obsidian_images (content_of fs name) (stem name) = Some out
              ∧ file_data (DOCS_BLOGS_DIR ++ [name]) fs' = Some out)
  ∧ (∀ n q, n ∉ names →
       lookup (DOCS_BLOGS_DIR ++ n :: q) fs' = lookup (DOCS_BLOGS_DIR ++ n :: q) fs).
Proof.
  revert posts fs. induction names as [|name names IH]; intros posts fs H.
  - simplify_eq/=. split_and!; try done.
    + by rewrite app_nil_r.
    + intros name Hin. by apply elem_of_nil in Hin.
  - cbn [foldM] in H.
    destruct (process_file (posts, fs) name) as [[posts1 fs1]|] eqn:Hp; [|done].
    cbn [mbind option_bind] in H.
    assert (Hb : ∀ q, lookup (BLOGS_DIR ++ q) fs1 = lookup (BLOGS_DIR ++ q) fs)
      by (intros q; by eapply process_file_blogs).
    pose proof Hp as (content & out & Hr & Hc & Hw & ->)%process_file_inv.
    apply IH in H as (H1 & -> & H3 & H4).
    assert (Hcontent : content_of fs name = content)
      by (unfold content_of; by rewrite Hr).
    split_and!.
    + intros q. by rewrite H1, Hb.
    + cbn [omap list_omap]. rewrite Hcontent, <-app_assoc. f_equal.
      rewrite (omap_ext _ (λ name, record_of name (content_of fs name)))
        by (intros; f_equal; by apply content_of_blogs).
      by destruct (record_of name content).
    + intros n Hin. destruct (decide (n ∈ names)) as [Hn|Hn].
      * destruct (H3 n Hn) as (o & Ho & Hread).
        exists o. by rewrite <-(content_of_blogs fs fs1).
      * apply elem_of_cons in Hin as [->|?]; [|done].
        exists out. rewrite Hcontent. split; [done|].
        unfold file_data. rewrite H4 by done.
        by apply write_file_data in Hw.
    + intros n q [Hn1 Hn2]%not_elem_of_cons. rewrite H4 by done.
      by eapply write_file_other_name.
Qed.

Lemma glob_suffix_blogs fs fs' :
  (∀ q, lookup (BLOGS_DIR ++ q) fs' = lookup (BLOGS_DIR ++ q) fs) →
  glob_suffix BLOGS_DIR ".md" fs' = glob_suffix BLOGS_DIR ".md" fs.
Proof.
  intros H. unfold glob_suffix. specialize (H []). rewrite app_nil_r in H.
  by rewrite H.
Qed.

(** What a run of [process_markdown_files] that completes has done. *)
Lemma process_markdown_files_inv fs posts fs' :
  process_markdown_files fs = Some (posts, fs') →
  posts = omap (λ name, record_of name (content_of fs name)) (documents fs)
  ∧ (∀ name, name ∈ documents fs →
       ∃ out, convert_obsidian_images (content_of fs name) (stem name) = Some out
              ∧ file_data (DOCS_BLOGS_DIR ++ [name]) fs' = Some out)
  ∧ (∀ q, lookup (BLOGS_DIR ++ q) fs' = lookup (BLOGS_DIR ++ q) fs).
Proof.
  unfold process_markdown_files. intros H.
  destruct (mkdir_parents DOCS_BLOGS_DIR fs) as [fs1|] eqn:Hm; [|done].
  cbn [mbind option_bind] in H.
  assert (Hb : ∀ q, lookup (BLOGS_DIR ++ q) fs1 = lookup (BLOGS_DIR ++ q) fs).
  { intros q. eapply (mkdir_parents_other "docs" ["blogs" : str] "blogs" q);
      [done|apply blogs_docs]. }
  apply process_loop in H as (H1 & -> & H3 & _).
  unfold documents. rewrite <-(glob_suffix_blogs fs fs1) by done.
  split_and!.
  - cbn [app]. apply omap_ext. intros; f_equal; by apply content_of_blogs.
  - intros name Hin. destruct (H3 name Hin) as (out & Ho & Hr).
    exists out. by rewrite <-(content_of_blogs fs fs1).
  - intros q. by rewrite H1, Hb.
Qed.

(** * Completion *)

Lemma in_dir_total dir f t es :
  lookup dir t = Some (Dir es) → is_Some (f es) → is_Some (in_dir dir f t).
Proof.
  revert t. induction dir as [|n dir IH]; intros [d|es0] Hl Hf; try done.
  - simplify_eq/=. destruct Hf as [es' ->]. by eexists.
  - cbn [lookup] in Hl. cbn [in_dir].
    destruct (find n es0) as [sub|]; [|done]. cbn [mbind option_bind] in *.
    destruct (IH sub Hl Hf) as [sub' ->]. by eexists.
Qed.

Lemma write_file_total dir name data t es :
  lookup dir t = Some (Dir es) →
  ¬ (∃ es', lookup (dir ++ [name]) t = Some (Dir es')) →
  is_Some (write_file dir name data t).
Proof.
  intros Hl Hn. eapply in_dir_total; [done|].
  rewrite lookup_app, Hl in Hn. cbn in Hn.
  destruct (find name es) as [[d|es']|]; try by eexists.
  destruct Hn. by exists es'.
Qed.

Lemma mkdir_parents_below p t t' n q :
  mkdir_parents p t = Some t' →
  lookup (p ++ n :: q) t' = lookup (p ++ n :: q) t.
Proof.
  revert t t'. induction p as [|a p IH]; intros [d|es] t' H; try done.
  - by simplify_eq/=.
  - cbn [mkdir_parents] in H.
    destruct (mkdir_parents p _) as [sub|] eqn:Hs; [|done]. simplify_eq/=.
    rewrite find_put_eq. cbn. rewrite (IH _ _ Hs).
    destruct (find a es) as [x|]; [done|]. cbn.
    destruct p; by cbn.
Qed.

Lemma process_loop_total names posts fs :
  (∃ es, lookup DOCS_BLOGS_DIR fs = Some (Dir es)) →
  (∀ name, name ∈ names →
     is_Some (read_file (BLOGS_DIR ++ [name]) fs)
     ∧ ("\"%char ∉ stem name)
     ∧ ¬ (∃ es, lookup (DOCS_BLOGS_DIR ++ [name]) fs = Some (Dir es))) →
  is_Some (foldM process_file (posts, fs) names).
Proof.
  revert posts fs. induction names as [|name names IH]; intros posts fs [es Hd] H.
  - by eexists.
  - destruct (H name) as ([content Hr] & Hid & Hout); [left|].
    destruct (write_file_total DOCS_BLOGS_DIR name
                (converted (stem name) (pieces None obsidian_pattern content))
                fs es Hd Hout) as [fs1 Hw].
    assert (Hp : process_file (posts, fs) name
                 = Some (posts ++ option_list (record_of name content), fs1)).
    { unfold process_file. rewrite Hr. cbn [mbind option_bind].
      rewrite convert_pieces by done. cbn [mbind option_bind].
      fold (converted (stem name) (pieces None obsidian_pattern content)).
      rewrite Hw. cbn [mbind option_bind]. do 2 f_equal.
      rewrite <-truthy_record. destruct (_ && _); [done|].
      cbn [option_list]. by rewrite app_nil_r. }
    cbn [foldM]. rewrite Hp. cbn [mbind option_bind]. apply IH.
    + pose proof Hw as (? & es' & _ & _ & Hl)%in_dir_lookup. eauto.
    + intros n Hn. destruct (H n) as (Hr' & Hid' & Hout'); [by right|].
      split_and!; [|done|].
      * unfold read_file, file_data. by rewrite (process_file_blogs _ _ _ _ _ _ Hp).
      * destruct (decide (n = name)) as [->|Hne].
        -- intros [es' He]. apply write_file_data in Hw.
           unfold file_data in Hw. by rewrite He in Hw.
        -- by rewrite (write_file_other_name _ _ _ _ _ _ [] Hw).
Qed.

Lemma process_markdown_files_total fs :
  processable fs → is_Some (process_markdown_files fs).
Proof.
  intros [[fs1 Hm] H]. unfold process_markdown_files. rewrite Hm.
  cbn [mbind option_bind].
  assert (Hb : ∀ q, lookup (BLOGS_DIR ++ q) fs1 = lookup (BLOGS_DIR ++ q) fs).
  { intros q. eapply (mkdir_parents_other "docs" ["blogs" : str] "blogs" q);
      [done|apply blogs_docs]. }
  apply process_loop_total.
  - by eapply mkdir_parents_dir.
  - rewrite (glob_suffix_blogs fs fs1) by done. intros name Hn.
    destruct (H name Hn) as (Hr & Hid & Hout). split_and!; [|done|].
    + unfold read_file, file_data. by rewrite Hb.
    + by rewrite (mkdir_parents_below _ _ _ _ [] Hm).
Qed.

(** * The marker pattern *)

Lemma space_Forall (w : str) :
  Forall (λ c, cset_mem (Cat Space) c = true) w ↔ all_space w.
Proof. done. Qed.

Lemma any_mem c : cset_mem (OneOf [ICat Space; ICat NotSpace]) c = true.
Proof. simpl. by destruct (isspace c). Qed.

(** A lazy repetition of anything stops at the first place where what
    follows matches. *)
Lemma rep_lazy_first {R} cs (body s : str) (k : str → option R) y :
  Forall (λ c, cset_mem cs c = true) body →
  (∀ c s', c ∈ body → k (c :: s') = None) →
  k s = Some y →
  rep false cs 0 None (body ++ s) k = Some y.
Proof.
  intros Hb. induction Hb as [|c body Hc _ IH]; intros Hk Hs.
  - cbn [app]. rewrite rep_unfold. cbv zeta. by rewrite Hs.
  - cbn [app]. rewrite rep_unfold. cbv zeta.
    rewrite Hk by left. cbn [orelse]. rewrite Hc.
    cbn [andb room pred fmap option_fmap option_map].
    apply IH; [|done]. intros d s' Hd. apply Hk. by right.
Qed.

Lemma one_bracket {R} s caps (k : str → list str → option R) c :
  exec (One (Chr c)) s caps k
  = match s with d :: s' => if eqc d c then k s' caps else None | [] => None end.
Proof. done. Qed.

Lemma marker_complete ma ws body r :
  marker_parts ws body →
  match_here ma marker_pattern (marker_text ws body ++ r)
  = Some (Hit (marker_text ws body) [] r).
Proof.
  intros [Hws Hbody].
  assert (Hk : accept ma (marker_text ws body ++ r) r []
               = Some (Hit (marker_text ws body) [] r)).
  { by apply accept_nonempty. }
  unfold match_here. revert Hk.
  generalize (accept ma (marker_text ws body ++ r)). intros k Hk.
  unfold marker_pattern, seqs, marker_text. cbn [foldr].
  rewrite <-!app_assoc, exec_Seq, exec_lits_app, exec_Seq. cbn [exec].
  rewrite rep_greedy_run; [|by apply space_Forall|lia| |by unlit].
  - unlit. cbn [cset_mem]. rewrite eqc_refl. apply rep_lazy_first.
    + apply Forall_forall. intros c _. apply any_mem.
    + intros c s' Hc. cbn [cset_mem].
      rewrite eqc_decide, bool_decide_false; [done|]. by intros ->.
    + cbn [cset_mem]. rewrite eqc_refl. exact Hk.
  - intros c s' Hc. cbn [cset_mem].
    rewrite eqc_decide, bool_decide_false; [done|]. intros ->.
    by vm_compute in Hc.
Qed.

Lemma marker_sound ma s h :
  match_here ma marker_pattern s = Some h →
  ∃ ws body, marker_parts ws body ∧ s = marker_text ws body ++ rest h ∧
             h = Hit (marker_text ws body) [] (rest h).
Proof.
  intros H. pose proof H as H0. revert H.
  unfold match_here, marker_pattern, seqs. cbn [foldr]. intros H.
  rewrite exec_Seq in H. apply exec_lits_Some in H as (s1 & -> & H).
  rewrite exec_Seq in H. apply exec_rep_Some in H as (ws & s2 & -> & Hws & _ & H).
  rewrite exec_Seq, one_bracket in H.
  destruct s2 as [|d s2]; [done|].
  destruct (eqc d "[") eqn:Hd; [|done]. apply eqc_true in Hd as ->.
  rewrite exec_Seq in H. apply exec_rep_Some in H as (b & s3 & -> & _ & _ & H).
  rewrite exec_Seq, one_bracket in H.
  destruct s3 as [|e s3]; [done|].
  destruct (eqc e "]") eqn:He; [|done]. apply eqc_true in He as ->.
  clear H.
  destruct (list_elem_of_split_l (b ++ "]"%char :: s3) "]"%char)
    as (body & r & E & Hbody).
  { rewrite elem_of_app. right. left. }
  assert (Hs : "postsMetadata:" ++ ws ++ "["%char :: b ++ "]"%char :: s3
               = marker_text ws body ++ r).
  { unfold marker_text. rewrite E, <-!app_assoc. done. }
  rewrite Hs in H0 |- *.
  rewrite marker_complete in H0 by done. simplify_eq. by exists ws, body.
Qed.

Lemma marker_consuming : consuming marker_pattern.
Proof.
  intros ma s h H. apply marker_sound in H as (ws & body & _ & -> & _).
  rewrite length_app. unfold marker_text. rewrite !length_app. simpl. lia.
Qed.

Lemma marker_None ma s :
  match_here ma marker_pattern s = None ↔ ¬ marker_at_head s.
Proof.
  split.
  - intros H (ws & body & r & Hp & ->). by rewrite marker_complete in H.
  - intros H. destruct (match_here _ _ _) as [h|] eqn:E; [|done].
    apply marker_sound in E as (ws & body & Hp & E & _). destruct H.
    by exists ws, body, (rest h).
Qed.

(** * Substitution of the first hit *)

Lemma pieces_skips r lim pre s :
  consuming r → lim ≠ Some 0 →
  (∀ i, i < length pre → match_here false r (drop i (pre ++ s)) = None) →
  pieces lim r (pre ++ s) = (Skip <$> pre) ++ pieces lim r s.
Proof.
  intros Hr Hl. induction pre as [|c pre IH]; intros H; [done|].
  cbn [app fmap list_fmap]. rewrite pieces_skip; [|done..|apply (H 0); simpl; lia].
  f_equal. apply IH. intros i Hi. apply (H (S i)). simpl. lia.
Qed.

Lemma pieces_first r pre s h :
  consuming r →
  (∀ i, i < length pre → match_here false r (drop i (pre ++ s)) = None) →
  match_here false r s = Some h →
  pieces (Some 1) r (pre ++ s) = (Skip <$> pre) ++ Found h :: (Skip <$> rest h).
Proof.
  intros Hr Hpre Hm. rewrite pieces_skips by done.
  assert (Hl : Some 1 ≠ Some 0) by done.
  rewrite (pieces_hit _ _ _ _ Hr Hl Hm). cbn [fmap option_fmap option_map pred].
  by rewrite pieces_limit.
Qed.

Lemma render_skips tpl (s : str) : concat (render tpl <$> (Skip <$> s)) = s.
Proof. induction s as [|c s IH]; [done|]. cbn. by f_equal. Qed.

Lemma pieces_no_hit r lim s :
  consuming r → (∀ i, match_here false r (drop i s) = None) →
  pieces lim r s = Skip <$> s.
Proof.
  intros Hr H. destruct (decide (lim = Some 0)) as [->|Hl].
  { apply pieces_limit. }
  rewrite <-(app_nil_r s) at 1. rewrite pieces_skips; [|done..|].
  - rewrite pieces_nil; [by rewrite app_nil_r|done|apply (consuming_nil _ Hr)].
  - intros i _. rewrite app_nil_r. apply H.
Qed.

(** * The metadata block *)

(** A replacement without a backslash stands for itself. *)
Lemma parse_template_plain n (repl : str) :
  "\"%char ∉ repl → parse_template n repl = Some ((λ c, TLit [c]) <$> repl).
Proof.
  intros H. unfold parse_template.
  pose proof (tokenize_plain repl [] H) as Ht. rewrite !app_nil_r in Ht.
  rewrite Ht. cbn [tokenize fmap option_fmap option_map mbind option_bind].
  rewrite app_nil_r, length_fmap.
  pose proof (parse_tokens_plain n 0 repl []) as Hp.
  rewrite Nat.add_0_r, !app_nil_r in Hp. rewrite Hp. cbn.
  by rewrite app_nil_r.
Qed.

Lemma expand_plain (repl : str) h : expand ((λ c, TLit [c]) <$> repl) h = repl.
Proof.
  unfold expand. rewrite <-list_fmap_compose.
  change (expand_part h ∘ (λ c, TLit [c])) with (λ c : ascii, [c]).
  apply concat_singletons.
Qed.

(** The text written back: the first marker region replaced, the text
    before and after it as it was. *)
Lemma new_blog_js_first posts pre ws body post tpl :
  parse_template 0 (metadata_js posts) = Some tpl →
  marker_parts ws body →
  (∀ i, i < length pre →
     ¬ marker_at_head (drop i (pre ++ marker_text ws body ++ post))) →
  new_blog_js posts (pre ++ marker_text ws body ++ post)
  = Some (pre ++ expand tpl (Hit (marker_text ws body) [] post) ++ post).
Proof.
  intros Ht Hp Hpre. unfold new_blog_js, sub.
  change (ngroups marker_pattern) with 0. rewrite Ht.
  cbn [mbind option_bind limit_of].
  rewrite (pieces_first _ _ _ (Hit (marker_text ws body) [] post)).
  - rewrite fmap_app, concat_app. cbn [fmap list_fmap concat render rest].
    by rewrite !render_skips.
  - apply marker_consuming.
  - intros i Hi. apply marker_None. by apply Hpre.
  - by apply marker_complete.
Qed.

(** Without a marker region the text is written back as it was. *)
Lemma new_blog_js_none posts content tpl :
  parse_template 0 (metadata_js posts) = Some tpl →
  (∀ i, ¬ marker_at_head (drop i content)) →
  new_blog_js posts content = Some content.
Proof.
  intros Ht H. unfold new_blog_js, sub.
  change (ngroups marker_pattern) with 0. rewrite Ht.
  cbn [mbind option_bind limit_of].
  rewrite pieces_no_hit; [by rewrite render_skips|apply marker_consuming|].
  intros i. apply marker_None, H.
Qed.

Lemma file_data_parent dir name t data :
  file_data (dir ++ [name]) t = Some data →
  ∃ es, lookup dir t = Some (Dir es) ∧ find name es = Some (File data).
Proof.
  unfold file_data. rewrite lookup_app.
  destruct (lookup dir t) as [[d|es]|]; try done. cbn.
  destruct (find name es) as [[d|?]|] eqn:E; try done.
  intros [= ->]. eauto.
Qed.

Lemma read_file_data p t content :
  read_file p t = Some content ↔
  ∃ data, file_data p t = Some data ∧ content = universal_newlines data.
Proof.
  unfold read_file. destruct (file_data p t) as [data|]; cbn.
  - split; [intros [= <-]; by eexists|by intros (? & [= <-] & ->)].
  - split; [done|by intros (? & ? & _)].
Qed.

Lemma update_blog_js_text posts fs content new :
  read_file blog_js_path fs = Some content →
  new_blog_js posts content = Some new →
  ∃ fs', update_blog_js posts fs = Some fs' ∧
         file_data blog_js_path fs' = Some new.
Proof.
  intros Hr Hn. unfold update_blog_js.
  assert (exists_ blog_js_path fs = true) as ->.
  { unfold exists_. apply bool_decide_eq_true.
    unfold read_file, file_data in Hr.
    destruct (lookup blog_js_path fs); [by eexists|done]. }
  cbn [negb]. rewrite Hr. cbn [mbind option_bind]. rewrite Hn.
  cbn [mbind option_bind].
  apply read_file_data in Hr as (data & Hr & _).
  apply file_data_parent in Hr as (es & Hd & Hf).
  destruct (write_file_total DOCS_JS_DIR "blog.js" new fs es Hd) as [fs' Hw].
  - intros [es' He]. rewrite lookup_app, Hd in He.
    cbn [mbind option_bind lookup] in He. by rewrite Hf in He.
  - exists fs'. split; [done|]. by apply write_file_data in Hw.
Qed.

Global Arguments DOCS_BLOGS_DIR : simpl never.
Global Arguments DOCS_ASSETS_DIR : simpl never.
Global Arguments with_assets : simpl never.

(** * More on listings *)

Lemma put_new n x es : find n es = None → put n x es = es ++ [(n, x)].
Proof.
  induction es as [|[m y] es IH]; simpl; [done|].
  case_bool_decide as E; [done|]. intros H. by rewrite IH.
Qed.

Lemma put_same n x es : find n es = Some x → put n x es = es.
Proof.
  induction es as [|[m y] es IH]; simpl; [done|].
  case_bool_decide as E.
  - by intros [= ->].
  - intros H. by rewrite IH.
Qed.

Lemma remove_absent n es : find n es = None → remove n es = es.
Proof.
  induction es as [|[m y] es IH]; simpl; [done|].
  case_bool_decide as E; [done|]. intros H. by rewrite IH.
Qed.

Lemma find_entry_app n es1 es2 :
  find n (es1 ++ es2)
  = match find n es1 with Some x => Some x | None => find n es2 end.
Proof.
  induction es1 as [|[m y] es1 IH]; simpl; [done|]. by case_bool_decide.
Qed.

Lemma remove_app n es1 es2 : remove n (es1 ++ es2) = remove n es1 ++ remove n es2.
Proof.
  induction es1 as [|[m y] es1 IH]; simpl; [done|].
  case_bool_decide; [done|]. simpl. by rewrite IH.
Qed.

(** * More on paths *)

Lemma in_dir_is_dir p f t t' : in_dir p f t = Some t' → ∃ es, t' = Dir es.
Proof.
  destruct t as [d|es0]; [by destruct p|]. destruct p as [|n p]; simpl.
  - destruct (f es0); [|done]. intros [= <-]. eauto.
  - destruct (find n es0); [|done]. cbn.
    destruct (in_dir p f n0); [|done]. intros [= <-]. eauto.
Qed.

Lemma in_dir_ext_at p f g t es :
  lookup p t = Some (Dir es) → f es = g es → in_dir p f t = in_dir p g t.
Proof.
  revert t. induction p as [|n p IH]; intros [d|es0] Hl Hfg; try done.
  - simplify_eq/=. by rewrite Hfg.
  - cbn [lookup] in Hl. cbn [in_dir].
    destruct (find n es0) as [sub|]; [|done]. cbn [mbind option_bind] in *.
    by rewrite (IH sub Hl Hfg).
Qed.

Lemma in_dir_id p f t es :
  lookup p t = Some (Dir es) → f es = Some es → in_dir p f t = Some t.
Proof.
  revert t. induction p as [|n p IH]; intros [d|es0] Hl Hf; try done.
  - simplify_eq/=. by rewrite Hf.
  - cbn [lookup] in Hl. cbn [in_dir].
    destruct (find n es0) as [sub|] eqn:Hn; [|done].
    cbn [mbind option_bind] in *.
    rewrite (IH sub Hl Hf). cbn. by rewrite put_same.
Qed.

Lemma in_dir_compose p f g t t1 :
  in_dir p f t = Some t1 →
  in_dir p g t1 = in_dir p (λ es, f es ≫= g) t.
Proof.
  revert t t1. induction p as [|n p IH]; intros [d|es0] t1 H; try done.
  - simpl in *. destruct (f es0) as [es1|]; [|done]. by simplify_eq/=.
  - cbn [in_dir] in *.
    destruct (find n es0) as [sub|] eqn:Hn; [|done].
    cbn [mbind option_bind] in *.
    destruct (in_dir p f sub) as [sub1|] eqn:Hs; [|done]. simplify_eq/=.
    rewrite find_put_eq. cbn [mbind option_bind]. rewrite (IH _ _ Hs).
    destruct (in_dir p (λ es, f es ≫= g) sub) as [sub2|]; [|done].
    cbn [mbind option_bind]. by rewrite put_put.
Qed.

(** A change below an entry of [p] is a change of that entry. *)
Lemma in_dir_deep p n q f t :
  in_dir (p ++ n :: q) f t
  = in_dir p (λ es, sub ← find n es; sub' ← in_dir q f sub;
                    Some (put n sub' es)) t.
Proof.
  revert t. induction p as [|a p IH]; intros [d|es0]; try done.
  - cbn [app in_dir]. by destruct (find n es0) as [sub|]; cbn;
      [destruct (in_dir q f sub)|].
  - cbn [app in_dir]. destruct (find a es0) as [sub|]; [|done]. cbn.
    by rewrite IH.
Qed.

(** Below an existing directory [mkdir_parents] makes one directory. *)
Lemma mkdir_parents_in_dir p n t es :
  lookup p t = Some (Dir es) →
  mkdir_parents (p ++ [n]) t
  = in_dir p (λ es, match find n es with
                    | None => Some (put n (Dir []) es)
                    | Some (Dir l) => Some es
                    | Some (File _) => None
                    end) t.
Proof.
  revert t. induction p as [|a p IH]; intros [d|es0] Hl; try done.
  - simplify_eq/=. destruct (find n es) as [[d|l]|] eqn:Hn; try done.
    cbn. by rewrite put_same.
  - cbn [lookup] in Hl. cbn [app mkdir_parents in_dir].
    destruct (find a es0) as [sub|]; [|done]. cbn [mbind option_bind default] in *.
    unfold id. by rewrite (IH sub Hl).
Qed.

(** A directory [mkdir_parents] had to make is empty and the last entry of
    its parent. *)
Lemma mkdir_parents_fresh p n t t' :
  lookup (p ++ [n]) t = None → mkdir_parents (p ++ [n]) t = Some t' →
  ∃ B, lookup p t' = Some (Dir (B ++ [(n, Dir [])])) ∧ find n B = None.
Proof.
  revert t t'. induction p as [|a p IH]; intros [d|es0] t' Hl H; try done.
  - cbn [app lookup mkdir_parents] in *.
    destruct (find n es0) as [x|] eqn:Hn; [done|]. simplify_eq/=.
    exists es0. by rewrite put_new.
  - cbn [app lookup mkdir_parents] in *.
    destruct (mkdir_parents (p ++ [n]) _) as [sub|] eqn:Hs; [|done].
    simplify_eq/=. rewrite find_put_eq. cbn. eapply IH; [|done].
    destruct (find a es0) as [x|]; [done|]. cbn. by destruct p.
Qed.

Lemma rmtree_gone dir n t t' :
  rmtree dir n t = Some t' → lookup (dir ++ [n]) t' = None.
Proof.
  intros (es & es' & H1 & H2 & H3)%in_dir_lookup. cbv beta in H2.
  rewrite lookup_app, H3. cbn.
  destruct (find n es) as [[d|l]|]; simplify_eq. by rewrite find_remove_eq.
Qed.

(** * The reset of the destination root *)

Lemma lookup_assets t es :
  lookup DOCS_BLOGS_DIR t = Some (Dir es) →
  lookup DOCS_ASSETS_DIR t = find "assets" es.
Proof.
  intros H. unfold DOCS_ASSETS_DIR. rewrite lookup_app, H. cbn.
  by destruct (find _ es).
Qed.

Lemma reset_assets_fresh fs fs2 :
  reset_assets fs = Some fs2 →
  ∃ B, lookup DOCS_BLOGS_DIR fs2 = Some (Dir (B ++ [("assets" : str, Dir [])]))
       ∧ find "assets" B = None.
Proof.
  unfold reset_assets. intros H.
  destruct (exists_ DOCS_ASSETS_DIR fs) eqn:He.
  - destruct (rmtree DOCS_BLOGS_DIR "assets" fs) as [fs1|] eqn:Hr; [|done].
    cbn [mbind option_bind] in H. apply rmtree_gone in Hr.
    by eapply (mkdir_parents_fresh DOCS_BLOGS_DIR "assets").
  - cbn [mbind option_bind] in H.
    eapply (mkdir_parents_fresh DOCS_BLOGS_DIR "assets"); [|done].
    unfold exists_ in He. apply bool_decide_eq_false in He.
    destruct (lookup _ fs) eqn:E; [|done]. destruct He. by eexists.
Qed.

Lemma reset_assets_empty fs fs2 :
  reset_assets fs = Some fs2 → lookup DOCS_ASSETS_DIR fs2 = Some (Dir []).
Proof.
  intros (B & HB & Hn)%reset_assets_fresh.
  rewrite (lookup_assets _ _ HB), find_entry_app, Hn. cbn.
  by rewrite bool_decide_true.
Qed.

(** Whatever the destination root holds, the reset brings back the same
    state. *)
Lemma reset_with_assets fs2 B L fsL :
  lookup DOCS_BLOGS_DIR fs2 = Some (Dir (B ++ [("assets" : str, Dir [])])) →
  find "assets" B = None →
  with_assets L fs2 = Some fsL →
  reset_assets fsL = Some fs2.
Proof.
  intros HB Hn HL. unfold reset_assets.
  pose proof HL as (es & es' & H1 & H2 & H3)%in_dir_lookup.
  assert (es = B ++ [("assets" : str, Dir [])]) as -> by congruence.
  assert (es' = put "assets" (Dir L) (B ++ [("assets" : str, Dir [])])) as ->
    by congruence.
  assert (Hf : find "assets" (put "assets" (Dir L) (B ++ [("assets" : str, Dir [])]))
               = Some (Dir L)) by apply find_put_eq.
  assert (exists_ DOCS_ASSETS_DIR fsL = true) as ->.
  { unfold exists_. apply bool_decide_eq_true.
    rewrite (lookup_assets _ _ H3), Hf. by eexists. }
  assert (Hrm : rmtree DOCS_BLOGS_DIR "assets" fsL
                = in_dir DOCS_BLOGS_DIR (λ _, Some B) fs2).
  { unfold rmtree. rewrite (in_dir_compose _ _ _ _ _ HL).
    apply (in_dir_ext_at _ _ _ _ _ HB). cbn [mbind option_bind].
    rewrite Hf, remove_put, remove_app, remove_absent by done.
    cbn. by rewrite bool_decide_true, app_nil_r. }
  rewrite Hrm.
  destruct (in_dir_total DOCS_BLOGS_DIR (λ _, Some B) fs2 _ HB) as [fsR HR];
    [by eexists|].
  rewrite HR. cbn [mbind option_bind].
  pose proof HR as (? & esR & _ & HeR & HlR)%in_dir_lookup.
  assert (esR = B) as -> by congruence.
  unfold DOCS_ASSETS_DIR. rewrite (mkdir_parents_in_dir _ _ _ _ HlR).
  rewrite (in_dir_compose _ _ _ _ _ HR).
  apply (in_dir_id _ _ _ _ HB). cbn [mbind option_bind].
  by rewrite Hn, put_new.
Qed.

(** * Changes below the destination root *)

Lemma with_assets_lookup L t t' :
  with_assets L t = Some t' → lookup DOCS_ASSETS_DIR t' = Some (Dir L).
Proof.
  intros (es & es' & H1 & H2 & H3)%in_dir_lookup. simplify_eq.
  by rewrite (lookup_assets _ _ H3), find_put_eq.
Qed.

Lemma with_assets_same L t :
  lookup DOCS_ASSETS_DIR t = Some (Dir L) → with_assets L t = Some t.
Proof.
  unfold DOCS_ASSETS_DIR. rewrite lookup_app.
  destruct (lookup DOCS_BLOGS_DIR t) as [[d|es]|] eqn:E; try done.
  cbn [mbind option_bind lookup].
  destruct (find "assets" es) as [x|] eqn:Hf; [|done].
  cbn [mbind option_bind]. intros [= ->].
  apply (in_dir_id _ _ _ _ E). by rewrite put_same.
Qed.

Lemma with_assets_trans L1 L2 t t1 t2 :
  with_assets L1 t = Some t1 → with_assets L2 t1 = Some t2 →
  with_assets L2 t = Some t2.
Proof.
  unfold with_assets. intros H1 H2.
  rewrite (in_dir_compose _ _ _ _ _ H1) in H2. rewrite <-H2.
  pose proof H1 as (es & ? & Hl & _)%in_dir_lookup.
  apply (in_dir_ext_at _ _ _ _ _ Hl). cbn [mbind option_bind].
  by rewrite put_put.
Qed.

(** A change of a directory at or below the destination root changes the
    root's listing and nothing else; the names the root lists stay. *)
Lemma in_dir_assets q f t t' L0 :
  in_dir (DOCS_ASSETS_DIR ++ q) f t = Some t' →
  lookup DOCS_ASSETS_DIR t = Some (Dir L0) →
  ∃ L1, with_assets L1 t = Some t' ∧ in_dir q f (Dir L0) = Some (Dir L1).
Proof.
  unfold DOCS_ASSETS_DIR. rewrite <-app_assoc. cbn [app].
  rewrite in_dir_deep. intros H Hl.
  pose proof H as (es & es' & H1 & H2 & H3)%in_dir_lookup.
  cbv beta in H2. rewrite lookup_app, H1 in Hl.
  cbn [mbind option_bind lookup] in Hl.
  destruct (find "assets" es) as [x|] eqn:Hf; [|done].
  cbn [mbind option_bind] in Hl, H2. injection Hl as ->.
  destruct (in_dir q f (Dir L0)) as [sub'|] eqn:Hs; [|done].
  cbn [mbind option_bind] in H2. injection H2 as <-.
  destruct (in_dir_is_dir _ _ _ _ Hs) as [L1 ->].
  exists L1. split; [|done]. rewrite <-H. unfold with_assets.
  apply (in_dir_ext_at _ _ _ _ _ H1). rewrite Hf.
  cbn [mbind option_bind]. by rewrite Hs.
Qed.

(** * Populating the destination root *)

Lemma write_file_assets q name data t t' L0 :
  write_file (DOCS_ASSETS_DIR ++ q) name data t = Some t' →
  lookup DOCS_ASSETS_DIR t = Some (Dir L0) → q ≠ [] →
  ∃ L1, with_assets L1 t = Some t' ∧ names_from L1 L0 (λ _, False).
Proof.
  intros H Hl Hq. destruct (in_dir_assets _ _ _ _ _ H Hl) as (L1 & HL & Hin).
  exists L1. split; [done|]. destruct q as [|id q]; [done|].
  cbn [in_dir] in Hin. destruct (find id L0) as [sub|] eqn:Hf; [|done].
  cbn [mbind option_bind] in Hin.
  destruct (in_dir q _ sub) as [sub'|]; [|done].
  cbn [mbind option_bind] in Hin. injection Hin as <-.
  intros n Hn. left. destruct (decide (n = id)) as [->|Hne].
  - by rewrite Hf.
  - by rewrite find_put_ne in Hn.
Qed.

Lemma copy_image_assets id t image t' L0 :
  copy_image id t image = Some t' →
  lookup DOCS_ASSETS_DIR t = Some (Dir L0) →
  ∃ L1, with_assets L1 t = Some t' ∧ names_from L1 L0 (λ _, False).
Proof.
  unfold copy_image. intros H Hl.
  destruct (find_image image t) as [root|].
  - unfold copy2 in H.
    destruct (file_data (root ++ [image]) t) as [data|]; [|done].
    cbn [mbind option_bind] in H.
    destruct (lookup ((DOCS_ASSETS_DIR ++ [id]) ++ [image]) t) as [[d|es]|].
    + by eapply (write_file_assets [id]).
    + rewrite <-app_assoc in H. by eapply (write_file_assets ([id] ++ [image])).
    + by eapply (write_file_assets [id]).
  - injection H as <-. exists L0. split; [by apply with_assets_same|].
    intros n Hn. by left.
Qed.

Lemma copy_images_assets id images t t' L0 :
  foldM (copy_image id) t images = Some t' →
  lookup DOCS_ASSETS_DIR t = Some (Dir L0) →
  ∃ L1, with_assets L1 t = Some t' ∧ names_from L1 L0 (λ _, False).
Proof.
  revert t L0. induction images as [|image images IH]; intros t L0 H Hl.
  - injection H as <-. exists L0. split; [by apply with_assets_same|].
    intros n Hn. by left.
  - cbn [foldM] in H.
    destruct (copy_image id t image) as [t1|] eqn:Hc; [|done].
    cbn [mbind option_bind] in H.
    destruct (copy_image_assets _ _ _ _ _ Hc Hl) as (L1 & H1 & Hn1).
    destruct (IH _ _ H (with_assets_lookup _ _ _ H1)) as (L2 & H2 & Hn2).
    exists L2. split; [by eapply with_assets_trans|].
    intros n Hn. destruct (Hn2 n Hn) as [Hn'|[]]. by apply Hn1.
Qed.

Lemma organize_post_assets t p t' L0 :
  organize_post t p = Some t' →
  lookup DOCS_ASSETS_DIR t = Some (Dir L0) →
  ∃ L1, with_assets L1 t = Some t'
        ∧ names_from L1 L0 (λ n, n = post_id p ∧ post_images p ≠ []).
Proof.
  unfold organize_post. intros H Hl.
  destruct (post_images p) as [|image images] eqn:Hi.
  - injection H as <-. exists L0. split; [by apply with_assets_same|].
    intros n Hn. by left.
  - destruct (mkdir_exist_ok DOCS_ASSETS_DIR (post_id p) t) as [t1|] eqn:Hm;
      [|done].
    cbn [mbind option_bind] in H. unfold mkdir_exist_ok in Hm.
    rewrite <-(app_nil_r DOCS_ASSETS_DIR) in Hm.
    destruct (in_dir_assets _ _ _ _ _ Hm Hl) as (L1 & H1 & Hin).
    destruct (copy_images_assets _ _ _ _ _ H (with_assets_lookup _ _ _ H1))
      as (L2 & H2 & Hn2).
    exists L2. split; [by eapply with_assets_trans|].
    intros n Hn. destruct (Hn2 n Hn) as [Hn'|[]].
    cbn [in_dir] in Hin.
    destruct (find (post_id p) L0) as [[d|l]|] eqn:Hf; simplify_eq/=.
    + by left.
    + destruct (decide (n = post_id p)) as [->|Hne]; [by right|].
      left. by rewrite find_put_ne in Hn'.
Qed.

Lemma populate_assets posts t t' L0 :
  foldM organize_post t posts = Some t' →
  lookup DOCS_ASSETS_DIR t = Some (Dir L0) →
  ∃ L1, with_assets L1 t = Some t'
        ∧ names_from L1 L0
            (λ n, ∃ p, p ∈ posts ∧ n = post_id p ∧ post_images p ≠ []).
Proof.
  revert t L0. induction posts as [|p posts IH]; intros t L0 H Hl.
  - injection H as <-. exists L0. split; [by apply with_assets_same|].
    intros n Hn. by left.
  - cbn [foldM] in H.
    destruct (organize_post t p) as [t1|] eqn:Hp; [|done].
    cbn [mbind option_bind] in H.
    destruct (organize_post_assets _ _ _ _ Hp Hl) as (L1 & H1 & Hn1).
    destruct (IH _ _ H (with_assets_lookup _ _ _ H1)) as (L2 & H2 & Hn2).
    exists L2. split; [by eapply with_assets_trans|].
    intros n Hn. destruct (Hn2 n Hn) as [Hn'|(q & Hq & ? & ?)].
    + destruct (Hn1 n Hn') as [?|[? ?]]; [by left|].
      right. exists p. split; [left|done].
    + right. exists q. split; [by right|done].
Qed.

(** * The organizer *)

Lemma organize_assets_unfold posts fs :
  organize_assets posts fs
  = if negb (exists_ source_assets fs) then Some fs
    else reset_assets fs ≫= (λ fs, foldM organize_post fs posts).
Proof.
  unfold organize_assets, reset_assets.
  destruct (negb _); [done|].
  destruct (exists_ DOCS_ASSETS_DIR fs); [|done].
  by destruct (rmtree _ _ fs).
Qed.

Lemma with_assets_blogs L t t' q :
  with_assets L t = Some t' →
  lookup (BLOGS_DIR ++ q) t' = lookup (BLOGS_DIR ++ q) t.
Proof.
  intros H.
  apply (in_dir_lookup_other [] "docs" ["blogs" : str] "blogs" q _ _ _ H).
  apply blogs_docs.
Qed.

Lemma reset_assets_blogs fs fs2 q :
  reset_assets fs = Some fs2 →
  lookup (BLOGS_DIR ++ q) fs2 = lookup (BLOGS_DIR ++ q) fs.
Proof.
  unfold reset_assets. intros H.
  assert (Hm : ∀ t t', mkdir_parents DOCS_ASSETS_DIR t = Some t' →
            lookup (BLOGS_DIR ++ q) t' = lookup (BLOGS_DIR ++ q) t).
  { intros t t' Hm.
    apply (mkdir_parents_other "docs" ["blogs" : str; "assets" : str] "blogs" q _ _ Hm).
    apply blogs_docs. }
  destruct (exists_ DOCS_ASSETS_DIR fs).
  - destruct (rmtree DOCS_BLOGS_DIR "assets" fs) as [fs1|] eqn:Hr; [|done].
    cbn [mbind option_bind] in H. rewrite (Hm _ _ H).
    apply (in_dir_lookup_other [] "docs" ["blogs" : str] "blogs" q _ _ _ Hr).
    apply blogs_docs.
  - by apply Hm.
Qed.

(** A run that completes is the reset followed by the population of the
    empty destination root; the state it reaches is of the form
    [with_assets]. *)
Lemma organize_assets_inv posts fs fs' :
  organize_assets posts fs = Some fs' →
  exists_ source_assets fs = true →
  ∃ fs2 L, reset_assets fs = Some fs2 ∧
           foldM organize_post fs2 posts = Some fs' ∧
           with_assets L fs2 = Some fs' ∧
           names_from L []
             (λ n, ∃ p, p ∈ posts ∧ n = post_id p ∧ post_images p ≠ []).
Proof.
  rewrite organize_assets_unfold. intros H He. rewrite He in H.
  cbn [negb] in H.
  destruct (reset_assets fs) as [fs2|] eqn:Hr; [|done].
  cbn [mbind option_bind] in H.
  destruct (populate_assets _ _ _ _ H (reset_assets_empty _ _ Hr))
    as (L & HL & Hn).
  by exists fs2, L.
Qed.

(** Running the organizer on its own output changes nothing. *)
Lemma organize_assets_again posts fs fs' :
  organize_assets posts fs = Some fs' → organize_assets posts fs' = Some fs'.
Proof.
  intros H. destruct (exists_ source_assets fs) eqn:He.
  - destruct (organize_assets_inv _ _ _ H He) as (fs2 & L & Hr & Hp & HL & _).
    destruct (reset_assets_fresh _ _ Hr) as (B & HB & Hn).
    rewrite organize_assets_unfold.
    assert (exists_ source_assets fs' = true) as ->.
    { unfold exists_ in *. unfold source_assets.
      by rewrite (with_assets_blogs _ _ _ _ HL), (reset_assets_blogs _ _ _ Hr). }
    cbn [negb]. rewrite (reset_with_assets _ _ _ _ HB Hn HL).
    by cbn [mbind option_bind].
  - rewrite organize_assets_unfold in H. rewrite He in H. cbn [negb] in H.
    assert (fs' = fs) as -> by congruence.
    rewrite organize_assets_unfold. by rewrite He.
Qed.

(** * The properties of the specification *)

(** ** Image references *)

(** C1.  For every text, [extract_images] is the list of the names of the
    embed-bracket occurrences [![[NAME]]] followed by the list of the names
    of the standard-link occurrences [![ALT](TARGET)], a leading [assets/]
    of the target dropped.  Each list is in order of appearance: its
    occurrences lie in the text from left to right without overlap, each
    is an occurrence of its syntax, and every position where the syntax
    occurs is inside one of them, so none is left out.  A link occurrence
    ends at the first place it can: its alternative text is the shortest
    with which a link starts at its position, and its target runs to the
    next closing parenthesis, so two links on a line are two occurrences.
    The two groups are not interleaved, whatever their order in the text,
    and a name that occurs twice is listed twice. *)
Theorem extract_images_embeds_then_links :
  (∀ content, ∃ es ls : list occurrence,
      extract_images_from_markdown content = (name <$> es) ++ (name <$> ls)
      ∧ laid_out content 0 es ∧ laid_out content 0 ls
      ∧ Forall (λ o, embed_name (name o) ∧ text o = embed_text (name o)) es
      ∧ Forall (λ o, ∃ alt target, link_parts alt target ∧
                       text o = link_text alt target ∧
                       name o = strip_assets target ∧
                       shortest_alt (drop (pos o) content) alt) ls
      ∧ (∀ i n r, embed_name n →
           drop i content = embed_text n ++ r → covered es i)
      ∧ (∀ i alt target r, link_parts alt target →
           drop i content = link_text alt target ++ r → covered ls i))
  ∧ extract_images_from_markdown "![[a.png]] and ![b](assets/c.png)"
    = ["a.png" : str; "c.png" : str]
  ∧ extract_images_from_markdown "![b](assets/c.png) and ![[a.png]]"
    = ["a.png" : str; "c.png" : str]
  ∧ extract_images_from_markdown "![[a.png]] ![x](a.png) ![[a.png]]"
    = ["a.png" : str; "a.png" : str; "a.png" : str]
  ∧ extract_images_from_markdown "![a](b) ![c](d)" = ["b" : str; "d" : str]
  ∧ extract_images_from_markdown "![a](b) and (c) ![d](assets/e)"
    = ["b" : str; "e" : str].
Proof.
  split_and!; [|by vm_compute..].
  intros content.
  destruct (embeds_spec content) as (He & He1 & He2 & He3).
  destruct (links_spec content) as (Hl & Hl1 & Hl2 & Hl3).
  exists (occurrences 0 (pieces None obsidian_pattern content)),
         (occurrences 0 (pieces None standard_pattern content)).
  split_and!; [|done..].
  unfold extract_images_from_markdown. cbn [app]. by rewrite He, Hl.
Qed.

(** ** Normalization *)

(** C2.  The replacement of [convert_obsidian_images] is a template of
    [re.sub], and the document id is pasted into it as it is: a backslash
    in the id is read as an escape.  For the id [a\1] the embed [![[x]]]
    becomes [![](assets/ax/x)], not the link [![](assets/a\1/x)] the
    specification asks for, and for the id [a\q] the call raises. *)
Theorem convert_reads_the_id_as_a_template :
  convert_obsidian_images "![[x]]" "a\1" = Some ("![](assets/ax/x)" : str)
  ∧ asset_link "a\1" "x" = "![](assets/a\1/x)"
  ∧ convert_obsidian_images "![[x]]" "a\q" = None
  ∧ convert_obsidian_images "![[pic.jpg]]" "230615-post"
    = Some ("![](assets/230615-post/pic.jpg)" : str).
Proof. by vm_compute. Qed.

(** For a document id without a backslash, [convert_obsidian_images]
    rewrites every embed [![[NAME]]] of the text into
    [![](assets/ID/NAME)], the name as it stands, and copies every other
    character: the text is cut into copied characters and embeds, no copied
    character starts an embed, and the result is the same sequence with
    each embed rewritten.  A text in which no embed occurs, such as one in
    standard link syntax, is returned as it is. *)
Theorem convert_rewrites_every_embed markdown post_id :
  "\"%char ∉ post_id →
  (∃ segs,
      markdown = concat (source <$> segs)
      ∧ convert_obsidian_images markdown post_id
        = Some (concat (rewritten post_id <$> segs))
      ∧ Forall (λ g, match g with Embed n => embed_name n | Text _ => True end)
               segs
      ∧ no_embed_skipped segs)
  ∧ ((∀ j, ¬ embed_at_head (drop j markdown)) →
     convert_obsidian_images markdown post_id = Some markdown).
Proof.
  intros Hid. split.
  - destruct (pieces_segments markdown) as (H1 & H2 & H3).
    eexists. split_and!; [done| |done..].
    rewrite convert_pieces by done. by rewrite list_fmap_compose.
  - by apply convert_no_embed.
Qed.

Lemma convert_rewrites_every_embed_witness :
  convert_obsidian_images "![x](y.png)" "230615-post"
  = Some ("![x](y.png)" : str).
Proof.
  refine (proj2 (convert_rewrites_every_embed "![x](y.png)" "230615-post" _) _).
  - not_in_lit.
  - intros j. apply obsidian_None with (ma := false).
    do 12 (destruct j as [|j]; [by vm_compute|]).
    by rewrite drop_ge by (simpl; lia).
Defined.

(** C3 (counterexample).  Normalizing the output of normalization can
    change it again: the embed [![[a![[b]]] leaves an opening [![[] in the
    rewritten link, which the second pass closes with the []]] that follows
    it. *)
Lemma normalize_twice_differs :
  convert_obsidian_images "![[a![[b]]c]]" "id"
  = Some ("![](assets/id/a![[b)c]]" : str)
  ∧ convert_obsidian_images "![](assets/id/a![[b)c]]" "id"
    = Some ("![](assets/id/a![](assets/id/b)c)" : str)
  ∧ ("![](assets/id/a![](assets/id/b)c)" : str)
    ≠ ("![](assets/id/a![[b)c]]" : str).
Proof. by vm_compute. Qed.

(** C3 (amended).  For a document id without a backslash, normalization
    is the identity on every text in which no embed occurs, and it is
    idempotent on every text whose embedded names, like the id, contain no
    opening [![[]. *)
Theorem normalize_idempotent markdown post_id :
  "\"%char ∉ post_id →
  ((∀ j, ¬ embed_at_head (drop j markdown)) →
   convert_obsidian_images markdown post_id = Some markdown)
  ∧ (has_open post_id = false →
     Forall (λ n, has_open n = false) (findall obsidian_pattern markdown) →
     is_Some (convert_obsidian_images markdown post_id)
     ∧ convert_obsidian_images markdown post_id
         ≫= (λ once, convert_obsidian_images once post_id)
       = convert_obsidian_images markdown post_id).
Proof.
  intros Hid. split.
  - by apply convert_no_embed.
  - intros Ho Hn. split; [|by apply convert_twice].
    rewrite convert_pieces by done. by eexists.
Qed.

Lemma normalize_idempotent_witness :
  convert_obsidian_images "![[pic.jpg]] and ![x](y.png)" "230615-post"
    ≫= (λ once, convert_obsidian_images once "230615-post")
  = convert_obsidian_images "![[pic.jpg]] and ![x](y.png)" "230615-post".
Proof.
  refine (proj2 (proj2 (normalize_idempotent
            "![[pic.jpg]] and ![x](y.png)" "230615-post" _) _ _)).
  - not_in_lit.
  - by vm_compute.
  - vm_compute. by repeat constructor.
Defined.

(** ** Dates *)

Lemma leading_digits_six stem :
  6 ≤ leading_digits stem ↔ is_Some (date_of_stem stem).
Proof.
  unfold date_of_stem.
  destruct stem as [|d1 [|d2 [|d3 [|d4 [|d5 [|d6 rest]]]]]]; cbn [leading_digits forallb].
  all: repeat match goal with
         | |- context [isdecimal ?d] => destruct (isdecimal d); cbn [andb]
         end.
  all: split; intros H; try lia; try (by destruct H); try (by eexists).
Qed.

(** C4 (counterexample).  A stem that begins with seven digits, not
    exactly six, still yields a date. *)
Lemma parse_date_seven_digits :
  leading_digits "2306150" = 7
  ∧ parse_date_from_filename "2306150" = Some ("2023-06-15" : str).
Proof. by vm_compute. Qed.

(** C4 (amended).  [parse_date] returns a date exactly when the stem begins
    with at least six digits: the first six characters d1 .. d6, when all
    are digits, give "20" d1 d2 "-" d3 d4 "-" d5 d6, whatever follows and
    whatever month or day they spell, and every other stem gives
    nothing. *)
Theorem parse_date_first_six_digits :
  (∀ stem, parse_date_from_filename stem = date_of_stem stem)
  ∧ (∀ stem, is_Some (parse_date_from_filename stem) ↔ 6 ≤ leading_digits stem)
  ∧ (∀ d1 d2 d3 d4 d5 d6 rest,
       parse_date_from_filename (d1 :: d2 :: d3 :: d4 :: d5 :: d6 :: rest)
       = if forallb isdecimal [d1; d2; d3; d4; d5; d6]
         then Some ("20" ++ [d1; d2] ++ "-" ++ [d3; d4] ++ "-" ++ [d5; d6])
         else None)
  ∧ parse_date_from_filename "230615-my-post" = Some ("2023-06-15" : str)
  ∧ parse_date_from_filename "notadate" = None
  ∧ parse_date_from_filename "239999" = Some ("2023-99-99" : str).
Proof.
  split_and!.
  - apply parse_date_date_of_stem.
  - intros stem. rewrite parse_date_date_of_stem. symmetry.
    apply leading_digits_six.
  - intros. by rewrite parse_date_date_of_stem.
  - by vm_compute.
  - by vm_compute.
  - by vm_compute.
Qed.

(** ** Titles *)

(** C5.  [extract_title] returns the title of the specification: with the
    first non-blank line a heading, that line without its leading [#]
    characters and surrounding whitespace; otherwise the first line that
    is not blank and starts with neither image syntax, cut to 50
    characters; nothing when there is no such line. *)
Theorem extract_title_is_title_of :
  (∀ content, extract_title_from_markdown content = title_of content)
  ∧ extract_title_from_markdown ("# Hello World" ++ ["010"%char] ++ "text")
    = Some ("Hello World" : str)
  ∧ extract_title_from_markdown
      (["010"%char] ++ "![[a.png]]" ++ ["010"%char] ++ "  first words  "
       ++ ["010"%char] ++ "# late heading")
    = Some ("first words" : str)
  ∧ extract_title_from_markdown
      "0123456789012345678901234567890123456789012345678901234567890123456789"
    = Some ("01234567890123456789012345678901234567890123456789" : str)
  ∧ extract_title_from_markdown ("  " ++ ["010"%char] ++ "![](a.png)") = None.
Proof.
  split_and!; [apply extract_title_title_of|by vm_compute..].
Qed.

(** ** The document processor *)

Lemma processableb_sound fs : processableb fs = true → processable fs.
Proof.
  unfold processableb, processable. intros H.
  apply andb_prop in H as [H1 H2]. apply bool_decide_eq_true in H1.
  split; [done|]. intros name Hn.
  rewrite forallb_forall in H2.
  specialize (H2 name (proj1 (list_elem_of_In _ _) Hn)).
  apply andb_prop in H2 as [H2 H3]. apply andb_prop in H2 as [H2 H4].
  apply bool_decide_eq_true in H2. apply bool_decide_eq_true in H4.
  split_and!; [done..|]. intros [es He]. by rewrite He in H3.
Qed.

Lemma record_of_Some name content p :
  record_of name content = Some p ↔
  ∃ date c title,
    parse_date_from_filename (stem name) = Some date
    ∧ extract_title_from_markdown content = Some (c :: title)
    ∧ p = Post (stem name) date (c :: title)
               (extract_images_from_markdown content).
Proof.
  unfold record_of.
  destruct (parse_date_from_filename (stem name)) as [d|];
    destruct (extract_title_from_markdown content) as [[|c t]|]; split;
    try (intros [=]); try (intros (? & ? & ? & [=] & [=] & ?)).
  - subst. by eexists _, _, _.
  - by subst.
Qed.

Lemma omap_record_ids (f : str → option post) (names : list str) :
  (∀ name p, f name = Some p → post_id p = stem name) →
  post_id <$> omap f names = stem <$> filter (λ name, is_Some (f name)) names.
Proof.
  intros Hf. induction names as [|n names IH]; [done|].
  cbn [omap list_omap]. rewrite filter_cons.
  destruct (f n) as [p|] eqn:E.
  - rewrite decide_True by done. cbn. rewrite IH. f_equal. by eapply Hf.
  - rewrite decide_False by (by intros [??]). apply IH.
Qed.

Lemma omap_skip {A B} `{EqDecision A} (f : A → option B) a (l : list A) :
  f a = None → omap f l = omap f (filter (λ x, x ≠ a) l).
Proof.
  intros Ha. induction l as [|x l IH]; [done|].
  cbn [omap list_omap]. rewrite filter_cons.
  destruct (decide (x ≠ a)) as [Hx|Hx].
  - cbn [omap list_omap]. by rewrite IH.
  - apply dec_stable in Hx. subst x. by rewrite Ha.
Qed.

Lemma heading_only_title content :
  heading_only content → title_of content = Some [].
Proof.
  intros (first & Hf & Hc). unfold title_of. cbv zeta. rewrite Hf.
  assert (Hl : lstrip_char "#" first = []).
  { clear Hf. induction first as [|c first IH]; [done|].
    cbn [lstrip_char]. rewrite (Hc c) by left. rewrite eqc_refl.
    apply IH. intros d Hd. apply Hc. by right. }
  apply find_some in Hf as [_ Hb]. unfold is_blank in Hb.
  destruct first as [|c first]; [done|].
  rewrite (Hc c) by left.
  replace (startswith "#" ("#"%char :: first)) with true by done.
  rewrite (Hc c) in Hl by left. by rewrite Hl.
Qed.

(** C6 (counterexample).  Of the two documents of the small site, the
    second has a date and a title, the empty one its heading marker
    leaves, and yet no record: the run returns the record of the first
    document alone. *)
Lemma empty_title_has_no_record :
  extract_title_from_markdown (content_of demo_fs "230102-b.md") = Some []
  ∧ parse_date_from_filename (stem "230102-b.md") = Some ("2023-01-02" : str)
  ∧ documents demo_fs = ["230102-b.md" : str; "230101-a.md" : str]
  ∧ fst <$> process_markdown_files demo_fs = Some demo_posts.
Proof. by vm_compute. Qed.

(** C6 (amended).  Every run that completes returns, in the order of the
    documents, the record of every document whose date resolves and whose
    title resolves to a non-empty string, and of no other; and it has
    written the normalized text of every document, with or without a
    record, under its name in the output directory.  A run over
    processable input does complete. *)
Theorem record_iff_date_and_nonempty_title fs :
  (∀ posts fs',
     process_markdown_files fs = Some (posts, fs') →
     posts = omap (λ name, record_of name (content_of fs name)) (documents fs)
     ∧ (∀ p, p ∈ posts ↔
          ∃ name date c title,
            name ∈ documents fs
            ∧ parse_date_from_filename (stem name) = Some date
            ∧ extract_title_from_markdown (content_of fs name)
              = Some (c :: title)
            ∧ p = Post (stem name) date (c :: title)
                       (extract_images_from_markdown (content_of fs name)))
     ∧ (∀ name, name ∈ documents fs →
          ∃ out,
            convert_obsidian_images (content_of fs name) (stem name)
            = Some out
            ∧ file_data (DOCS_BLOGS_DIR ++ [name]) fs' = Some out))
  ∧ (∀ name content p,
       record_of name content = Some p ↔
       ∃ date c title,
         parse_date_from_filename (stem name) = Some date
         ∧ extract_title_from_markdown content = Some (c :: title)
         ∧ p = Post (stem name) date (c :: title)
                    (extract_images_from_markdown content))
  ∧ (processable fs → is_Some (process_markdown_files fs)).
Proof.
  split_and!.
  - intros posts fs' E.
    destruct (process_markdown_files_inv _ _ _ E) as (H1 & H2 & _).
    split_and!; [done| |done].
    intros p. rewrite H1, list_elem_of_omap. split.
    + intros (name & Hn & Hr).
      apply record_of_Some in Hr as (date & c & title & Hd & Ht & ->).
      by exists name, date, c, title.
    + intros (name & date & c & title & Hn & Hd & Ht & ->).
      exists name. split; [done|]. apply record_of_Some.
      by exists date, c, title.
  - apply record_of_Some.
  - apply process_markdown_files_total.
Qed.

Lemma record_iff_date_and_nonempty_title_witness :
  ∃ posts fs',
    process_markdown_files demo_escape_fs = Some (posts, fs')
    ∧ posts = [Post "230101\n" "2023-01-01" "T" ["p.png" : str]]
    ∧ posts = omap (λ name, record_of name (content_of demo_escape_fs name))
                   (documents demo_escape_fs)
    ∧ (∀ name, name ∈ documents demo_escape_fs →
         ∃ out,
           convert_obsidian_images (content_of demo_escape_fs name)
                                   (stem name) = Some out
           ∧ file_data (DOCS_BLOGS_DIR ++ [name]) fs' = Some out)
    ∧ file_data (DOCS_BLOGS_DIR ++ ["230101\n.md" : str]) fs'
      = Some ("# T" ++ ["010"%char] ++ "![](assets/230101"
              ++ ["010"%char] ++ "/p.png)").
Proof.
  destruct (process_markdown_files demo_escape_fs) as [[posts fs']|] eqn:E;
    [|by vm_compute in E].
  exists posts, fs'.
  destruct (record_iff_date_and_nonempty_title demo_escape_fs) as (H & _ & _).
  destruct (H posts fs' E) as (H1 & _ & H3).
  vm_compute in E. injection E as <- <-.
  split_and!; [done|done|done|done|by vm_compute].
Defined.

(** C7.  The documents of a run are the names that end with the
    extension, taken from the corpus directory itself and sorted
    downwards in Python's order on strings: no document is followed by a
    greater one.  The records a run returns are those of the documents
    that have one, in that order: their ids are the stems of the
    documents with a record, a sublist of the stems of all documents, so
    that leaving documents out reorders nothing.  A run over processable
    input returns such a sequence.  Of a corpus that its directory lists
    in another order, the documents and the ids of the records come out
    latest first. *)
Theorem records_in_descending_filename_order :
  (∀ fs,
     (∀ posts fs',
        process_markdown_files fs = Some (posts, fs') →
        (post_id <$> posts : list str)
        = stem <$> filter (λ name,
                     is_Some (record_of name (content_of fs name)))
                   (documents fs)
        ∧ sublist (post_id <$> posts : list str) (stem <$> documents fs))
     ∧ descending (documents fs)
     ∧ documents fs ≡ₚ glob_suffix BLOGS_DIR ".md" fs
     ∧ (∀ name, name ∈ documents fs ↔
          endswith ".md" name = true
          ∧ ∃ es, lookup BLOGS_DIR fs = Some (Dir es) ∧ name ∈ es.*1)
     ∧ (processable fs → is_Some (process_markdown_files fs)))
  ∧ glob_suffix BLOGS_DIR ".md" demo_order_fs
    = ["230102-b.md" : str; "230103-c.md" : str; "230101-a.md" : str;
       "about.md" : str; "230102.md" : str]
  ∧ documents demo_order_fs
    = ["about.md" : str; "230103-c.md" : str; "230102.md" : str;
       "230102-b.md" : str; "230101-a.md" : str]
  ∧ (λ r : list post * node, (post_id <$> r.1 : list str))
      <$> process_markdown_files demo_order_fs
    = Some ["230103-c" : str; "230102" : str; "230102-b" : str;
            "230101-a" : str].
Proof.
  split_and!; [|by vm_compute..].
  intros fs. split_and!.
  - intros posts fs' E.
    destruct (process_markdown_files_inv _ _ _ E) as (-> & _ & _).
    assert (Hids :
      post_id <$> omap (λ name, record_of name (content_of fs name))
                       (documents fs)
      = stem <$> filter (λ name,
                   is_Some (record_of name (content_of fs name)))
                 (documents fs)).
    { apply omap_record_ids. intros name p Hr.
      apply record_of_Some in Hr as (? & ? & ? & _ & _ & ->). done. }
    split; [done|]. rewrite Hids. apply fmap_sublist, sublist_filter.
  - apply sorted_desc_descending.
  - apply sorted_desc_Permutation.
  - intros name. unfold documents. rewrite sorted_desc_Permutation.
    unfold glob_suffix. destruct (lookup BLOGS_DIR fs) as [[d|es]|] eqn:El.
    + split; [by intros ?%elem_of_nil|by intros (_ & ? & [=] & _)].
    + rewrite list_elem_of_filter. split.
      * intros [? ?]. split; [done|by exists es].
      * intros (? & es' & [= <-] & ?). done.
    + split; [by intros ?%elem_of_nil|by intros (_ & ? & [=] & _)].
  - apply process_markdown_files_total.
Qed.

Lemma records_in_descending_filename_order_witness :
  ∃ posts,
    fst <$> process_markdown_files demo_order_fs = Some posts
    ∧ post_id <$> posts
      = ["230103-c" : str; "230102" : str; "230102-b" : str;
         "230101-a" : str]
    ∧ post_id <$> posts
      = stem <$> filter (λ name,
                   is_Some (record_of name (content_of demo_order_fs name)))
                 (documents demo_order_fs)
    ∧ sublist (post_id <$> posts) (stem <$> documents demo_order_fs)
    ∧ descending (documents demo_order_fs).
Proof.
  destruct records_in_descending_filename_order as (H & _).
  destruct (H demo_order_fs) as (H1 & H2 & _ & _ & H0).
  destruct H0 as [[posts fs'] E]; [apply processableb_sound; by vm_compute|].
  exists posts. destruct (H1 posts fs' E) as [H3 H4].
  split_and!; [by rewrite E| |done..].
  vm_compute in E. by injection E as <- _.
Defined.

(** C10.  A document whose first non-blank line is a heading marker and
    nothing else has the empty string as its title, not an absent one; the
    run returns the records of the other documents alone, and still writes
    the normalized text of this one. *)
Theorem heading_marker_alone_is_left_out fs name :
  processable fs → name ∈ documents fs →
  heading_only (content_of fs name) →
  extract_title_from_markdown (content_of fs name) = Some []
  ∧ record_of name (content_of fs name) = None
  ∧ ∃ posts fs' out,
      process_markdown_files fs = Some (posts, fs')
      ∧ posts = omap (λ n, record_of n (content_of fs n))
                     (filter (λ n, n ≠ name) (documents fs))
      ∧ convert_obsidian_images (content_of fs name) (stem name) = Some out
      ∧ file_data (DOCS_BLOGS_DIR ++ [name]) fs' = Some out.
Proof.
  intros Hp Hn Hh.
  assert (Ht : extract_title_from_markdown (content_of fs name) = Some []).
  { rewrite extract_title_title_of. by apply heading_only_title. }
  assert (Hr : record_of name (content_of fs name) = None).
  { unfold record_of. rewrite Ht. by destruct parse_date_from_filename. }
  split_and!; [done..|].
  destruct (process_markdown_files_total fs Hp) as [[posts fs'] E].
  destruct (process_markdown_files_inv _ _ _ E) as (H1 & H2 & _).
  destruct (H2 name Hn) as (out & Ho & Hw).
  exists posts, fs', out. split_and!; [done| |done..].
  rewrite H1. by apply (omap_skip (λ n, record_of n (content_of fs n))).
Qed.

Lemma heading_marker_alone_is_left_out_witness :
  extract_title_from_markdown (content_of demo_fs "230102-b.md") = Some []
  ∧ record_of "230102-b.md" (content_of demo_fs "230102-b.md") = None
  ∧ ∃ posts fs' out,
      process_markdown_files demo_fs = Some (posts, fs')
      ∧ posts = omap (λ n, record_of n (content_of demo_fs n))
                     (filter (λ n, n ≠ ("230102-b.md" : str))
                             (documents demo_fs))
      ∧ convert_obsidian_images (content_of demo_fs "230102-b.md")
                                (stem "230102-b.md") = Some out
      ∧ file_data (DOCS_BLOGS_DIR ++ ["230102-b.md" : str]) fs' = Some out.
Proof.
  apply (heading_marker_alone_is_left_out demo_fs "230102-b.md").
  - apply processableb_sound. by vm_compute.
  - vm_compute. left.
  - exists ("#" : str). split; [by vm_compute|].
    by intros c ->%list_elem_of_singleton.
Defined.

(** ** The asset organizer *)

(** C8.  With a source asset tree, and record ids that are single path
    components, a run of [organize_assets] that completes has first reset
    the destination root, to an empty directory, and populated it from
    there: what the destination root lists afterwards is named after a
    record with images, whatever it held before.  A second run on the
    result completes and leaves the file system as the first run left
    it. *)
Theorem organize_assets_resets_then_repeats posts fs fs' :
  Forall (λ p, plain_name (post_id p)) posts →
  exists_ source_assets fs = true →
  organize_assets posts fs = Some fs' →
  (∃ fs2 L,
      reset_assets fs = Some fs2
      ∧ lookup DOCS_ASSETS_DIR fs2 = Some (Dir [])
      ∧ foldM organize_post fs2 posts = Some fs'
      ∧ lookup DOCS_ASSETS_DIR fs' = Some (Dir L)
      ∧ ∀ n, is_Some (find n L) →
             ∃ p, p ∈ posts ∧ n = post_id p ∧ post_images p ≠ [])
  ∧ organize_assets posts fs' = Some fs'.
Proof.
  intros _ Hsrc Hrun. split; [|by eapply organize_assets_again].
  destruct (organize_assets_inv _ _ _ Hrun Hsrc) as (fs2 & L & H1 & H2 & H3 & H4).
  exists fs2, L. split_and!.
  - done.
  - by eapply reset_assets_empty.
  - done.
  - by eapply with_assets_lookup.
  - intros n Hn. destruct (H4 n Hn) as [[? [=]]|?]; done.
Qed.

Lemma organize_assets_resets_then_repeats_witness :
  ∃ fs',
    organize_assets demo_posts demo_fs = Some fs'
    ∧ organize_assets demo_posts fs' = Some fs'
    ∧ lookup (DOCS_ASSETS_DIR ++ ["stale" : str]) demo_fs
      = Some (Dir [("old.png" : str, File "OLD")])
    ∧ lookup DOCS_ASSETS_DIR fs'
      = Some (Dir [("230101-a" : str, Dir [("x.png" : str, File "PNG")])]).
Proof.
  destruct (organize_assets demo_posts demo_fs) as [fs'|] eqn:E;
    [|by vm_compute in E].
  exists fs'.
  assert (Hids : Forall (λ p, plain_name (post_id p)) demo_posts).
  { repeat constructor; try done. cbn. not_in_lit. }
  destruct (organize_assets_resets_then_repeats demo_posts demo_fs fs' Hids
              eq_refl E) as [_ H2].
  split_and!; [done|done|by vm_compute|].
  vm_compute in E. by injection E as <-.
Defined.

(** ** The metadata publisher *)

Lemma universal_newlines_id (s : str) :
  ("013"%char ∉ s) → universal_newlines s = s.
Proof.
  induction s as [|c s IH]; [done|]. intros H.
  apply not_elem_of_cons in H as [Hc Hs]. cbn [universal_newlines].
  rewrite (proj2 (eqc_false c "013")) by done. by rewrite IH.
Qed.

(** C9 (counterexample).  The script is read with universal newlines and
    written back as read: a target script whose first line ends in CR LF
    has that line ending stored as LF afterwards, outside the marker
    region. *)
Lemma update_blog_js_rewrites_line_endings :
  file_data blog_js_path demo_crlf_fs
  = Some ("a" ++ ["013"%char; "010"%char] ++ "postsMetadata: [ old ]" ++ " b")
  ∧ update_blog_js [] demo_crlf_fs ≫= file_data blog_js_path
    = Some ("a" ++ ["010"%char] ++ metadata_js [] ++ " b").
Proof. by vm_compute. Qed.

(** C9 (amended).  When the target script, read with universal newlines,
    is [pre ++ marker ++ post], where [marker] is a marker region (the
    token, blanks, and a bracketed list up to its first closing bracket)
    and no marker region starts within [pre], and the metadata block
    parses as a replacement template, [update_blog_js] completes and the
    script then holds [pre ++ new ++ post]: the first marker region alone
    is replaced, and [pre] and [post], with every later marker region in
    it, are the text that was read.  The new text is the metadata block
    itself when that holds no backslash, and the text read is the text the
    script held when that held no carriage return. *)
Theorem update_blog_js_replaces_first_marker
    posts fs data pre ws body post tpl :
  file_data blog_js_path fs = Some data →
  universal_newlines data = pre ++ marker_text ws body ++ post →
  marker_parts ws body →
  (∀ i, i < length pre →
     ¬ marker_at_head (drop i (pre ++ marker_text ws body ++ post))) →
  parse_template 0 (metadata_js posts) = Some tpl →
  ∃ fs' new,
    update_blog_js posts fs = Some fs'
    ∧ file_data blog_js_path fs' = Some (pre ++ new ++ post)
    ∧ new = expand tpl (Hit (marker_text ws body) [] post)
    ∧ (("\"%char ∉ metadata_js posts) → new = metadata_js posts)
    ∧ (("013"%char ∉ data) → data = pre ++ marker_text ws body ++ post).
Proof.
  intros Hdata Hread Hparts Hfirst Htpl.
  pose proof (new_blog_js_first posts pre ws body post tpl Htpl Hparts Hfirst)
    as Hnew.
  assert (Hr : read_file blog_js_path fs
               = Some (pre ++ marker_text ws body ++ post)).
  { apply read_file_data. by exists data. }
  destruct (update_blog_js_text _ _ _ _ Hr Hnew) as (fs' & Hu & Hw).
  exists fs', (expand tpl (Hit (marker_text ws body) [] post)).
  split_and!; [done..| |].
  - intros Hb. pose proof (parse_template_plain 0 _ Hb) as Hp.
    assert (Ht : tpl = (λ c, TLit [c]) <$> metadata_js posts) by congruence.
    rewrite Ht. apply expand_plain.
  - intros Hcr. by rewrite <-Hread, universal_newlines_id.
Qed.

Lemma update_blog_js_replaces_first_marker_witness :
  ∃ fs',
    update_blog_js demo_posts demo_fs = Some fs'
    ∧ file_data blog_js_path demo_fs
      = Some ("const blog = { " ++ "postsMetadata: [ old ]"
              ++ ", tags: [1] }; // postsMetadata: [ kept ]")
    ∧ file_data blog_js_path fs'
      = Some ("const blog = { " ++ metadata_js demo_posts
              ++ ", tags: [1] }; // postsMetadata: [ kept ]").
Proof.
  assert (Hb : "\"%char ∉ metadata_js demo_posts).
  { vm_compute. not_in_lit. }
  destruct (update_blog_js_replaces_first_marker demo_posts demo_fs
              ("const blog = { " ++ "postsMetadata: [ old ]"
               ++ ", tags: [1] }; // postsMetadata: [ kept ]")
              "const blog = { " " " " old "
              ", tags: [1] }; // postsMetadata: [ kept ]"
              ((λ c, TLit [c]) <$> metadata_js demo_posts))
    as (fs' & new & Hu & Hr & _ & Hn & _).
  - by vm_compute.
  - by vm_compute.
  - split; [by repeat constructor|not_in_lit].
  - intros i Hi. apply marker_None with (ma := false).
    do 15 (destruct i as [|i]; [by vm_compute|]).
    cbn in Hi. lia.
  - by apply parse_template_plain.
  - exists fs'. split_and!; [done|by vm_compute|]. by rewrite Hr, (Hn Hb).
Defined.

(** * Further properties of the code *)

(** ** More on replacement templates *)

Lemma bad_escape_inv c :
  bad_escape c = true →
  eqc c "g" = false ∧ eqc c "0" = false ∧ isdecimal c = false
  ∧ escape_char c = None ∧ isasciiletter c = true.
Proof.
  destruct c as [[] [] [] [] [] [] [] []]; vm_compute; intros; done.
Qed.

Lemma parse_step_bad n c ts : bad_escape c = true → parse_step n (Esc c) ts = None.
Proof.
  intros (Hg & H0 & Hd & He & Hl)%bad_escape_inv.
  unfold parse_step. by rewrite Hg, H0, Hd, He, Hl.
Qed.

(** A backslash before a rejected letter, with no backslash before it,
    makes the template unreadable. *)
Lemma parse_template_bad_escape n (a : str) c (b : str) :
  ("\"%char ∉ a) → bad_escape c = true →
  parse_template n (a ++ "\"%char :: c :: b) = None.
Proof.
  intros Ha Hc. unfold parse_template. rewrite tokenize_plain by done.
  cbn [tokenize]. rewrite eqc_refl.
  destruct (tokenize b) as [tb|]; [|done].
  cbn [fmap option_fmap option_map mbind option_bind].
  rewrite length_app, length_fmap. cbn [length].
  rewrite parse_tokens_plain. cbn [parse_tokens].
  by rewrite parse_step_bad.
Qed.

Lemma getuntil_decimal ts name ts2 :
  getuntil ts = Some (name, ts2) → forallb isdecimal name = true →
  ts = (Plain <$> name) ++ Plain ">" :: ts2.
Proof.
  revert name. induction ts as [|[c|c] ts IH]; intros name H Hd; [done| |].
  - cbn [getuntil] in H. destruct (eqc c ">") eqn:E.
    + apply eqc_true in E. by simplify_eq.
    + destruct (getuntil ts) as [[name' ts']|]; [|done].
      cbn in H. simplify_eq. cbn in Hd. apply andb_prop in Hd as [_ Hd].
      cbn. f_equal. by apply IH.
  - cbn [getuntil] in H.
    destruct (getuntil ts) as [[name' ts']|]; [|done].
    cbn in H. simplify_eq; by cbn in Hd.
Qed.

(** What a step of the parser leaves is a suffix of what it was given, and
    what it takes besides the token itself are plain characters. *)
Lemma parse_step_suffix n t ts p ts' :
  parse_step n t ts = Some (p, ts') →
  ∃ taken : str, ts = (Plain <$> taken) ++ ts'.
Proof.
  destruct t as [c|c]; cbn [parse_step].
  { intros [= <- <-]. by exists []. }
  destruct (eqc c "g").
  { destruct ts as [|[lt|?] ts1]; try done.
    destruct (eqc lt "<") eqn:El; [|done]. apply eqc_true in El. subst lt.
    destruct (getuntil ts1) as [[name ts2]|] eqn:Hg; [|done].
    cbn [mbind option_bind].
    destruct (bool_decide (name ≠ []) && forallb isdecimal name) eqn:Hn;
      [|done].
    apply andb_prop in Hn as [_ Hn].
    destruct (addgroup n (decimal_val name)); [|done].
    cbn [mbind option_bind]. intros [= <- <-].
    apply getuntil_decimal in Hg; [|done]. subst ts1.
    exists ("<" ++ name ++ ">"). cbn. f_equal.
    by rewrite fmap_app, <-app_assoc. }
  destruct (eqc c "0").
  { destruct ts as [|[d1|?] ts1]; try (intros [= <- <-]; by exists []).
    destruct (isoctdigit d1); [|intros [= <- <-]; by exists []].
    destruct ts1 as [|[d2|?] ts2]; try (intros [= <- <-]; by exists [d1]).
    destruct (isoctdigit d2); intros [= <- <-];
      [by exists [d1; d2]|by exists [d1]]. }
  destruct (isdecimal c).
  { destruct ts as [|[d2|?] ts1];
      try (destruct (addgroup n (digit_val c)); [|done];
           intros [= <- <-]; by exists []).
    destruct (isdecimal d2);
      [|destruct (addgroup n (digit_val c)); [|done];
        intros [= <- <-]; by exists []].
    destruct ts1 as [|[d3|?] ts2];
      try (destruct (addgroup n _); [|done];
           intros [= <- <-]; by exists [d2]).
    destruct (isoctdigit c && isoctdigit d2 && isoctdigit d3).
    - destruct (_ <=? 255); [|done]. intros [= <- <-]. by exists [d2; d3].
    - destruct (addgroup n _); [|done]. intros [= <- <-]. by exists [d2]. }
  destruct (escape_char c); [intros [= <- <-]; by exists []|].
  destruct (isasciiletter c); [done|]. intros [= <- <-]. by exists [].
Qed.

Lemma has_esc_app x ts1 ts2 :
  has_esc x (ts1 ++ ts2) = has_esc x ts1 || has_esc x ts2.
Proof. apply existsb_app. Qed.

Lemma has_esc_cons x t ts :
  has_esc x (t :: ts)
  = match t with Esc c => eqc c x | Plain _ => false end || has_esc x ts.
Proof. done. Qed.

Lemma has_esc_plain x (s : str) : has_esc x (Plain <$> s) = false.
Proof. by induction s. Qed.

(** A template that holds a rejected escape is rejected, wherever the
    escape stands. *)
Lemma parse_tokens_bad fuel n ts x :
  bad_escape x = true → has_esc x ts = true → parse_tokens fuel n ts = None.
Proof.
  intros Hx. revert ts.
  induction fuel as [|fuel IH]; intros ts Hts.
  { by destruct ts. }
  destruct ts as [|t ts']; [done|]. cbn [parse_tokens].
  destruct (parse_step n t ts') as [[p ts'']|] eqn:Hs; [|done].
  cbn [mbind option_bind].
  rewrite IH; [done|].
  destruct (parse_step_suffix _ _ _ _ _ Hs) as [taken Ht]. subst ts'.
  rewrite has_esc_cons, has_esc_app, has_esc_plain in Hts. cbn [orb] in Hts.
  destruct t as [c|c]; [done|].
  destruct (eqc c x) eqn:E; [|done].
  apply eqc_true in E. subst c. by rewrite parse_step_bad in Hs.
Qed.

(** Tokens of a text that ends between two tokens. *)
Lemma tokenize_app_Some (X W : str) tx :
  tokenize X = Some tx → tokenize (X ++ W) = (λ tw, tx ++ tw) <$> tokenize W.
Proof.
  revert tx.
  enough (H : ∀ n (Y : str) tx, length Y ≤ n → tokenize Y = Some tx →
            tokenize (Y ++ W) = (λ tw, tx ++ tw) <$> tokenize W).
  { intros tx. by apply (H (length X)). }
  clear X. induction n as [|n IH]; intros X tx Hn Ht.
  { destruct X; [|cbn in Hn; lia]. injection Ht as <-. cbn.
    by destruct (tokenize W). }
  destruct X as [|c X]. { injection Ht as <-. cbn. by destruct (tokenize W). }
  cbn [tokenize app] in *. destruct (eqc c "\").
  - destruct X as [|e X]; [done|]. cbn [app].
    destruct (tokenize X) as [tx'|] eqn:E; [|done]. injection Ht as <-.
    rewrite (IH X tx') by (cbn in Hn; done || lia).
    by destruct (tokenize W).
  - destruct (tokenize X) as [tx'|] eqn:E; [|done]. injection Ht as <-.
    rewrite (IH X tx') by (cbn in Hn; done || lia).
    by destruct (tokenize W).
Qed.

(** Tokens of a text after any text: the tokens of the text itself, or of
    the text without its first character when the text before ends in a
    backslash. *)
Lemma tokenize_app_inv (X Z : str) ts :
  tokenize (X ++ Z) = Some ts →
  (∃ tx tz, tokenize Z = Some tz ∧ ts = tx ++ tz)
  ∨ (∃ e Z' tx tz, Z = e :: Z' ∧ tokenize Z' = Some tz ∧ ts = tx ++ Esc e :: tz).
Proof.
  revert ts.
  enough (H : ∀ n (Y : str) ts, length Y ≤ n → tokenize (Y ++ Z) = Some ts →
    (∃ tx tz, tokenize Z = Some tz ∧ ts = tx ++ tz)
    ∨ (∃ e Z' tx tz, Z = e :: Z' ∧ tokenize Z' = Some tz
                     ∧ ts = tx ++ Esc e :: tz)).
  { intros ts. by apply (H (length X)). }
  clear X. induction n as [|n IH]; intros X ts Hn Ht.
  { destruct X; [|cbn in Hn; lia]. left. by exists [], ts. }
  destruct X as [|c X]. { left. by exists [], ts. }
  cbn [tokenize app] in Ht. destruct (eqc c "\").
  - destruct X as [|e X].
    + cbn [app] in Ht. destruct Z as [|e Z']; [done|].
      destruct (tokenize Z') as [tz|] eqn:E; [|done]. injection Ht as <-.
      right. by exists e, Z', [], tz.
    + cbn [app] in Ht.
      destruct (tokenize (X ++ Z)) as [ts'|] eqn:E; [|done].
      injection Ht as <-.
      destruct (IH X ts') as [(tx & tz & H1 & ->)|(e' & Z' & tx & tz & H1 & H2 & ->)];
        [cbn in Hn; lia|done| |].
      * left. by exists (Esc e :: tx), tz.
      * right. by exists e', Z', (Esc e :: tx), tz.
  - destruct (tokenize (X ++ Z)) as [ts'|] eqn:E; [|done].
    injection Ht as <-.
    destruct (IH X ts') as [(tx & tz & H1 & ->)|(e' & Z' & tx & tz & H1 & H2 & ->)];
      [cbn in Hn; lia|done| |].
    + left. by exists (Plain c :: tx), tz.
    + right. by exists e', Z', (Plain c :: tx), tz.
Qed.

(** ** The metadata block as a template *)

Lemma json_char_tokens c :
  match tokenize (json_char c) with
  | Some tc => implb (needs_u c) (has_esc "u" tc)
  | None => false
  end = true.
Proof. destruct c as [[] [] [] [] [] [] [] []]; by vm_compute. Qed.

Lemma tokenize_json (s W : str) :
  ∃ tj, tokenize (concat (json_char <$> s) ++ W)
        = (λ tw, tj ++ tw) <$> tokenize W
        ∧ (existsb needs_u s = true → has_esc "u" tj = true).
Proof.
  induction s as [|c s (tj & IH1 & IH2)].
  - exists []. split; [|done]. cbn. by destruct (tokenize W).
  - pose proof (json_char_tokens c) as Hc.
    destruct (tokenize (json_char c)) as [tc|] eqn:Ec; [|done].
    exists (tc ++ tj). split.
    + cbn [fmap list_fmap concat]. rewrite <-app_assoc.
      rewrite (tokenize_app_Some _ _ _ Ec), IH1.
      destruct (tokenize W); [|done]. cbn. by rewrite app_assoc.
    + cbn [existsb]. rewrite has_esc_app. intros [H|H]%orb_prop.
      * rewrite H in Hc. cbn in Hc. by rewrite Hc.
      * rewrite IH2 by done. apply orb_true_r.
Qed.

Lemma join_split sep (l1 : list str) x l2 :
  ∃ A B, join sep (l1 ++ x :: l2) = A ++ x ++ B.
Proof.
  induction l1 as [|y l1 (A & B & IH)].
  - exists []. destruct l2 as [|z l2]; [exists []|eexists]; cbn [app join]; try done.
    by rewrite app_nil_r.
  - exists (y ++ sep ++ A), B. cbn [app join].
    destruct (l1 ++ x :: l2) eqn:E; [by destruct l1|].
    rewrite IH. by rewrite <-!app_assoc.
Qed.

(** The metadata block around the JSON string of one image name. *)
Lemma metadata_line_image p image :
  image ∈ post_images p →
  ∃ X W, metadata_line p
         = X ++ "034"%char :: concat (json_char <$> image) ++ W.
Proof.
  intros (i1 & i2 & Hi)%list_elem_of_split.
  unfold metadata_line. cbv zeta. unfold json_dumps. rewrite Hi.
  rewrite fmap_app. cbn [fmap list_fmap].
  destruct (join_split ", " (json_string <$> i1) (json_string image)
              (json_string <$> i2)) as (A & B & ->).
  unfold json_string.
  exists ("    { id: '" ++ post_id p ++ "', date: '" ++ post_date p
          ++ "', title: '" ++ replace_char "'" "\'" (post_title p)
          ++ "', images: " ++ "[" ++ A).
  eexists. rewrite <-!app_assoc. cbn [app]. repeat f_equal.
Qed.

Lemma metadata_js_image posts p image :
  p ∈ posts → image ∈ post_images p →
  ∃ X W, metadata_js posts
         = X ++ "034"%char :: concat (json_char <$> image) ++ W.
Proof.
  intros (l1 & l2 & ->)%list_elem_of_split Hi.
  destruct (metadata_line_image p image Hi) as (X & W & HX).
  unfold metadata_js. rewrite fmap_app, concat_app, fmap_cons.
  cbn [concat]. rewrite HX.
  exists ("postsMetadata: [" ++ ["010"%char]
          ++ concat (metadata_line <$> l1) ++ X),
         (W ++ concat (metadata_line <$> l2) ++ "  ]").
  rewrite <-!app_assoc. cbn [app]. by rewrite <-!app_assoc.
Qed.

(** A metadata block with an image name that [json.dumps] writes with
    [\u] is no replacement template. *)
Lemma metadata_js_unicode_escape n posts p image :
  p ∈ posts → image ∈ post_images p → existsb needs_u image = true →
  parse_template n (metadata_js posts) = None.
Proof.
  intros Hp Hi Hu.
  destruct (metadata_js_image _ _ _ Hp Hi) as (X & W & ->).
  unfold parse_template.
  destruct (tokenize _) as [ts|] eqn:Et; [|done].
  cbn [mbind option_bind].
  apply (parse_tokens_bad _ _ _ "u"); [done|].
  destruct (tokenize_json image W) as (tj & Hj1 & Hj2).
  assert (∃ tx tw, ts = tx ++ tj ++ tw) as (tx & tw & ->).
  { apply tokenize_app_inv in Et
      as [(tx & tz & H1 & ->)|(e & Z' & tx & tz & [= <- <-] & H1 & ->)].
    - cbn [tokenize] in H1.
      replace (eqc "034" "\") with false in H1 by done.
      rewrite Hj1 in H1. destruct (tokenize W) as [tw|]; [|done].
      cbn in H1. injection H1 as <-. by exists (tx ++ [Plain "034"]), tw;
        rewrite <-!app_assoc.
    - rewrite Hj1 in H1. destruct (tokenize W) as [tw|]; [|done].
      cbn in H1. injection H1 as <-.
      by exists (tx ++ [Esc "034"]), tw; rewrite <-!app_assoc. }
  rewrite !has_esc_app, Hj2 by done. by rewrite orb_true_r.
Qed.

Lemma kept_escaped_inv e :
  kept_escaped e = true →
  eqc e "g" = false ∧ eqc e "0" = false ∧ isdecimal e = false
  ∧ escape_char e = None ∧ isasciiletter e = false ∧ eqc e "\" = false.
Proof.
  destruct e as [[] [] [] [] [] [] [] []]; vm_compute; intros; done.
Qed.

Lemma literal_tokens (s : str) :
  literal_template s = true →
  ∃ ts, tokenize s = Some ts ∧ Forall kept_token ts
        ∧ concat (token_text <$> ts) = s.
Proof.
  enough (H : ∀ n (s : str), length s ≤ n → literal_template s = true →
            ∃ ts, tokenize s = Some ts ∧ Forall kept_token ts
                  ∧ concat (token_text <$> ts) = s).
  { by apply (H (length s)). }
  clear s. induction n as [|n IH]; intros s Hn Hs.
  { destruct s; [|cbn in Hn; lia]. by exists []. }
  destruct s as [|c s]; [by exists []|].
  cbn [literal_template tokenize] in *. destruct (eqc c "\") eqn:Ec.
  - apply eqc_true in Ec. subst c. destruct s as [|e s]; [done|].
    apply andb_prop in Hs as [He Hs].
    destruct (IH s) as (ts & -> & H2 & H3); [cbn in Hn; lia|done|].
    exists (Esc e :: ts). split_and!; [done|by constructor|].
    cbn. by rewrite H3.
  - destruct (IH s) as (ts & -> & H2 & H3); [cbn in Hn; lia|done|].
    exists (Plain c :: ts). split_and!; [done|by constructor|].
    cbn. by rewrite H3.
Qed.

Lemma parse_tokens_literal fuel n ts :
  Forall kept_token ts → length ts ≤ fuel →
  parse_tokens fuel n ts = Some (TLit ∘ token_text <$> ts).
Proof.
  intros Hts. revert fuel. induction Hts as [|t ts Ht Hts IH]; intros fuel Hf.
  { by destruct fuel. }
  destruct fuel as [|fuel]; [cbn in Hf; lia|]. cbn [parse_tokens].
  assert (parse_step n t ts = Some (TLit (token_text t), ts)) as ->.
  { destruct t as [c|e]; [done|]. cbn in Ht.
    apply kept_escaped_inv in Ht as (Hg & H0 & Hd & He & Hl & _).
    unfold parse_step. by rewrite Hg, H0, Hd, He, Hl. }
  cbn [mbind option_bind]. rewrite IH by (cbn in Hf; lia). done.
Qed.

(** A literal template is read as the text it is. *)
Lemma parse_template_literal n (s : str) :
  literal_template s = true →
  ∃ tpl, parse_template n s = Some tpl ∧ ∀ h, expand tpl h = s.
Proof.
  intros (ts & Ht & Hk & Hs)%literal_tokens.
  exists (TLit ∘ token_text <$> ts). split.
  - unfold parse_template. rewrite Ht. cbn [mbind option_bind].
    by apply parse_tokens_literal.
  - intros h. unfold expand. by rewrite <-list_fmap_compose.
Qed.

Lemma literal_template_app (a b : str) :
  literal_template a = true →
  literal_template (a ++ b) = literal_template b.
Proof.
  enough (H : ∀ n (a : str), length a ≤ n → literal_template a = true →
            literal_template (a ++ b) = literal_template b).
  { by apply (H (length a)). }
  clear a. induction n as [|n IH]; intros a Hn Ha.
  { by destruct a; [|cbn in Hn; lia]. }
  destruct a as [|c a]; [done|].
  cbn [literal_template app] in *. destruct (eqc c "\").
  - destruct a as [|e a]; [done|]. cbn [app].
    apply andb_prop in Ha as [-> Ha]. cbn [andb].
    apply IH; [cbn in Hn; lia|done].
  - apply IH; [cbn in Hn; lia|done].
Qed.

Lemma literal_template_plain (s : str) :
  ("\"%char ∉ s) → literal_template s = true.
Proof.
  induction s as [|c s IH]; [done|]. intros [Hc Hs]%not_elem_of_cons.
  cbn [literal_template]. rewrite (proj2 (eqc_false c "\")) by done.
  by apply IH.
Qed.

Lemma literal_template_title (t : str) :
  ("\"%char ∉ t) → literal_template (replace_char "'" "\'" t) = true.
Proof.
  induction t as [|c t IH]; [done|]. intros [Hc Ht]%not_elem_of_cons.
  cbn [replace_char]. destruct (eqc c "'").
  - cbn. by apply IH.
  - cbn [app literal_template]. rewrite (proj2 (eqc_false c "\")) by done.
    by apply IH.
Qed.

Lemma json_plain_char c :
  json_plain c = true → json_char c = [c] ∧ c ≠ "\"%char.
Proof. destruct c as [[] [] [] [] [] [] [] []]; vm_compute; intros; done. Qed.

Lemma json_plain_string (s : str) :
  forallb json_plain s = true →
  concat (json_char <$> s) = s ∧ ("\"%char ∉ s).
Proof.
  induction s as [|c s IH]; [by split; [|apply not_elem_of_nil]|].
  cbn [forallb]. intros [Hc Hs]%andb_prop.
  destruct (IH Hs) as [IH1 IH2].
  destruct (json_plain_char c Hc) as [H1 H2].
  split; [cbn; by rewrite H1, IH1|].
  by apply not_elem_of_cons.
Qed.

Lemma literal_template_images (l : list str) :
  Forall (λ image, forallb json_plain image = true) l →
  literal_template (join ", " (json_string <$> l)) = true.
Proof.
  assert (Hone : ∀ s : str, forallb json_plain s = true →
                   literal_template (json_string s) = true).
  { intros s [H1 H2]%json_plain_string. unfold json_string. rewrite H1.
    apply literal_template_plain. rewrite !elem_of_app.
    intros [H|[H|H]]; [|done|]; revert H; not_in_lit. }
  induction 1 as [|s l Hs Hl IH]; [done|].
  cbn [fmap list_fmap join]. destruct (json_string <$> l) eqn:E.
  - by apply Hone.
  - rewrite literal_template_app by (by apply Hone).
    by rewrite (literal_template_app ", ").
Qed.

Lemma literal_template_line p :
  safe_record p → literal_template (metadata_line p) = true.
Proof.
  intros (Hid & Hd & Ht & Hi). unfold metadata_line. cbv zeta.
  rewrite (literal_template_app "    { id: '") by done.
  rewrite literal_template_app by (by apply literal_template_plain).
  rewrite (literal_template_app "', date: '") by done.
  rewrite literal_template_app by (by apply literal_template_plain).
  rewrite (literal_template_app "', title: '") by done.
  rewrite literal_template_app by (by apply literal_template_title).
  rewrite (literal_template_app "', images: ") by done.
  unfold json_dumps. rewrite <-!app_assoc.
  rewrite (literal_template_app "[") by done.
  rewrite literal_template_app by (by apply literal_template_images).
  done.
Qed.

Lemma literal_template_block posts :
  Forall safe_record posts → literal_template (metadata_js posts) = true.
Proof.
  intros Hp. unfold metadata_js.
  rewrite (literal_template_app "postsMetadata: [") by done.
  rewrite (literal_template_app ["010"%char]) by done.
  induction Hp as [|p posts Hp Hps IH]; [done|].
  cbn [fmap list_fmap concat]. rewrite <-app_assoc.
  by rewrite literal_template_app by (by apply literal_template_line).
Qed.

(** ** The shape of a title *)

Lemma split_no_sep sep (s : str) : Forall (λ l, sep ∉ l) (split sep s).
Proof.
  induction s as [|c s IH]; cbn [split].
  - repeat constructor. apply not_elem_of_nil.
  - destruct (eqc c sep) eqn:E.
    + constructor; [apply not_elem_of_nil|done].
    + apply eqc_false in E. destruct (split sep s) as [|l ls].
      * repeat constructor. by intros ->%list_elem_of_singleton.
      * apply Forall_cons in IH as [Hl Hls]. constructor; [|done].
        by apply not_elem_of_cons.
Qed.

Lemma lstrip_elem c (s : str) : c ∈ lstrip s → c ∈ s.
Proof.
  destruct (lstrip_split s) as (w & Hs & _). intros H. rewrite Hs.
  apply elem_of_app. by right.
Qed.

Lemma rstrip_elem c (s : str) : c ∈ rstrip s → c ∈ s.
Proof.
  destruct (rstrip_split s) as (w & Hs & _). intros H. rewrite Hs.
  apply elem_of_app. by left.
Qed.

Lemma strip_elem c (s : str) : c ∈ strip s → c ∈ s.
Proof. intros H. by apply lstrip_elem, rstrip_elem. Qed.

Lemma lstrip_char_elem x c (s : str) : c ∈ lstrip_char x s → c ∈ s.
Proof.
  induction s as [|d s IH]; [done|]. cbn [lstrip_char].
  destruct (eqc d x); [|done]. intros H. right. by apply IH.
Qed.

Lemma strip_head (s : str) c t : strip s = c :: t → isspace c = false.
Proof.
  unfold strip. intros H.
  destruct (rstrip_split (lstrip s)) as (w & Hs & _). rewrite H in Hs.
  by apply (lstrip_head s c (t ++ w)).
Qed.

Lemma startswith_take (p : str) n (l : str) :
  length p ≤ n → startswith p (take n l) = startswith p l.
Proof.
  revert n l. induction p as [|a p IH]; intros n l Hn; [by destruct (take n l)|].
  destruct n as [|n]; [cbn in Hn; lia|]. destruct l as [|b l]; [done|].
  cbn [take startswith]. rewrite IH by (cbn in Hn; lia). done.
Qed.

Lemma stripped_lines_no_newline content l :
  l ∈ strip <$> split nl content → nl ∉ l.
Proof.
  intros (l0 & -> & Hl0)%list_elem_of_fmap Hn.
  pose proof (split_no_sep nl content) as Hs.
  rewrite Forall_forall in Hs. apply (Hs l0 Hl0). by apply strip_elem.
Qed.

Lemma find_elem {A} (P : A → bool) (l : list A) x :
  List.find P l = Some x → x ∈ l ∧ P x = true.
Proof.
  intros [H1 H2]%find_some. split; [|done]. by apply list_elem_of_In.
Qed.

(** X3.  A title that [extract_title] returns holds no line feed and does
    not begin with whitespace.  It is either the text of a heading, with
    no whitespace at its end either and of any length, or a text that is
    not empty, has at most 50 characters and does not begin with [![]. *)
Theorem extract_title_shape content t :
  extract_title_from_markdown content = Some t →
  ("010"%char ∉ t)
  ∧ (∀ c t', t = c :: t' → isspace c = false)
  ∧ (strip t = t
     ∨ (0 < length t ≤ 50 ∧ startswith "![" t = false)).
Proof.
  rewrite extract_title_title_of. unfold title_of. cbv zeta.
  destruct (List.find _ _) as [first|] eqn:Ef; [|done].
  apply find_elem in Ef as [Hfirst _].
  destruct (startswith "#" first).
  - intros [= <-]. split_and!.
    + intros H%strip_elem%lstrip_char_elem.
      by apply (stripped_lines_no_newline content first).
    + intros c t'. apply strip_head.
    + left. apply strip_strip.
  - destruct (List.find (λ l, negb (is_blank l) && negb (is_image l)) _)
      as [l|] eqn:El; [|done].
    apply find_elem in El as [Hl [Hb Hi]%andb_prop].
    intros [= <-].
    pose proof Hl as (l0 & -> & _)%list_elem_of_fmap.
    apply negb_true_iff in Hb, Hi. unfold is_blank in Hb.
    apply bool_decide_eq_false in Hb.
    destruct (strip l0) as [|c l'] eqn:Es; [done|].
    split_and!.
    + intros H. apply (stripped_lines_no_newline content (c :: l') Hl).
      revert H. cbn [take]. rewrite !elem_of_cons.
      intros [->|H]; [by left|]. right.
      rewrite <-(take_drop 49 l'). apply elem_of_app. by left.
    + intros c' t' [= <- _]. by apply (strip_head l0 c l').
    + right. split.
      * rewrite length_take. cbn [length]. lia.
      * rewrite startswith_take by (cbn; lia). unfold is_image in Hi.
        by apply orb_false_iff in Hi as [_ Hi].
Qed.

Lemma extract_title_shape_witness :
  ("010"%char ∉ ("first words" : str))
  ∧ (∀ c t', ("first words" : str) = c :: t' → isspace c = false).
Proof.
  destruct (extract_title_shape
              (["010"%char] ++ "![[a.png]]" ++ ["010"%char]
               ++ "  first words  ") "first words")
    as (H1 & H2 & _).
  - by vm_compute.
  - by split.
Defined.

(** X4.  The text of a heading comes back in full: for a text without a
    line feed, the title of the document [# text] is the text without
    its surrounding whitespace, however long it is. *)
Theorem extract_title_heading (text : str) :
  ("010"%char ∉ text) →
  extract_title_from_markdown ("# " ++ text) = Some (strip text).
Proof.
  intros Hnl. rewrite extract_title_title_of. unfold title_of. cbv zeta.
  assert (Hsplit : ∀ s : str, nl ∉ s → split nl s = [s]).
  { induction s as [|c s IH]; [done|]. intros [Hc Hs]%not_elem_of_cons.
    cbn [split]. rewrite (proj2 (eqc_false c nl)) by done. by rewrite IH. }
  rewrite Hsplit
    by (apply not_elem_of_cons; split; [done|];
        by apply not_elem_of_cons; split).
  cbn [fmap list_fmap].
  assert (Hstrip : ∃ r, strip ("# " ++ text) = "#"%char :: r
                        ∧ lstrip_char "#" r = r ∧ strip r = strip text).
  { unfold strip at 1. cbn [app]. change (lit "# ") with ("#"%char :: lit " ").
    cbn [app]. rewrite lstrip_fixed by done.
    cbn [rstrip].
    exists (rstrip (" " ++ text)). split_and!.
    - by destruct (rstrip (" " ++ text)).
    - cbn [app]. change (lit " ") with [" "%char]. cbn [app rstrip].
      by destruct (rstrip text).
    - destruct (rstrip_split (" " ++ text)) as (w & Hw1 & Hw2).
      rewrite <-(strip_app_space_r _ w Hw2), <-Hw1.
      apply strip_app_space_l. by repeat constructor.
  }
  destruct Hstrip as (r & Hr1 & Hr2 & Hr3).
  rewrite Hr1. cbn [List.find]. unfold is_blank at 1.
  rewrite bool_decide_false by done. cbn [negb].
  replace (startswith "#" ("#"%char :: r)) with true by done.
  cbn [lstrip_char]. rewrite eqc_refl. by rewrite Hr2, Hr3.
Qed.

Lemma extract_title_heading_witness :
  extract_title_from_markdown
    ("# " ++ "  a heading of more than fifty characters, kept as it is written  ")
  = Some ("a heading of more than fifty characters, kept as it is written" : str).
Proof.
  rewrite (extract_title_heading
    "  a heading of more than fifty characters, kept as it is written  ").
  - by vm_compute.
  - not_in_lit.
Defined.

(** ** Normalization with an id that is no template *)

(** X2.  A document id in which the first backslash stands before an
    ASCII letter that the template parser rejects (any letter but
    [a b f g n r t v]) makes [convert_obsidian_images] raise, whatever the
    text, with or without an embed in it. *)
Theorem convert_raises_on_rejected_escape markdown (a : str) c (b : str) :
  ("\"%char ∉ a) → bad_escape c = true →
  convert_obsidian_images markdown (a ++ "\"%char :: c :: b) = None.
Proof.
  intros Ha Hc. unfold convert_obsidian_images, sub.
  replace ("![](assets/" ++ (a ++ "\"%char :: c :: b) ++ "/\1)")
    with (("![](assets/" ++ a) ++ "\"%char :: c :: (b ++ "/\1)"))
    by (rewrite <-!app_assoc; cbn [app]; by rewrite <-?app_assoc).
  rewrite parse_template_bad_escape; [done| |done].
  rewrite elem_of_app. intros [H|H]; [|done]. revert H. not_in_lit.
Qed.

Lemma convert_raises_on_rejected_escape_witness :
  convert_obsidian_images "no image here" "notes\quotes" = None.
Proof.
  apply (convert_raises_on_rejected_escape "no image here" "notes" "q" "uotes").
  - not_in_lit.
  - by vm_compute.
Defined.

(** ** When a run completes *)

Lemma process_loop_needs names posts fs posts' fs' :
  foldM process_file (posts, fs) names = Some (posts', fs') →
  ∀ name, name ∈ names →
    is_Some (read_file (BLOGS_DIR ++ [name]) fs)
    ∧ ¬ (∃ es, lookup (DOCS_BLOGS_DIR ++ [name]) fs = Some (Dir es)).
Proof.
  revert posts fs. induction names as [|n names IH]; intros posts fs H name Hin.
  { by apply elem_of_nil in Hin. }
  cbn [foldM] in H.
  destruct (process_file (posts, fs) n) as [[posts1 fs1]|] eqn:Hp; [|done].
  cbn [mbind option_bind] in H.
  pose proof Hp as (content & out & Hr & Hc & Hw & ->)%process_file_inv.
  assert (Hn : ¬ (∃ es, lookup (DOCS_BLOGS_DIR ++ [n]) fs = Some (Dir es))).
  { intros [es He]. unfold write_file in Hw.
    apply in_dir_lookup in Hw as (es0 & es1 & H1 & H2 & _).
    rewrite lookup_app, H1 in He. cbn in He. cbv beta in H2.
    destruct (find n es0) as [[?|?]|]; simplify_eq. }
  destruct (decide (name = n)) as [->|Hne].
  { split; [by rewrite Hr|done]. }
  apply elem_of_cons in Hin as [?|Hin]; [done|].
  destruct (IH _ _ H name Hin) as [H1 H2]. split.
  - unfold read_file, file_data in *.
    by rewrite <-(process_file_blogs _ _ _ _ _ _ Hp).
  - by rewrite <-(write_file_other_name _ _ _ _ _ _ [] Hw).
Qed.

Lemma process_loop_runs names posts fs :
  (∃ es, lookup DOCS_BLOGS_DIR fs = Some (Dir es)) →
  (∀ name, name ∈ names →
     is_Some (read_file (BLOGS_DIR ++ [name]) fs)
     ∧ is_Some (convert_obsidian_images (content_of fs name) (stem name))
     ∧ ¬ (∃ es, lookup (DOCS_BLOGS_DIR ++ [name]) fs = Some (Dir es))) →
  is_Some (foldM process_file (posts, fs) names).
Proof.
  revert posts fs. induction names as [|name names IH]; intros posts fs [es Hd] H.
  - by eexists.
  - destruct (H name) as ([content Hr] & [out Hc] & Hout); [left|].
    assert (Hcontent : content_of fs name = content)
      by (unfold content_of; by rewrite Hr).
    rewrite Hcontent in Hc.
    destruct (write_file_total DOCS_BLOGS_DIR name out fs es Hd Hout)
      as [fs1 Hw].
    assert (Hp : process_file (posts, fs) name
                 = Some (posts ++ option_list (record_of name content), fs1)).
    { unfold process_file. rewrite Hr. cbn [mbind option_bind].
      rewrite Hc. cbn [mbind option_bind].
      rewrite Hw. cbn [mbind option_bind]. do 2 f_equal.
      rewrite <-truthy_record. destruct (_ && _); [done|].
      cbn [option_list]. by rewrite app_nil_r. }
    cbn [foldM]. rewrite Hp. cbn [mbind option_bind]. apply IH.
    + pose proof Hw as (? & es' & _ & _ & Hl)%in_dir_lookup. eauto.
    + intros n Hn. destruct (H n) as (Hr' & Hc' & Hout'); [by right|].
      assert (Hb : ∀ q, lookup (BLOGS_DIR ++ q) fs1 = lookup (BLOGS_DIR ++ q) fs)
        by (intros q; by eapply process_file_blogs).
      split_and!.
      * unfold read_file, file_data. by rewrite Hb.
      * by rewrite (content_of_blogs fs fs1).
      * destruct (decide (n = name)) as [->|Hne].
        -- intros [es' He]. apply write_file_data in Hw.
           unfold file_data in Hw. by rewrite He in Hw.
        -- by rewrite (write_file_other_name _ _ _ _ _ _ [] Hw).
Qed.

Lemma mkdir_docs_blogs fs fs1 :
  mkdir_parents DOCS_BLOGS_DIR fs = Some fs1 →
  ∀ q, lookup (BLOGS_DIR ++ q) fs1 = lookup (BLOGS_DIR ++ q) fs.
Proof.
  intros Hm q. eapply (mkdir_parents_other "docs" ["blogs" : str] "blogs" q);
    [done|apply blogs_docs].
Qed.

(** X5.  A run of [process_markdown_files] completes exactly when the
    output directory can be made and every document can be read, has a
    normalization (its id is read as a replacement template) and has no
    directory of its name in the output directory.  In every other case
    the run raises: one such document stops the whole run. *)
Theorem process_markdown_files_completes_iff fs :
  is_Some (process_markdown_files fs) ↔ runnable fs.
Proof.
  unfold runnable, process_markdown_files. split.
  - intros [[posts fs'] H].
    destruct (mkdir_parents DOCS_BLOGS_DIR fs) as [fs1|] eqn:Hm; [|done].
    cbn [mbind option_bind] in H. split; [done|].
    pose proof (mkdir_docs_blogs _ _ Hm) as Hb.
    rewrite (glob_suffix_blogs fs fs1 Hb) in H.
    intros name Hn. fold (documents fs) in H.
    destruct (process_loop_needs _ _ _ _ _ H name Hn) as [H1 H2].
    apply process_loop in H as (_ & _ & H3 & _).
    destruct (H3 name Hn) as (out & Ho & _).
    split_and!.
    + unfold read_file, file_data in *. by rewrite <-Hb.
    + rewrite <-(content_of_blogs fs fs1) by done. by eexists.
    + by rewrite <-(mkdir_parents_below _ _ _ _ [] Hm).
  - intros [[fs1 Hm] H]. rewrite Hm. cbn [mbind option_bind].
    pose proof (mkdir_docs_blogs _ _ Hm) as Hb.
    apply process_loop_runs.
    + by eapply mkdir_parents_dir.
    + rewrite (glob_suffix_blogs fs fs1) by done. intros name Hn.
      destruct (H name Hn) as (Hr & Hc & Hout). split_and!.
      * unfold read_file, file_data. by rewrite Hb.
      * by rewrite (content_of_blogs fs fs1).
      * by rewrite (mkdir_parents_below _ _ _ _ [] Hm).
Qed.

(** ** What a run leaves alone *)

Lemma lookup_empty_dir n q : lookup (n :: q) (Dir []) = None.
Proof. done. Qed.

Lemma mkdir_parents_parts p r t t' :
  mkdir_parents p t = Some t' → parts_from p r → lookup r t' = lookup r t.
Proof.
  intros H (q & a & p1 & b & r1 & -> & -> & Hab).
  revert t t' H. induction q as [|c q IH]; intros t t' H.
  - by apply (mkdir_parents_other a p1 b r1).
  - destruct t as [d|es]; [done|]. cbn [app mkdir_parents] in H.
    destruct (mkdir_parents _ _) as [sub|] eqn:Hs; [|done].
    injection H as <-. cbn [app lookup]. rewrite find_put_eq.
    cbn [mbind option_bind]. rewrite (IH _ _ Hs).
    destruct (find c es) as [x|]; [done|]. cbn [default mbind option_bind].
    by destruct q.
Qed.

Lemma in_dir_parts p r f t t' :
  in_dir p f t = Some t' → parts_from p r → lookup r t' = lookup r t.
Proof.
  intros H (q & a & p1 & b & r1 & -> & -> & Hab).
  by apply (in_dir_lookup_other q a p1 b r1 f).
Qed.

Lemma process_loop_parts names posts fs posts' fs' r :
  foldM process_file (posts, fs) names = Some (posts', fs') →
  parts_from DOCS_BLOGS_DIR r → lookup r fs' = lookup r fs.
Proof.
  intros H Hr. revert posts fs H.
  induction names as [|n names IH]; intros posts fs H.
  { by simplify_eq/=. }
  cbn [foldM] in H.
  destruct (process_file (posts, fs) n) as [[posts1 fs1]|] eqn:Hp; [|done].
  cbn [mbind option_bind] in H.
  apply process_file_inv in Hp as (content & out & _ & _ & Hw & _).
  rewrite (IH _ _ H). by apply (in_dir_parts _ _ _ _ _ Hw).
Qed.

Lemma process_markdown_files_parts fs posts fs' r :
  process_markdown_files fs = Some (posts, fs') →
  parts_from DOCS_BLOGS_DIR r
  ∨ (∃ n q, r = DOCS_BLOGS_DIR ++ n :: q ∧ n ∉ documents fs) →
  lookup r fs' = lookup r fs.
Proof.
  unfold process_markdown_files. intros H Hr.
  destruct (mkdir_parents DOCS_BLOGS_DIR fs) as [fs1|] eqn:Hm; [|done].
  cbn [mbind option_bind] in H.
  pose proof (mkdir_docs_blogs _ _ Hm) as Hb.
  rewrite (glob_suffix_blogs fs fs1 Hb) in H. fold (documents fs) in H.
  destruct Hr as [Hr|(n & q & -> & Hn)].
  - rewrite (process_loop_parts _ _ _ _ _ _ H Hr).
    by apply (mkdir_parents_parts _ _ _ _ Hm).
  - apply process_loop in H as (_ & _ & _ & H4).
    rewrite H4 by done. by apply (mkdir_parents_below _ _ _ _ _ Hm).
Qed.

(** X6.  A run of [process_markdown_files] that completes has changed
    nothing but the output directory [docs/blogs] and, in it, the files
    named after the documents: the corpus, the other entries of [docs] and
    everything beside [docs] are as they were, and so is every entry of
    [docs/blogs] that is not named after a document.  The output of an
    earlier run for a document that is gone stays where it is. *)
Theorem process_markdown_files_frame fs posts fs' :
  process_markdown_files fs = Some (posts, fs') →
  (∀ n q, n ∉ documents fs →
     lookup (DOCS_BLOGS_DIR ++ n :: q) fs' = lookup (DOCS_BLOGS_DIR ++ n :: q) fs)
  ∧ (∀ n q, n ≠ ("blogs" : str) →
       lookup (DOCS_DIR ++ n :: q) fs' = lookup (DOCS_DIR ++ n :: q) fs)
  ∧ (∀ n q, n ≠ ("docs" : str) → lookup (n :: q) fs' = lookup (n :: q) fs).
Proof.
  intros H. split_and!.
  - intros n q Hn. apply (process_markdown_files_parts _ _ _ _ H). right.
    by exists n, q.
  - intros n q Hn. apply (process_markdown_files_parts _ _ _ _ H). left.
    exists ["docs" : str], ("blogs" : str), [], n, q.
    split_and!; [done..|congruence].
  - intros n q Hn. apply (process_markdown_files_parts _ _ _ _ H). left.
    exists [], ("docs" : str), ["blogs" : str], n, q.
    split_and!; [done..|congruence].
Qed.

Lemma process_markdown_files_frame_witness :
  ∃ fs',
    snd <$> process_markdown_files demo_fs = Some fs'
    ∧ lookup (DOCS_BLOGS_DIR ++ ["assets" : str; "stale" : str]) fs'
      = lookup (DOCS_BLOGS_DIR ++ ["assets" : str; "stale" : str]) demo_fs
    ∧ lookup ["docs" : str; "js" : str] fs'
      = lookup ["docs" : str; "js" : str] demo_fs.
Proof.
  destruct (process_markdown_files demo_fs) as [[posts fs']|] eqn:E;
    [|by vm_compute in E].
  exists fs'.
  destruct (process_markdown_files_frame demo_fs posts fs' E) as (H1 & H2 & _).
  split_and!; [done| |by apply (H2 "js" [])].
  apply (H1 "assets" ["stale" : str]). vm_compute. not_in_lit.
Defined.

(** ** The records of a run *)

Lemma universal_newlines_no_cr (s : str) : "013"%char ∉ universal_newlines s.
Proof.
  enough (H : ∀ n (s : str), length s ≤ n → "013"%char ∉ universal_newlines s).
  { by apply (H (length s)). }
  clear s. induction n as [|n IH]; intros s Hn.
  { destruct s; [apply not_elem_of_nil|cbn in Hn; lia]. }
  destruct s as [|c s]; [apply not_elem_of_nil|]. cbn [universal_newlines].
  destruct (eqc c "013") eqn:Ec.
  - destruct s as [|d s].
    + by intros ?%list_elem_of_singleton.
    + destruct (eqc d "010"); apply not_elem_of_cons; (split; [done|]);
        apply IH; cbn in *; lia.
  - apply eqc_false in Ec. apply not_elem_of_cons. split; [done|].
    apply IH. cbn in Hn. lia.
Qed.

Lemma split_elem sep (s l : str) c : l ∈ split sep s → c ∈ l → c ∈ s.
Proof.
  revert l. induction s as [|d s IH]; intros l; cbn [split].
  - by intros ->%list_elem_of_singleton.
  - destruct (eqc d sep).
    + intros [->|Hl]%elem_of_cons Hc; [by apply elem_of_nil in Hc|].
      right. by apply (IH l).
    + destruct (split sep s) as [|l0 ls] eqn:E.
      * intros ->%list_elem_of_singleton ->%list_elem_of_singleton. left.
      * intros [->|Hl]%elem_of_cons Hc.
        -- apply elem_of_cons in Hc as [->|Hc]; [left|right].
           apply (IH l0); [left|done].
        -- right. apply (IH l); [by right|done].
Qed.

(** Every character of the title is a character of the content. *)
Lemma extract_title_chars content t c :
  extract_title_from_markdown content = Some t → c ∈ t → c ∈ content.
Proof.
  rewrite extract_title_title_of. unfold title_of. cbv zeta.
  assert (Hline : ∀ l, l ∈ strip <$> split nl content → c ∈ l → c ∈ content).
  { intros l (l0 & -> & Hl0)%list_elem_of_fmap Hc%strip_elem.
    by apply (split_elem nl content l0). }
  destruct (List.find _ _) as [first|] eqn:Ef; [|done].
  apply find_elem in Ef as [Hfirst _].
  destruct (startswith "#" first).
  - intros [= <-] H%strip_elem%lstrip_char_elem. by apply (Hline first).
  - destruct (List.find (λ l, negb (is_blank l) && negb (is_image l)) _)
      as [l|] eqn:El; [|done].
    apply find_elem in El as [Hl _]. intros [= <-] Hc.
    apply (Hline l Hl). rewrite <-(take_drop 50 l). apply elem_of_app. by left.
Qed.

Lemma content_of_no_cr fs name : "013"%char ∉ content_of fs name.
Proof.
  unfold content_of, read_file.
  destruct (file_data _ _) as [data|]; cbn; [|apply not_elem_of_nil].
  apply universal_newlines_no_cr.
Qed.

(** X7.  Every record a run returns belongs to a document: its id is the
    stem of the document's name, its date has ten characters, its images
    are those of the document's text, and its title is one non-empty line,
    with neither a line feed nor a carriage return in it. *)
Theorem records_are_well_formed fs posts fs' :
  process_markdown_files fs = Some (posts, fs') →
  Forall (λ p, ∃ name,
            name ∈ documents fs
            ∧ post_id p = stem name
            ∧ length (post_date p) = 10
            ∧ post_images p
              = extract_images_from_markdown (content_of fs name)
            ∧ post_title p ≠ []
            ∧ ("010"%char ∉ post_title p)
            ∧ ("013"%char ∉ post_title p)) posts.
Proof.
  intros (-> & _ & _)%process_markdown_files_inv.
  apply Forall_forall. intros p (name & Hn & Hp)%list_elem_of_omap.
  exists name. apply record_of_Some in Hp as (date & c & title & Hd & Ht & ->).
  cbn [post_id post_date post_title post_images].
  split_and!; try done.
  - rewrite parse_date_date_of_stem in Hd. unfold date_of_stem in Hd.
    destruct (stem name) as [|d1 [|d2 [|d3 [|d4 [|d5 [|d6 rest]]]]]]; try done.
    destruct (forallb _ _); [|done]. by injection Hd as <-.
  - by apply extract_title_shape in Ht as (H & _).
  - intros Hc. apply (content_of_no_cr fs name).
    by apply (extract_title_chars _ _ _ Ht).
Qed.

Lemma records_are_well_formed_witness :
  ∃ posts,
    fst <$> process_markdown_files demo_fs = Some posts
    ∧ Forall (λ p, length (post_date p) = 10 ∧ post_title p ≠ []) posts.
Proof.
  destruct (process_markdown_files demo_fs) as [[posts fs']|] eqn:E;
    [|by vm_compute in E].
  exists posts. split; [done|].
  eapply Forall_impl; [apply (records_are_well_formed demo_fs posts fs' E)|].
  intros p (name & _ & _ & H1 & _ & H2 & _). done.
Defined.

(** ** What the organizer leaves alone *)

Lemma parts_from_assets r :
  parts_from DOCS_ASSETS_DIR r →
  parts_from DOCS_BLOGS_DIR r
  ∨ (∃ x q, r = DOCS_BLOGS_DIR ++ x :: q ∧ x ≠ ("assets" : str)).
Proof.
  intros (q & a & p1 & b & r1 & Hp & -> & Hab).
  change DOCS_ASSETS_DIR with ["docs" : str; "blogs" : str; "assets" : str] in Hp.
  change DOCS_BLOGS_DIR with ["docs" : str; "blogs" : str].
  destruct q as [|q0 [|q1 [|q2 q]]]; cbn [app] in Hp; simplify_eq.
  - left. by exists [], ("docs" : str), ["blogs" : str], b, r1.
  - left. by exists ["docs" : str], ("blogs" : str), [], b, r1.
  - right. by exists b, r1.
  - by destruct q.
Qed.

Lemma in_blogs_parts (f : listing → option listing) r t t' :
  in_dir DOCS_BLOGS_DIR f t = Some t' →
  (∀ es es' x, x ≠ ("assets" : str) → f es = Some es' → find x es' = find x es) →
  parts_from DOCS_ASSETS_DIR r → lookup r t' = lookup r t.
Proof.
  intros H Hf [Hr|(x & q & -> & Hx)]%parts_from_assets.
  - by apply (in_dir_parts _ _ _ _ _ H).
  - apply (in_dir_lookup_entry _ _ _ _ _ _ H). intros es es'. by apply Hf.
Qed.

Lemma reset_assets_parts fs fs2 r :
  reset_assets fs = Some fs2 → parts_from DOCS_ASSETS_DIR r →
  lookup r fs2 = lookup r fs.
Proof.
  unfold reset_assets. intros H Hr.
  destruct (exists_ DOCS_ASSETS_DIR fs).
  - destruct (rmtree DOCS_BLOGS_DIR "assets" fs) as [fs1|] eqn:E; [|done].
    cbn [mbind option_bind] in H.
    rewrite (mkdir_parents_parts _ _ _ _ H Hr).
    apply (in_blogs_parts _ _ _ _ E); [|done].
    intros es es' x Hx Hes. destruct (find "assets" es) as [[|]|]; try done.
    injection Hes as <-. by apply find_remove_ne.
  - by apply (mkdir_parents_parts _ _ _ _ H).
Qed.

Lemma with_assets_parts L t t' r :
  with_assets L t = Some t' → parts_from DOCS_ASSETS_DIR r →
  lookup r t' = lookup r t.
Proof.
  intros H. apply (in_blogs_parts _ _ _ _ H).
  intros es es' x Hx [= <-]. by apply find_put_ne.
Qed.

Lemma organize_assets_parts posts fs fs' r :
  organize_assets posts fs = Some fs' →
  parts_from DOCS_ASSETS_DIR r →
  lookup r fs' = lookup r fs.
Proof.
  intros H Hr. destruct (exists_ source_assets fs) eqn:He.
  - destruct (organize_assets_inv _ _ _ H He) as (fs2 & L & H1 & _ & H2 & _).
    rewrite (with_assets_parts _ _ _ _ H2 Hr).
    by apply (reset_assets_parts _ _ _ H1).
  - rewrite organize_assets_unfold, He in H. by injection H as <-.
Qed.

(** X9.  With record ids that are single path components, a run of
    [organize_assets] changes nothing but the destination root
    [docs/blogs/assets]: the corpus with its source asset tree, the other
    entries of [docs/blogs], the converted documents among them, the
    other entries of [docs] and everything beside [docs] are as they
    were. *)
Theorem organize_assets_frame posts fs fs' :
  Forall (λ p, plain_name (post_id p)) posts →
  organize_assets posts fs = Some fs' →
  (∀ q, lookup (BLOGS_DIR ++ q) fs' = lookup (BLOGS_DIR ++ q) fs)
  ∧ (∀ n q, n ≠ ("assets" : str) →
       lookup (DOCS_BLOGS_DIR ++ n :: q) fs' = lookup (DOCS_BLOGS_DIR ++ n :: q) fs)
  ∧ (∀ n q, n ≠ ("blogs" : str) →
       lookup (DOCS_DIR ++ n :: q) fs' = lookup (DOCS_DIR ++ n :: q) fs)
  ∧ (∀ n q, n ≠ ("docs" : str) → lookup (n :: q) fs' = lookup (n :: q) fs).
Proof.
  intros _ H. split_and!.
  - intros q. apply (organize_assets_parts _ _ _ _ H).
    exists [], ("docs" : str), ["blogs" : str; "assets" : str], ("blogs" : str), q.
    split_and!; [done..|apply blogs_docs].
  - intros n q Hn. apply (organize_assets_parts _ _ _ _ H).
    exists ["docs" : str; "blogs" : str], ("assets" : str), [], n, q.
    split_and!; [done..|congruence].
  - intros n q Hn. apply (organize_assets_parts _ _ _ _ H).
    exists ["docs" : str], ("blogs" : str), ["assets" : str], n, q.
    split_and!; [done..|congruence].
  - intros n q Hn. apply (organize_assets_parts _ _ _ _ H).
    exists [], ("docs" : str), ["blogs" : str; "assets" : str], n, q.
    split_and!; [done..|congruence].
Qed.

Lemma organize_assets_frame_witness :
  ∃ fs',
    organize_assets demo_posts demo_fs = Some fs'
    ∧ lookup ["blogs" : str; "assets" : str] fs'
      = lookup ["blogs" : str; "assets" : str] demo_fs
    ∧ lookup ["docs" : str; "js" : str; "blog.js" : str] fs'
      = lookup ["docs" : str; "js" : str; "blog.js" : str] demo_fs.
Proof.
  destruct (organize_assets demo_posts demo_fs) as [fs'|] eqn:E;
    [|by vm_compute in E].
  exists fs'.
  assert (Hids : Forall (λ p, plain_name (post_id p)) demo_posts).
  { repeat constructor; try done. cbn. not_in_lit. }
  destruct (organize_assets_frame demo_posts demo_fs fs' Hids E)
    as (H1 & _ & H3 & _).
  split_and!; [done|apply (H1 ["assets" : str])|].
  by apply (H3 "js" ["blog.js" : str]).
Defined.

(** ** The source tree *)

Lemma node_nested_ind (P : node → Prop) :
  (∀ d, P (File d)) →
  (∀ es, Forall (λ e, P e.2) es → P (Dir es)) →
  ∀ t, P t.
Proof.
  intros Hf Hd. fix IH 1. intros [d|es]; [apply Hf|]. apply Hd.
  induction es as [|[n x] es IHes]; constructor; [apply IH|apply IHes].
Qed.

(** The directories of a walk lie below its top. *)
Lemma walk_roots r t e : e ∈ walk r t → ∃ rel, e.1.1 = r ++ rel.
Proof.
  revert r e. induction t as [d|es IH] using node_nested_ind; intros r e.
  { by intros ?%elem_of_nil. }
  cbn [walk]. intros [->|He]%elem_of_cons.
  { exists []. by rewrite app_nil_r. }
  revert He. induction IH as [|[n x] es Hx _ IHes].
  { by intros ?%elem_of_nil. }
  intros [He|He]%elem_of_app.
  - destruct (Hx _ _ He) as [rel ->]. exists (n :: rel).
    by rewrite <-app_assoc.
  - by apply IHes.
Qed.

Lemma find_image_root image fs root :
  find_image image fs = Some root → ∃ rel, root = source_assets ++ rel.
Proof.
  unfold find_image. destruct (lookup source_assets fs) as [top|]; [|done].
  destruct (List.find _ _) as [e|] eqn:E; [|done]. intros [= <-].
  apply find_elem in E as [He _]. by apply (walk_roots _ top).
Qed.

Lemma find_image_ext image t fs0 :
  (∀ q, lookup (BLOGS_DIR ++ q) t = lookup (BLOGS_DIR ++ q) fs0) →
  find_image image t = find_image image fs0.
Proof. intros H. unfold find_image, source_assets. by rewrite H. Qed.

Lemma source_data_ext image t fs0 :
  (∀ q, lookup (BLOGS_DIR ++ q) t = lookup (BLOGS_DIR ++ q) fs0) →
  source_data t image = source_data fs0 image.
Proof.
  intros H. unfold source_data. rewrite (find_image_ext _ _ _ H).
  destruct (find_image image fs0) as [root|] eqn:E; [|done].
  cbn [mbind option_bind]. apply find_image_root in E as [rel ->].
  unfold file_data, source_assets. by rewrite <-!app_assoc, H.
Qed.

(** ** The folders of the records *)

Lemma slot_app id image : slot id image = (DOCS_ASSETS_DIR ++ [id]) ++ [image].
Proof. unfold slot. by rewrite <-app_assoc. Qed.

Lemma docs_assets_path : DOCS_ASSETS_DIR = [] ++ ("docs" : str) :: ["blogs" : str; "assets" : str].
Proof. done. Qed.

Lemma mkdir_exist_ok_slots id t t1 :
  mkdir_exist_ok DOCS_ASSETS_DIR id t = Some t1 →
  (∃ es, lookup (DOCS_ASSETS_DIR ++ [id]) t1 = Some (Dir es))
  ∧ (∀ id' image, lookup (slot id' image) t1 = lookup (slot id' image) t)
  ∧ (∀ q, lookup (BLOGS_DIR ++ q) t1 = lookup (BLOGS_DIR ++ q) t).
Proof.
  unfold mkdir_exist_ok. intros H.
  pose proof H as (es & es' & H1 & H2 & H3)%in_dir_lookup. cbv beta in H2.
  split_and!.
  - rewrite lookup_app, H3. cbn [mbind option_bind lookup].
    destruct (find id es) as [[d|l]|] eqn:Hf; simplify_eq.
    + rewrite Hf. by eexists.
    + rewrite find_put_eq. by eexists.
  - intros id' image. unfold slot. rewrite !lookup_app, H1, H3.
    cbn [mbind option_bind lookup].
    destruct (find id es) as [[d|l]|] eqn:Hf; simplify_eq; [done|].
    destruct (decide (id' = id)) as [->|Hne].
    + by rewrite find_put_eq, Hf.
    + by rewrite find_put_ne.
  - intros q. rewrite docs_assets_path in H.
    apply (in_dir_lookup_other [] _ _ "blogs" q _ _ _ H). apply blogs_docs.
Qed.

Lemma populated_slot_file fs0 S t id image :
  populated fs0 S t →
  ¬ (∃ es, lookup ((DOCS_ASSETS_DIR ++ [id]) ++ [image]) t = Some (Dir es)).
Proof.
  intros (_ & Hb & _) [es He]. rewrite <-slot_app in He.
  by destruct (Hb _ _ _ He) as (data & [=] & _).
Qed.

Lemma copy_image_populated fs0 (S S' : str → str → Prop) id image t t' :
  populated fs0 S t →
  (∀ i m, S' i m ↔ S i m ∨ (i = id ∧ m = image)) →
  (∃ es, lookup (DOCS_ASSETS_DIR ++ [id]) t = Some (Dir es)) →
  copy_image id t image = Some t' →
  populated fs0 S' t'
  ∧ (∃ es, lookup (DOCS_ASSETS_DIR ++ [id]) t' = Some (Dir es)).
Proof.
  intros HP HS Hdir. pose proof HP as (Ha & Hb & Hc).
  unfold copy_image. rewrite (find_image_ext _ _ _ Ha).
  destruct (find_image image fs0) as [root|] eqn:Hfind.
  - unfold copy2. intros H.
    pose proof (source_data_ext image t fs0 Ha) as Hsd.
    unfold source_data in Hsd. rewrite (find_image_ext _ _ _ Ha), Hfind in Hsd.
    cbn [mbind option_bind] in Hsd.
    destruct (file_data (root ++ [image]) t) as [data|] eqn:Hdata; [|done].
    cbn [mbind option_bind] in H.
    assert (Hw : write_file (DOCS_ASSETS_DIR ++ [id]) image data t = Some t').
    { destruct (lookup ((DOCS_ASSETS_DIR ++ [id]) ++ [image]) t)
        as [[d|es]|] eqn:E; try done.
      destruct (populated_slot_file _ _ _ id image HP). by exists es. }
    clear H.
    assert (Hsrc : source_data fs0 image = Some data).
    { unfold source_data. by rewrite Hfind. }
    assert (Hother : ∀ i m, (i, m) ≠ (id, image) →
              lookup (slot i m) t' = lookup (slot i m) t).
    { intros i m Hne. destruct (decide (i = id)) as [->|Hi].
      - rewrite !slot_app.
        apply (write_file_other_name _ _ _ _ _ _ [] Hw). congruence.
      - unfold slot.
        by apply (write_file_other_dir DOCS_ASSETS_DIR id [] image data i [m]). }
    assert (Hnew : file_data (slot id image) t' = Some data).
    { rewrite slot_app. by apply write_file_data in Hw. }
    split.
    + split_and!.
      * intros q. rewrite <-Ha. rewrite docs_assets_path in Hw.
        rewrite <-app_assoc in Hw.
        apply (write_file_other_dir [] _ _ _ _ "blogs" q _ _ Hw).
        apply blogs_docs.
      * intros i m x Hx. destruct (decide ((i, m) = (id, image))) as [[= -> ->]|Hne].
        -- unfold file_data in Hnew. rewrite Hx in Hnew.
           destruct x as [d|?]; [|done]. injection Hnew as ->.
           exists data. split_and!; [done| |done]. apply HS. by right.
        -- rewrite Hother in Hx by done.
           destruct (Hb _ _ _ Hx) as (d & -> & HSim & Hd).
           exists d. split_and!; [done| |done]. apply HS. by left.
      * intros i m HSim Hf.
        destruct (decide ((i, m) = (id, image))) as [[= -> ->]|Hne].
        -- by exists data.
        -- apply HS in HSim as [HSim|[-> ->]]; [|done].
           destruct (Hc _ _ HSim Hf) as (d & Hd1 & Hd2).
           exists d. split; [done|]. unfold file_data. by rewrite Hother.
    + pose proof Hw as (? & es' & _ & _ & Hl)%in_dir_lookup. by exists es'.
  - intros [= <-]. split; [|done]. split_and!; [done| |].
    + intros i m x Hx. destruct (Hb _ _ _ Hx) as (d & -> & HSim & Hd).
      exists d. split_and!; [done| |done]. apply HS. by left.
    + intros i m HSim Hf. apply HS in HSim as [HSim|[-> ->]].
      * by apply Hc.
      * rewrite Hfind in Hf. by destruct Hf.
Qed.

Lemma copy_images_populated fs0 (S S' : str → str → Prop) id images t t' :
  populated fs0 S t →
  (∀ i m, S' i m ↔ S i m ∨ (i = id ∧ m ∈ images)) →
  (∃ es, lookup (DOCS_ASSETS_DIR ++ [id]) t = Some (Dir es)) →
  foldM (copy_image id) t images = Some t' →
  populated fs0 S' t'.
Proof.
  revert S t. induction images as [|image images IH]; intros S t HP HS Hdir H.
  - injection H as <-. destruct HP as (Ha & Hb & Hc). split_and!; [done| |].
    + intros i m x Hx. destruct (Hb _ _ _ Hx) as (d & -> & HSim & Hd).
      exists d. split_and!; [done| |done]. apply HS. by left.
    + intros i m [HSim|[_ Hm]]%HS Hf; [by apply Hc|].
      by apply elem_of_nil in Hm.
  - cbn [foldM] in H.
    destruct (copy_image id t image) as [t1|] eqn:Hc; [|done].
    cbn [mbind option_bind] in H.
    destruct (copy_image_populated fs0 S
                (λ i m, S i m ∨ (i = id ∧ m = image)) id image t t1)
      as [HP1 Hdir1]; [done|done|done|done|].
    apply (IH _ _ HP1); [|done|done].
    intros i m. rewrite HS, elem_of_cons. tauto.
Qed.

Lemma organize_post_populated fs0 (S S' : str → str → Prop) p t t' :
  populated fs0 S t →
  (∀ i m, S' i m ↔ S i m ∨ (i = post_id p ∧ m ∈ post_images p)) →
  organize_post t p = Some t' →
  populated fs0 S' t'.
Proof.
  intros HP HS. unfold organize_post.
  destruct (post_images p) as [|image images] eqn:Hi.
  - intros [= <-]. destruct HP as (Ha & Hb & Hc). split_and!; [done| |].
    + intros i m x Hx. destruct (Hb _ _ _ Hx) as (d & -> & HSim & Hd).
      exists d. split_and!; [done| |done]. apply HS. by left.
    + intros i m [HSim|[_ Hm]]%HS Hf; [by apply Hc|].
      by apply elem_of_nil in Hm.
  - destruct (mkdir_exist_ok DOCS_ASSETS_DIR (post_id p) t) as [t1|] eqn:Hm;
      [|done].
    cbn [mbind option_bind].
    destruct (mkdir_exist_ok_slots _ _ _ Hm) as (Hdir & Hslots & Hsrc).
    apply (copy_images_populated fs0 S); [|done|done].
    destruct HP as (Ha & Hb & Hc). split_and!.
    + intros q. by rewrite Hsrc.
    + intros i m x. rewrite Hslots. apply Hb.
    + intros i m HSim Hf. destruct (Hc _ _ HSim Hf) as (d & Hd1 & Hd2).
      exists d. split; [done|]. unfold file_data. by rewrite Hslots.
Qed.

Lemma populate_populated fs0 (S S' : str → str → Prop) posts t t' :
  populated fs0 S t →
  (∀ i m, S' i m ↔
     S i m ∨ ∃ p, p ∈ posts ∧ i = post_id p ∧ m ∈ post_images p) →
  foldM organize_post t posts = Some t' →
  populated fs0 S' t'.
Proof.
  revert S t. induction posts as [|p posts IH]; intros S t HP HS H.
  - injection H as <-. destruct HP as (Ha & Hb & Hc). split_and!; [done| |].
    + intros i m x Hx. destruct (Hb _ _ _ Hx) as (d & -> & HSim & Hd).
      exists d. split_and!; [done| |done]. apply HS. by left.
    + intros i m [HSim|(q & Hq & _)]%HS Hf; [by apply Hc|].
      by apply elem_of_nil in Hq.
  - cbn [foldM] in H.
    destruct (organize_post t p) as [t1|] eqn:Hp; [|done].
    cbn [mbind option_bind] in H.
    apply (IH (λ i m, S i m ∨ (i = post_id p ∧ m ∈ post_images p)) t1);
      [|clear -HS|done].
    + by apply (organize_post_populated fs0 S _ p t).
    + intros i m. rewrite HS. split.
      * intros [?|(q & [->|?]%elem_of_cons & ? & ?)];
          [by left; left|by left; right|right; by exists q].
      * intros [[?|[? ?]]|(q & ? & ? & ?)];
          [by left|right; exists p|right; exists q];
          (split; [|done]); [left|by right].
Qed.

Lemma organize_assets_populated posts fs fs' :
  exists_ source_assets fs = true →
  organize_assets posts fs = Some fs' →
  populated fs
    (λ i m, ∃ p, p ∈ posts ∧ i = post_id p ∧ m ∈ post_images p) fs'.
Proof.
  intros He H.
  destruct (organize_assets_inv _ _ _ H He) as (fs2 & L & Hr & Hp & _ & _).
  assert (HP0 : populated fs (λ _ _, False) fs2).
  { split_and!.
    - intros q. by apply reset_assets_blogs.
    - intros id image x. unfold slot. rewrite lookup_app.
      by rewrite (reset_assets_empty _ _ Hr).
    - done. }
  apply (populate_populated fs (λ _ _, False) _ posts fs2 fs' HP0); [|done].
  intros i m; split; [by right|by intros [[]|?]].
Qed.

(** X8.  With record ids that are single path components, after a run of
    [organize_assets] over a source asset tree the folder of a record
    holds a copy of every image the record lists that the source tree
    has: the file of that name in the first directory of the walk that
    lists it.  The folders hold nothing else: every entry is such a file,
    for an image that a record with that id lists. *)
Theorem organize_assets_copies posts fs fs' :
  Forall (λ p, plain_name (post_id p)) posts →
  exists_ source_assets fs = true →
  organize_assets posts fs = Some fs' →
  (∀ p image, p ∈ posts → image ∈ post_images p →
     is_Some (find_image image fs) →
     ∃ data, source_data fs image = Some data
             ∧ file_data (DOCS_ASSETS_DIR ++ [post_id p; image]) fs'
               = Some data)
  ∧ (∀ id image x,
       lookup (DOCS_ASSETS_DIR ++ [id; image]) fs' = Some x →
       ∃ data p, x = File data ∧ p ∈ posts ∧ post_id p = id
                 ∧ image ∈ post_images p
                 ∧ source_data fs image = Some data).
Proof.
  intros _ He H.
  destruct (organize_assets_populated posts fs fs' He H) as (_ & Hb & Hc).
  split.
  - intros p image Hpin Hi Hf. apply (Hc (post_id p) image); [|done].
    by exists p.
  - intros id image x Hx.
    destruct (Hb id image x Hx) as (data & -> & (p & ? & -> & ?) & Hd).
    by exists data, p.
Qed.

Lemma organize_assets_copies_witness :
  ∃ fs',
    organize_assets demo_posts demo_fs = Some fs'
    ∧ source_data demo_fs "x.png" = Some ("PNG" : str)
    ∧ file_data (DOCS_ASSETS_DIR ++ ["230101-a" : str; "x.png" : str]) fs'
      = Some ("PNG" : str).
Proof.
  destruct (organize_assets demo_posts demo_fs) as [fs'|] eqn:E;
    [|by vm_compute in E].
  exists fs'.
  assert (Hids : Forall (λ p, plain_name (post_id p)) demo_posts).
  { repeat constructor; try done. cbn. not_in_lit. }
  destruct (organize_assets_copies demo_posts demo_fs fs' Hids eq_refl E)
    as [H1 _].
  destruct (H1 (Post "230101-a" "2023-01-01" "A" ["x.png" : str]) "x.png")
    as (data & Hd1 & Hd2); [left|left|vm_compute; by eexists|].
  split_and!; [done|by vm_compute|].
  cbn [post_id] in Hd2. rewrite Hd2, <-Hd1. by vm_compute.
Defined.

(** ** Completion of the organizer *)













(** ** The publisher and its template *)

(** X11.  A metadata block with an image name that [json.dumps] writes
    with a [\u] escape (a character beyond ASCII, or a control character
    without a short escape) is no replacement template: when the target
    script exists, [update_blog_js] raises, whatever the other records
    are. *)
Theorem update_blog_js_raises_on_unicode_escape posts fs p image :
  p ∈ posts → image ∈ post_images p → existsb needs_u image = true →
  exists_ blog_js_path fs = true →
  update_blog_js posts fs = None.
Proof.
  intros Hp Hi Hu He. unfold update_blog_js. rewrite He. cbn [negb].
  destruct (read_file blog_js_path fs) as [content|]; [|done].
  cbn [mbind option_bind]. unfold new_blog_js, sub.
  by rewrite (metadata_js_unicode_escape _ posts p image).
Qed.

Lemma update_blog_js_raises_on_unicode_escape_witness :
  update_blog_js demo_accent_posts demo_fs = None.
Proof.
  apply (update_blog_js_raises_on_unicode_escape demo_accent_posts demo_fs
           (Post "230101-a" "2023-01-01" "A" ["caf" ++ ["233"%char] ++ ".png"])
           ("caf" ++ ["233"%char] ++ ".png")).
  - left.
  - left.
  - by vm_compute.
  - by vm_compute.
Defined.

(** X12.  For records without a backslash in id, date and title, and with
    image names of printable ASCII characters other than the double quote
    and the backslash, [update_blog_js] puts the metadata block itself in
    the place of the first marker region: the block is a template that
    stands for itself, a single quote of a title being written [\'] in
    it. *)
Theorem update_blog_js_publishes_block posts fs data pre ws body post :
  Forall safe_record posts →
  file_data blog_js_path fs = Some data →
  universal_newlines data = pre ++ marker_text ws body ++ post →
  marker_parts ws body →
  (∀ i, i < length pre →
     ¬ marker_at_head (drop i (pre ++ marker_text ws body ++ post))) →
  ∃ fs',
    update_blog_js posts fs = Some fs'
    ∧ file_data blog_js_path fs' = Some (pre ++ metadata_js posts ++ post).
Proof.
  intros Hsafe Hdata Hread Hparts Hfirst.
  destruct (parse_template_literal 0 (metadata_js posts)) as (tpl & Ht & He).
  { by apply literal_template_block. }
  pose proof (new_blog_js_first posts pre ws body post tpl Ht Hparts Hfirst)
    as Hnew.
  rewrite He in Hnew.
  apply (update_blog_js_text posts fs (pre ++ marker_text ws body ++ post));
    [|done].
  apply read_file_data. by exists data.
Qed.

Lemma update_blog_js_publishes_block_witness :
  ∃ fs',
    update_blog_js demo_quoted_posts demo_fs = Some fs'
    ∧ file_data blog_js_path fs'
      = Some ("const blog = { postsMetadata: [" ++ ["010"%char]
              ++ "    { id: '230101-a', date: '2023-01-01', "
              ++ "title: 'It\'s a title', images: ["
              ++ ["034"%char] ++ "x.png" ++ ["034"%char] ++ "] },"
              ++ ["010"%char] ++ "  ]"
              ++ ", tags: [1] }; // postsMetadata: [ kept ]").
Proof.
  destruct (update_blog_js_publishes_block demo_quoted_posts demo_fs
              ("const blog = { " ++ "postsMetadata: [ old ]"
               ++ ", tags: [1] }; // postsMetadata: [ kept ]")
              "const blog = { " " " " old "
              ", tags: [1] }; // postsMetadata: [ kept ]")
    as (fs' & Hu & Hr).
  - repeat constructor; cbn; not_in_lit.
  - by vm_compute.
  - by vm_compute.
  - split; [by repeat constructor|not_in_lit].
  - intros i Hi. apply marker_None with (ma := false).
    do 15 (destruct i as [|i]; [by vm_compute|]).
    cbn in Hi. lia.
  - exists fs'. split; [done|]. rewrite Hr. by vm_compute.
Defined.

(** ** A script without a marker region *)

(** X13.  When no marker region occurs in the target script,
    [update_blog_js] publishes nothing and raises nothing: provided the
    metadata block is a replacement template, the run completes and the
    script holds the text that was read. *)
Theorem update_blog_js_without_marker posts fs data tpl :
  file_data blog_js_path fs = Some data →
  parse_template 0 (metadata_js posts) = Some tpl →
  (∀ i, ¬ marker_at_head (drop i (universal_newlines data))) →
  ∃ fs',
    update_blog_js posts fs = Some fs'
    ∧ file_data blog_js_path fs' = Some (universal_newlines data).
Proof.
  intros Hdata Ht Hnone.
  apply (update_blog_js_text posts fs (universal_newlines data)).
  - apply read_file_data. by exists data.
  - by apply (new_blog_js_none posts _ tpl).
Qed.

Lemma update_blog_js_without_marker_witness :
  ∃ fs',
    update_blog_js demo_posts demo_plain_fs = Some fs'
    ∧ file_data blog_js_path fs' = Some ("var x = 1;" : str).
Proof.
  assert (Hu : universal_newlines "var x = 1;" = ("var x = 1;" : str))
    by (by vm_compute).
  destruct (update_blog_js_without_marker demo_posts demo_plain_fs
              "var x = 1;" ((λ c, TLit [c]) <$> metadata_js demo_posts))
    as (fs' & H1 & H2).
  - by vm_compute.
  - apply parse_template_plain. vm_compute. not_in_lit.
  - intros i. rewrite Hu. apply marker_None with (ma := false).
    do 10 (destruct i as [|i]; [by vm_compute|]).
    by rewrite drop_ge by (cbn; lia).
  - exists fs'. by rewrite H2, Hu.
Defined.

(** ** Publishing twice *)

Lemma upto_after c (s : str) :
  c ∈ s → s = upto c s ++ c :: after c s ∧ c ∉ upto c s.
Proof.
  induction s as [|d s IH]; [by intros ?%elem_of_nil|].
  cbn [upto after]. destruct (eqc d c) eqn:E.
  - apply eqc_true in E. subst d. intros _. split; [done|apply not_elem_of_nil].
  - apply eqc_false in E. intros [->|Hc]%elem_of_cons; [done|].
    destruct (IH Hc) as [H1 H2]. split; [cbn; by f_equal|].
    apply not_elem_of_cons. split; [congruence|done].
Qed.

Lemma after_nonempty c (X Y : str) : Y ≠ [] → after c (X ++ c :: Y) ≠ [].
Proof.
  intros HY. induction X as [|d X IH]; cbn [app after].
  - by rewrite eqc_refl.
  - destruct (eqc d c); [by destruct X|done].
Qed.

(** The block of at least one record, read as a marker region: the region
    ends at the first closing bracket, that of the first record's image
    list or an earlier one, and the rest of the block is left over. *)
Lemma metadata_js_marker p posts :
  ∃ body tail,
    metadata_js (p :: posts) = marker_text " " body ++ tail
    ∧ marker_parts " " body ∧ tail ≠ [].
Proof.
  set (rest := ["010"%char] ++ concat (metadata_line <$> p :: posts) ++ "  ]").
  assert (Hm : metadata_js (p :: posts) = "postsMetadata: [" ++ rest) by done.
  assert (Hrest : ∃ X Y, rest = X ++ "]"%char :: Y ∧ Y ≠ []).
  { exists (["010"%char] ++ "    { id: '" ++ post_id p ++ "', date: '"
            ++ post_date p ++ "', title: '"
            ++ replace_char "'" "\'" (post_title p) ++ "', images: "
            ++ "[" ++ join ", " (json_string <$> post_images p)),
           (" }," ++ ["010"%char] ++ concat (metadata_line <$> posts) ++ "  ]").
    split; [|done]. unfold rest. cbn [fmap list_fmap concat].
    unfold metadata_line at 1. cbv zeta. unfold json_dumps.
    rewrite <-!app_assoc. cbn [app]. by rewrite <-?app_assoc. }
  destruct Hrest as (X & Y & HXY & HY).
  assert (Hin : "]"%char ∈ rest).
  { rewrite HXY. apply elem_of_app. right. left. }
  destruct (upto_after "]" rest Hin) as [H1 H2].
  exists (upto "]" rest), (after "]" rest). split_and!.
  - rewrite Hm. rewrite H1 at 1. unfold marker_text.
    rewrite <-!app_assoc. cbn [app]. done.
  - split; [by repeat constructor|done].
  - rewrite HXY. by apply after_nonempty.
Qed.

(** X14.  Publishing is not repeatable: when the script already holds the
    block of the same records, at least one, the marker region found is
    the block up to its first closing bracket only, and the run leaves the
    rest of the old block behind the new one. *)
Theorem update_blog_js_leaves_a_remainder posts fs data pre post :
  posts ≠ [] → Forall safe_record posts →
  file_data blog_js_path fs = Some data →
  universal_newlines data = pre ++ metadata_js posts ++ post →
  (∀ i, i < length pre →
     ¬ marker_at_head (drop i (pre ++ metadata_js posts ++ post))) →
  ∃ fs' body tail,
    update_blog_js posts fs = Some fs'
    ∧ metadata_js posts = marker_text " " body ++ tail
    ∧ ("]"%char ∉ body) ∧ tail ≠ []
    ∧ file_data blog_js_path fs'
      = Some (pre ++ metadata_js posts ++ tail ++ post).
Proof.
  intros Hne Hsafe Hdata Hread Hfirst.
  destruct posts as [|p posts]; [done|].
  destruct (metadata_js_marker p posts) as (body & tail & HM & Hparts & Htail).
  destruct (update_blog_js_publishes_block (p :: posts) fs data pre " " body
              (tail ++ post)) as (fs' & Hu & Hw); try done.
  - by rewrite Hread, HM, <-app_assoc.
  - intros i Hi. specialize (Hfirst i Hi). by rewrite HM, <-app_assoc in Hfirst.
  - exists fs', body, tail. split_and!; try done. by destruct Hparts.
Qed.

Lemma update_blog_js_leaves_a_remainder_witness :
  ∃ fs' tail,
    update_blog_js demo_posts demo_published_fs = Some fs'
    ∧ tail ≠ []
    ∧ file_data blog_js_path fs'
      = Some ("const blog = { " ++ metadata_js demo_posts ++ tail
              ++ ", tags: [1] }; // postsMetadata: [ kept ]").
Proof.
  destruct (update_blog_js_leaves_a_remainder demo_posts demo_published_fs
              ("const blog = { " ++ metadata_js demo_posts
               ++ ", tags: [1] }; // postsMetadata: [ kept ]")
              "const blog = { "
              ", tags: [1] }; // postsMetadata: [ kept ]")
    as (fs' & body & tail & Hu & HM & Hb & Ht & Hw).
  - done.
  - repeat constructor; cbn; not_in_lit.
  - by vm_compute.
  - by vm_compute.
  - intros i Hi. apply marker_None with (ma := false).
    do 15 (destruct i as [|i]; [by vm_compute|]).
    cbn in Hi. lia.
  - by exists fs', tail.
Defined.

(** ** What the publisher leaves alone *)

Lemma update_blog_js_parts posts fs fs' r :
  update_blog_js posts fs = Some fs' →
  parts_from DOCS_JS_DIR r
  ∨ (∃ n q, r = DOCS_JS_DIR ++ n :: q ∧ n ≠ ("blog.js" : str)) →
  lookup r fs' = lookup r fs.
Proof.
  unfold update_blog_js. intros H Hr.
  destruct (negb _); [by injection H as <-|].
  destruct (read_file blog_js_path fs) as [content|]; [|done].
  cbn [mbind option_bind] in H.
  destruct (new_blog_js posts content) as [new|]; [|done].
  cbn [mbind option_bind] in H.
  destruct Hr as [Hr|(n & q & -> & Hn)].
  - by apply (in_dir_parts _ _ _ _ _ H).
  - by apply (write_file_other_name _ _ _ _ _ _ _ H).
Qed.

(** X15.  A run of [update_blog_js] changes nothing but the target
    script [docs/js/blog.js]: the other entries of [docs/js], the other
    entries of [docs], the converted documents and the asset folders among
    them, and everything beside [docs] are as they were. *)
Theorem update_blog_js_frame posts fs fs' :
  update_blog_js posts fs = Some fs' →
  (∀ n q, n ≠ ("blog.js" : str) →
     lookup (DOCS_JS_DIR ++ n :: q) fs' = lookup (DOCS_JS_DIR ++ n :: q) fs)
  ∧ (∀ n q, n ≠ ("js" : str) →
       lookup (DOCS_DIR ++ n :: q) fs' = lookup (DOCS_DIR ++ n :: q) fs)
  ∧ (∀ n q, n ≠ ("docs" : str) → lookup (n :: q) fs' = lookup (n :: q) fs).
Proof.
  intros H. split_and!.
  - intros n q Hn. apply (update_blog_js_parts _ _ _ _ H). right.
    by exists n, q.
  - intros n q Hn. apply (update_blog_js_parts _ _ _ _ H). left.
    exists ["docs" : str], ("js" : str), [], n, q.
    split_and!; [done..|congruence].
  - intros n q Hn. apply (update_blog_js_parts _ _ _ _ H). left.
    exists [], ("docs" : str), ["js" : str], n, q.
    split_and!; [done..|congruence].
Qed.

Lemma update_blog_js_frame_witness :
  ∃ fs',
    update_blog_js demo_posts demo_fs = Some fs'
    ∧ lookup ["blogs" : str] fs' = lookup ["blogs" : str] demo_fs
    ∧ lookup ["docs" : str; "blogs" : str] fs'
      = lookup ["docs" : str; "blogs" : str] demo_fs.
Proof.
  destruct (update_blog_js demo_posts demo_fs) as [fs'|] eqn:E;
    [|by vm_compute in E].
  exists fs'.
  destruct (update_blog_js_frame demo_posts demo_fs fs' E) as (_ & H2 & H3).
  split_and!; [done|by apply (H3 "blogs" [])|by apply (H2 "blogs" [])].
Defined.

(** ** The whole build *)

Lemma documents_md fs name : name ∈ documents fs → endswith ".md" name = true.
Proof.
  unfold documents. rewrite sorted_desc_Permutation. unfold glob_suffix.
  destruct (lookup BLOGS_DIR fs) as [[d|es]|]; try by intros ?%elem_of_nil.
  by intros [? _]%list_elem_of_filter.
Qed.

Lemma documents_not_assets fs name : name ∈ documents fs → name ≠ ("assets" : str).
Proof. intros H%documents_md ->. by vm_compute in H. Qed.

Lemma main_inv fs fs' :
  main fs = Some fs' →
  ∃ posts fs1 fs2,
    process_markdown_files fs = Some (posts, fs1)
    ∧ organize_assets posts fs1 = Some fs2
    ∧ update_blog_js posts fs2 = Some fs'.
Proof.
  unfold main. intros H.
  destruct (process_markdown_files fs) as [[posts fs1]|]; [|done].
  cbn [mbind option_bind] in H.
  destruct (organize_assets posts fs1) as [fs2|] eqn:Ho; [|done].
  cbn [mbind option_bind] in H. by exists posts, fs1, fs2.
Qed.

Lemma parts_blogs_assets name q :
  name ≠ ("assets" : str) →
  parts_from DOCS_ASSETS_DIR (DOCS_BLOGS_DIR ++ name :: q).
Proof.
  intros Hn. exists ["docs" : str; "blogs" : str], ("assets" : str), [], name, q.
  split_and!; [done..|congruence].
Qed.

Lemma parts_source_assets q : parts_from DOCS_ASSETS_DIR (BLOGS_DIR ++ q).
Proof.
  exists [], ("docs" : str), ["blogs" : str; "assets" : str], ("blogs" : str), q.
  split_and!; [done..|apply blogs_docs].
Qed.

Lemma parts_source_js q : parts_from DOCS_JS_DIR (BLOGS_DIR ++ q).
Proof.
  exists [], ("docs" : str), ["js" : str], ("blogs" : str), q.
  split_and!; [done..|apply blogs_docs].
Qed.

Lemma parts_blogs_js q : parts_from DOCS_JS_DIR (DOCS_BLOGS_DIR ++ q).
Proof. by exists ["docs" : str], ("js" : str), [], ("blogs" : str), q. Qed.

(** X16.  After a build that completes, the corpus is as it was, the
    output directory holds the normalization of every document under the
    document's name, and, when there is a source asset tree, the folder of
    every record holds a copy of each of its images that the source tree
    has: the later stages undo nothing of the earlier ones. *)
Theorem main_outcome fs fs' :
  main fs = Some fs' →
  (∀ q, lookup (BLOGS_DIR ++ q) fs' = lookup (BLOGS_DIR ++ q) fs)
  ∧ (∀ name, name ∈ documents fs →
       ∃ out,
         convert_obsidian_images (content_of fs name) (stem name) = Some out
         ∧ file_data (DOCS_BLOGS_DIR ++ [name]) fs' = Some out)
  ∧ (exists_ source_assets fs = true →
     ∀ name p image,
       name ∈ documents fs →
       record_of name (content_of fs name) = Some p →
       image ∈ post_images p →
       is_Some (find_image image fs) →
       ∃ data,
         source_data fs image = Some data
         ∧ file_data (DOCS_ASSETS_DIR ++ [stem name; image]) fs' = Some data).
Proof.
  intros (posts & fs1 & fs2 & Hp & Ho & Hu)%main_inv.
  destruct (process_markdown_files_inv _ _ _ Hp) as (Hposts & Hfiles & Hsrc1).
  assert (Hsrc2 : ∀ q, lookup (BLOGS_DIR ++ q) fs2 = lookup (BLOGS_DIR ++ q) fs).
  { intros q. rewrite <-Hsrc1.
    apply (organize_assets_parts _ _ _ _ Ho), parts_source_assets. }
  split_and!.
  - intros q. rewrite <-Hsrc2.
    apply (update_blog_js_parts _ _ _ _ Hu). left. apply parts_source_js.
  - intros name Hn. destruct (Hfiles name Hn) as (out & Hc & Hf).
    exists out. split; [done|]. unfold file_data in *.
    rewrite (update_blog_js_parts _ _ _ _ Hu) by (left; apply parts_blogs_js).
    rewrite (organize_assets_parts _ _ _ _ Ho); [done|].
    apply parts_blogs_assets. by eapply documents_not_assets.
  - intros He name p image Hn Hr Hi Hf.
    assert (He1 : exists_ source_assets fs1 = true).
    { unfold exists_, source_assets in *. by rewrite Hsrc1. }
    destruct (organize_assets_populated posts fs1 fs2 He1 Ho) as (_ & _ & Hc).
    destruct (Hc (stem name) image) as (data & Hd1 & Hd2).
    + exists p. split_and!; [|by apply record_of_Some in Hr
                                  as (? & ? & ? & _ & _ & ->)|done].
      rewrite Hposts. apply list_elem_of_omap. by exists name.
    + by rewrite (find_image_ext _ _ _ Hsrc1).
    + exists data. split; [by rewrite <-(source_data_ext image fs1 fs)|].
      unfold file_data, slot in *.
      rewrite (update_blog_js_parts _ _ _ _ Hu); [done|]. left.
      unfold DOCS_ASSETS_DIR. rewrite <-app_assoc. apply parts_blogs_js.
Qed.

Lemma main_outcome_witness :
  ∃ fs',
    main demo_fs = Some fs'
    ∧ lookup ["blogs" : str] fs' = lookup ["blogs" : str] demo_fs
    ∧ file_data (DOCS_BLOGS_DIR ++ ["230101-a.md" : str]) fs'
      = Some ("# A" ++ ["010"%char] ++ "![](assets/230101-a/x.png) text")
    ∧ file_data (DOCS_ASSETS_DIR ++ ["230101-a" : str; "x.png" : str]) fs'
      = Some ("PNG" : str).
Proof.
  destruct (main demo_fs) as [fs'|] eqn:E; [|by vm_compute in E].
  exists fs'.
  destruct (main_outcome demo_fs fs' E) as (H1 & H2 & H3).
  split_and!; [done|apply (H1 [])| |].
  - destruct (H2 "230101-a.md") as (out & Ho & Hf); [vm_compute; right; left|].
    rewrite Hf, <-Ho. by vm_compute.
  - destruct (H3 eq_refl "230101-a.md"
                (Post "230101-a" "2023-01-01" "A" ["x.png" : str]) "x.png")
      as (data & Hd1 & Hd2);
      [vm_compute; right; left|by vm_compute|left|vm_compute; by eexists|].
    change (stem "230101-a.md") with ("230101-a" : str) in Hd2.
    rewrite Hd2, <-Hd1. by vm_compute.
Defined.

(** X17.  One image name beyond ASCII stops the build: when the target
    script exists and some document with a record refers to an image whose
    name [json.dumps] writes with a [\u] escape, [main] raises, in the
    publisher at the latest. *)
Theorem main_raises_on_unicode_image fs name p image :
  exists_ blog_js_path fs = true →
  name ∈ documents fs →
  record_of name (content_of fs name) = Some p →
  image ∈ post_images p → existsb needs_u image = true →
  main fs = None.
Proof.
  intros He Hn Hr Hi Hu.
  destruct (main fs) as [fs'|] eqn:E; [|done].
  apply main_inv in E as (posts & fs1 & fs2 & Hp & Ho & Hup).
  destruct (process_markdown_files_inv _ _ _ Hp) as (Hposts & _ & _).
  assert (Hin : p ∈ posts).
  { rewrite Hposts. apply list_elem_of_omap. by exists name. }
  assert (He2 : exists_ blog_js_path fs2 = true).
  { unfold exists_ in *.
    rewrite (organize_assets_parts _ _ _ _ Ho).
    - rewrite (process_markdown_files_parts _ _ _ _ Hp); [done|]. left.
      by exists ["docs" : str], ("blogs" : str), [], ("js" : str),
                ["blog.js" : str].
    - by exists ["docs" : str], ("blogs" : str), ["assets" : str],
                ("js" : str), ["blog.js" : str]. }
  unfold update_blog_js in Hup. rewrite He2 in Hup. cbn [negb] in Hup.
  destruct (read_file blog_js_path fs2) as [content|]; [|done].
  cbn [mbind option_bind] in Hup. unfold new_blog_js, sub in Hup.
  by rewrite (metadata_js_unicode_escape _ posts p image) in Hup.
Qed.

Lemma main_raises_on_unicode_image_witness : main demo_accent_fs = None.
Proof.
  apply (main_raises_on_unicode_image demo_accent_fs "230101-a.md"
           (Post "230101-a" "2023-01-01" "A" ["caf" ++ ["233"%char] ++ ".png"])
           ("caf" ++ ["233"%char] ++ ".png")).
  - by vm_compute.
  - vm_compute. left.
  - by vm_compute.
  - left.
  - by vm_compute.
Defined.

(** ** The scanner and the normalizer *)




(** ** Running the processor again *)

Lemma mkdir_parents_exists p t es :
  lookup p t = Some (Dir es) → mkdir_parents p t = Some t.
Proof.
  revert t. induction p as [|n p IH]; intros [d|es0] H; try done.
  cbn [lookup] in H. cbn [mkdir_parents].
  destruct (find n es0) as [sub|] eqn:Hf; [|done].
  change (default (Dir []) (Some sub)) with sub.
  cbn [mbind option_bind] in H. rewrite (IH sub H).
  cbn [mbind option_bind]. by rewrite put_same.
Qed.

Lemma write_file_same dir name data t :
  file_data (dir ++ [name]) t = Some data →
  write_file dir name data t = Some t.
Proof.
  intros (es & Hd & Hf)%file_data_parent. unfold write_file.
  apply (in_dir_id _ _ _ _ Hd). rewrite Hf. by rewrite put_same.
Qed.

Lemma process_loop_again names posts fs :
  (∀ name, name ∈ names →
     ∃ content out,
       read_file (BLOGS_DIR ++ [name]) fs = Some content
       ∧ convert_obsidian_images content (stem name) = Some out
       ∧ file_data (DOCS_BLOGS_DIR ++ [name]) fs = Some out) →
  foldM process_file (posts, fs) names
  = Some (posts ++ omap (λ name, record_of name (content_of fs name)) names, fs).
Proof.
  revert posts. induction names as [|name names IH]; intros posts H.
  { cbn. by rewrite app_nil_r. }
  destruct (H name) as (content & out & Hr & Hc & Hf); [left|].
  assert (Hp : process_file (posts, fs) name
               = Some (posts ++ option_list (record_of name content), fs)).
  { unfold process_file. rewrite Hr. cbn [mbind option_bind].
    rewrite Hc. cbn [mbind option_bind].
    rewrite (write_file_same _ _ _ _ Hf). cbn [mbind option_bind].
    do 2 f_equal. rewrite <-truthy_record. destruct (_ && _); [done|].
    cbn [option_list]. by rewrite app_nil_r. }
  cbn [foldM]. rewrite Hp. cbn [mbind option_bind].
  rewrite IH by (intros n Hn; apply H; by right).
  assert (Hcontent : content_of fs name = content)
    by (unfold content_of; by rewrite Hr).
  cbn [omap list_omap]. rewrite Hcontent, <-app_assoc.
  by destruct (record_of name content).
Qed.

Lemma process_loop_dir names posts fs posts' fs' :
  foldM process_file (posts, fs) names = Some (posts', fs') →
  (∃ es, lookup DOCS_BLOGS_DIR fs = Some (Dir es)) →
  ∃ es, lookup DOCS_BLOGS_DIR fs' = Some (Dir es).
Proof.
  revert posts fs. induction names as [|n names IH]; intros posts fs H Hd.
  { by simplify_eq/=. }
  cbn [foldM] in H.
  destruct (process_file (posts, fs) n) as [[posts1 fs1]|] eqn:Hp; [|done].
  cbn [mbind option_bind] in H. apply (IH _ _ H).
  apply process_file_inv in Hp as (content & out & _ & _ & Hw & _).
  apply in_dir_lookup in Hw as (? & es' & _ & _ & Hl). by exists es'.
Qed.

Lemma process_markdown_files_reads fs posts fs' :
  process_markdown_files fs = Some (posts, fs') →
  (∃ es, lookup DOCS_BLOGS_DIR fs' = Some (Dir es))
  ∧ ∀ name, name ∈ documents fs →
      is_Some (read_file (BLOGS_DIR ++ [name]) fs).
Proof.
  unfold process_markdown_files. intros H.
  destruct (mkdir_parents DOCS_BLOGS_DIR fs) as [fs1|] eqn:Hm; [|done].
  cbn [mbind option_bind] in H.
  pose proof (mkdir_docs_blogs _ _ Hm) as Hb.
  rewrite (glob_suffix_blogs fs fs1 Hb) in H. fold (documents fs) in H.
  split.
  - apply (process_loop_dir _ _ _ _ _ H). by eapply mkdir_parents_dir.
  - intros name Hn.
    destruct (process_loop_needs _ _ _ _ _ H name Hn) as [Hr _].
    unfold read_file, file_data in *. by rewrite <-Hb.
Qed.

(** X19.  The processor can be run again: on the file system a run has
    left, a second run completes, returns the same records and changes
    nothing. *)
Theorem process_markdown_files_again fs posts fs' :
  process_markdown_files fs = Some (posts, fs') →
  process_markdown_files fs' = Some (posts, fs').
Proof.
  intros H. pose proof H as (Hposts & Hfiles & Hsrc)%process_markdown_files_inv.
  pose proof H as ([es Hdir] & Hreads)%process_markdown_files_reads.
  unfold process_markdown_files.
  rewrite (mkdir_parents_exists _ _ _ Hdir). cbn [mbind option_bind].
  rewrite (glob_suffix_blogs fs fs' Hsrc). fold (documents fs).
  rewrite process_loop_again.
  - cbn [app]. do 2 f_equal. rewrite Hposts. apply omap_ext.
    intros name. f_equal. by apply content_of_blogs.
  - intros name Hn. destruct (Hreads name Hn) as [content Hr].
    destruct (Hfiles name Hn) as (out & Hc & Hf).
    exists content, out. split_and!; [|by rewrite <-Hc; unfold content_of;
                                       rewrite Hr|done].
    unfold read_file, file_data in *. by rewrite Hsrc.
Qed.

Lemma process_markdown_files_again_witness :
  ∃ posts fs',
    process_markdown_files demo_fs = Some (posts, fs')
    ∧ process_markdown_files fs' = Some (posts, fs').
Proof.
  destruct (process_markdown_files demo_fs) as [[posts fs']|] eqn:E;
    [|by vm_compute in E].
  exists posts, fs'. split; [done|].
  by apply (process_markdown_files_again demo_fs).
Defined.

(** ** The ids of the documents *)

Lemma rfind_absent x (s : str) : x ∉ s → rfind x s = None.
Proof.
  induction s as [|c s IH]; [done|]. intros [Hc Hs]%not_elem_of_cons.
  cbn [rfind]. rewrite IH by done.
  rewrite (proj2 (eqc_false c x)); [done|congruence].
Qed.

Lemma rfind_last x (a b : str) :
  x ∉ b → rfind x (a ++ x :: b) = Some (length a).
Proof.
  intros Hb. induction a as [|c a IH]; cbn [app rfind length].
  - by rewrite rfind_absent, eqc_refl.
  - by rewrite IH.
Qed.

Lemma endswith_suffix (p s : str) :
  endswith p s = true ↔ ∃ x, s = x ++ p.
Proof.
  unfold endswith. rewrite startswith_prefix. split.
  - intros [t Ht]. exists (reverse t).
    apply (inj reverse). by rewrite Ht, reverse_app, reverse_involutive.
  - intros [x ->]. exists (reverse x). by rewrite reverse_app.
Qed.

(** X20.  The id of a document is its name without the extension: every
    document but one named [.md] alone has a name of the form
    [id ++ ".md"] with a non-empty id, and that id is what [stem] gives;
    the name [.md] is its own id. *)
Theorem document_ids fs (name : str) :
  name ∈ documents fs →
  (name = ".md" ∧ stem name = ".md")
  ∨ (stem name ≠ [] ∧ name = stem name ++ ".md").
Proof.
  intros [x ->]%documents_md%endswith_suffix.
  destruct x as [|c x]; [by left|]. right.
  assert (Hs : stem ((c :: x) ++ ".md") = c :: x).
  { unfold stem. change (lit ".md") with ("."%char :: lit "md").
    rewrite rfind_last by not_in_lit.
    rewrite length_app. cbn [length].
    replace (0 <? S (length x)) with true by done.
    assert ((S (length x) <? S (length x) + S (length (lit "md")) - 1) = true)
      as -> by (apply Nat.ltb_lt; cbn; lia).
    cbn [andb]. change (S (length x)) with (length (c :: x)).
    by rewrite take_app_length. }
  by rewrite Hs.
Qed.

Lemma document_ids_witness :
  stem "230101-a.md" ≠ []
  ∧ ("230101-a.md" : str) = stem "230101-a.md" ++ ".md".
Proof.
  destruct (document_ids demo_fs "230101-a.md") as [[H _]|H];
    [vm_compute; right; left|by vm_compute in H|done].
Defined.
